(** * The compile-time expression evaluator of nvc (src/eval.c)

  A shallow embedding of the vcode interpreter that folds calls to
  scalar literals, and the properties of it that the specification
  states.  The C code is translated function by function, keeping its
  names; the state it threads through the handlers ([eval_state_t], the
  process-global vcode selection, the error counter, the diagnostics
  written so far and the heap arena) is passed explicitly in a small
  state-and-error monad. *)

From Stdlib Require Import ZArith Lia Bool List String Ascii.
From Stdlib Require PrimFloat SpecFloat FloatOps DecimalString.
From stdpp Require Import base option list gmap strings.

Set Warnings "-register-all".

Local Open Scope string_scope.
Local Open Scope Z_scope.

(** ** Machine arithmetic (LP64: [int] is 32 bits, [int64_t], [long],
     [size_t] and pointers are 64 bits) *)

Module C.

(** Two's-complement reduction of [z] to a signed integer of [bits] bits. *)
Definition wrap (bits z : Z) : Z :=
  (z + 2 ^ (bits - 1)) mod 2 ^ bits - 2 ^ (bits - 1).

Definition int64 (z : Z) : Z := wrap 64 z.
Definition int (z : Z) : Z := wrap 32 z.
Definition size_t (z : Z) : Z := z mod 2 ^ 64.
Definition uint (z : Z) : Z := z mod 2 ^ 32.

Definition INT64_MIN : Z := - 2 ^ 63.
Definition INT64_MAX : Z := 2 ^ 63 - 1.

Definition in_int64 (z : Z) : Prop := INT64_MIN <= z <= INT64_MAX.

(** [int64_t] operators of the handlers.  [/] and [%] truncate toward
    zero ([Z.quot], [Z.rem]); the callers test the divisor before.  At
    [INT64_MIN / -1] the quotient is reduced like every other result. *)
Definition add (a b : Z) : Z := int64 (a + b).
Definition sub (a b : Z) : Z := int64 (a - b).
Definition mul (a b : Z) : Z := int64 (a * b).
Definition div (a b : Z) : Z := int64 (Z.quot a b).
Definition rem (a b : Z) : Z := int64 (Z.rem a b).
Definition neg (a : Z) : Z := int64 (- a).
Definition labs (a : Z) : Z := int64 (Z.abs a).
Definition llabs (a : Z) : Z := int64 (Z.abs a).
Definition lnot (a : Z) : Z := if a =? 0 then 1 else 0.
Definition of_bool (b : bool) : Z := if b then 1 else 0.

(** [char] is signed on the platform: a byte above 127 reads negative. *)
Definition char (byte : Z) : Z := wrap 8 byte.

(** Object sizes: [value_t] is a 4-byte tag, 4 bytes of padding and an
    8-byte union; [uarray_t] is four 24-byte dimension records, [ndims]
    with its padding, and the data pointer. *)
Definition sizeof_value_t : Z := 16.
Definition sizeof_uarray_t : Z := 112.

End C.

(** ** IEEE-754 doubles *)

Module Real.

Definition double : Set := PrimFloat.float.

Definition zero : double := PrimFloat.zero.

(** [(double)n]: the nearest double, ties to even. *)
Definition of_int64 (n : Z) : double :=
  FloatOps.SF2Prim
    (SpecFloat.binary_normalize FloatOps.prec FloatOps.emax n 0 false).

(** The integer part of a finite double, rounded toward zero; [None]
    for a NaN or an infinity. *)
Definition trunc (f : double) : option Z :=
  match FloatOps.Prim2SF f with
  | SpecFloat.S754_zero _ => Some 0
  | SpecFloat.S754_finite s m e =>
      let mag := if 0 <=? e then Z.pos m * 2 ^ e
                 else Z.quot (Z.pos m) (2 ^ (- e)) in
      Some (if s then - mag else mag)
  | _ => None
  end.

(** [(int64_t)f]: defined by C only when the truncated value fits. *)
Definition to_int64 (f : double) : option Z :=
  match trunc f with
  | Some z => if (C.INT64_MIN <=? z) && (z <=? C.INT64_MAX)
              then Some z else None
  | None => None
  end.

Definition ltb (a b : double) : bool := PrimFloat.ltb a b.

End Real.


(** ** The syntax tree and the types, as [eval.c] queries them

    [tree.h], [type.h] and [common.h] are not part of the evaluator; a
    node is the record of the items the evaluator reads. *)

Definition ident : Set := string.

Record loc_t : Set := LOC { loc_file : string; loc_line : Z }.

Inductive tree_kind_t : Set :=
| T_FCALL | T_LITERAL | T_TYPE_CONV | T_REF | T_UNIT_DECL | T_ENUM_LIT
| T_CONST_DECL | T_PACKAGE | T_PARAM | T_TREE_OTHER (n : nat).

Inductive type_kind_t : Set :=
| T_INTEGER | T_ENUM | T_REAL | T_PHYSICAL | T_SUBTYPE | T_TYPE_OTHER (n : nat).

Inductive type_t : Set := TYPE {
  type_kind : type_kind_t;
  type_ident : ident;
  type_base : option type_t;
  type_enum_literals : list ident;   (* [tree_ident (type_enum_literal t i)] *)
  type_units : list ident            (* [tree_ident (type_unit t i)] *)
}.

Inductive tree_t : Set := TREE {
  tree_kind : tree_kind_t;
  tree_loc : loc_t;
  tree_ident : ident;
  tree_type : type_t;
  tree_flags : Z;
  tree_ref : option tree_t;
  tree_value : option tree_t;
  tree_params : list tree_t
}.

(** The flag and option constants are single bits; their positions are
    fixed in [tree.h] and [phase.h] and no property depends on them. *)
Definition TREE_F_IMPURE : Z := 4.

(** ** Option flags ([eval_flags_t], a bit set) *)

Definition eval_flags_t : Set := Z.

Definition EVAL_FOLDING : eval_flags_t := 1.
Definition EVAL_FCALL : eval_flags_t := 2.
Definition EVAL_BOUNDS : eval_flags_t := 4.
Definition EVAL_WARN : eval_flags_t := 8.
Definition EVAL_REPORT : eval_flags_t := 16.
Definition EVAL_VERBOSE : eval_flags_t := 32.
Definition EVAL_LOWER : eval_flags_t := 64.

(** [flags & F] as a C condition. *)
Definition has_flag (flags F : Z) : bool := negb (Z.land flags F =? 0).

Definition SEVERITY_NOTE : Z := 0.
Definition SEVERITY_WARNING : Z := 1.
Definition SEVERITY_ERROR : Z := 2.
Definition SEVERITY_FAILURE : Z := 3.

Definition RANGE_TO : Z := 0.
Definition RANGE_DOWNTO : Z := 1.

Definition MAX_DIMS : Z := 4.
Definition EVAL_HEAP : Z := 4 * 1024.

(** ** The IR, as the query API of [vcode.h] presents it *)

Inductive vcode_op_t : Set :=
| VCODE_OP_COMMENT | VCODE_OP_CONST | VCODE_OP_CONST_REAL | VCODE_OP_RETURN
| VCODE_OP_NOT | VCODE_OP_ADD | VCODE_OP_SUB | VCODE_OP_MUL | VCODE_OP_DIV
| VCODE_OP_CMP | VCODE_OP_CAST | VCODE_OP_NEG | VCODE_OP_FCALL
| VCODE_OP_BOUNDS | VCODE_OP_CONST_ARRAY | VCODE_OP_WRAP | VCODE_OP_STORE
| VCODE_OP_UNWRAP | VCODE_OP_UARRAY_LEN | VCODE_OP_MEMCMP | VCODE_OP_AND
| VCODE_OP_OR | VCODE_OP_COND | VCODE_OP_JUMP | VCODE_OP_LOAD
| VCODE_OP_UNDEFINED | VCODE_OP_NESTED_FCALL | VCODE_OP_CASE | VCODE_OP_MOD
| VCODE_OP_REM | VCODE_OP_DYNAMIC_BOUNDS | VCODE_OP_INDEX | VCODE_OP_COPY
| VCODE_OP_LOAD_INDIRECT | VCODE_OP_STORE_INDIRECT | VCODE_OP_REPORT
| VCODE_OP_ASSERT | VCODE_OP_SELECT | VCODE_OP_ALLOCA | VCODE_OP_INDEX_CHECK
| VCODE_OP_ABS | VCODE_OP_IMAGE | VCODE_OP_HEAP_SAVE | VCODE_OP_HEAP_RESTORE
| VCODE_OP_UARRAY_LEFT | VCODE_OP_UARRAY_RIGHT | VCODE_OP_UARRAY_DIR
| VCODE_OP_EXP
| VCODE_OP_OTHER (name : string).
  (* any opcode of [vcode.h] that [eval_vcode] has no case for, with the
     name [vcode_op_string] prints for it *)

Inductive vcode_cmp_t : Set :=
| VCODE_CMP_EQ | VCODE_CMP_NEQ | VCODE_CMP_LT | VCODE_CMP_LEQ
| VCODE_CMP_GT | VCODE_CMP_GEQ | VCODE_CMP_OTHER (n : nat).

Inductive vtype_kind_t : Set :=
| VCODE_TYPE_INT | VCODE_TYPE_OFFSET | VCODE_TYPE_REAL | VCODE_TYPE_CARRAY
| VCODE_TYPE_UARRAY | VCODE_TYPE_OTHER (n : nat).

Record vcode_type_t : Set := VTYPE {
  vtype_kind : vtype_kind_t;
  vtype_low : Z;
  vtype_high : Z;
  vtype_size : Z
}.

Inductive bounds_kind_t : Set :=
| BOUNDS_ARRAY_TO | BOUNDS_ARRAY_DOWNTO | BOUNDS_OTHER (n : nat).

(** A variable handle answers the four queries the evaluator makes on it. *)
Record vcode_var_t : Set := VAR {
  vcode_var_type : vcode_type_t;
  vcode_var_extern : bool;
  vcode_var_context : nat;     (* depth of the unit that declares it *)
  vcode_var_index : Z
}.

Record op_t : Set := OP {
  op_kind : vcode_op_t;
  op_result : Z;
  op_args : list Z;
  op_value : Z;
  op_real : Real.double;
  op_cmp : vcode_cmp_t;
  op_type : vcode_type_t;
  op_targets : list Z;
  op_func : ident;
  op_bookmark : tree_t;
  op_subkind : bounds_kind_t;
  op_address : vcode_var_t;
  op_dim : Z
}.

Inductive vunit_kind_t : Set :=
| VCODE_UNIT_PROCESS | VCODE_UNIT_CONTEXT | VCODE_UNIT_FUNCTION
| VCODE_UNIT_PROCEDURE | VCODE_UNIT_THUNK.

Inductive vcode_unit_t : Set := UNIT {
  unit_name : ident;
  unit_kind : vunit_kind_t;
  unit_depth : nat;
  unit_context : option vcode_unit_t;
  unit_nregs : nat;
  unit_vars : list vcode_var_t;
  unit_blocks : list (list op_t)
}.

(** The process-global selection that [vcode_state_save] captures. *)
Record vcode_state_t : Set := VSTATE {
  vs_unit : option vcode_unit_t;
  vs_block : Z
}.

(** ** Values *)

Inductive value_kind_t : Set :=
| VALUE_INVALID | VALUE_REAL | VALUE_INTEGER | VALUE_POINTER | VALUE_UARRAY
| VALUE_CARRAY.

(** What a [value_t *] (or the [uarray_t *] of a descriptor) can point at:
    nothing, a byte offset into the arena, a register of the current
    context, or a variable of the context [up] parent links above it. *)
Inductive value_ptr : Set :=
| NULL
| arena (off : Z)
| reg_slot (r : Z)
| var_slot (up : nat) (i : Z).

(** The 8-byte union, tagged by the member last stored. *)
Inductive scalar : Set :=
| S_integer (z : Z)
| S_real (f : Real.double)
| S_pointer (p : value_ptr).

Record value_t : Set := VALUE { kind : value_kind_t; payload : scalar }.

(** Reading a member of the union.  Reading a member other than the one
    stored reinterprets the same bytes: the all-zero pattern (what
    [xcalloc] leaves) reads as [0], [0.0] and [NULL]; other patterns are
    not given a meaning. *)
Definition as_integer (s : scalar) : option Z :=
  match s with
  | S_integer z => Some z
  | S_pointer NULL => Some 0
  | _ => None
  end.

Definition as_real (s : scalar) : option Real.double :=
  match s with
  | S_real f => Some f
  | S_integer 0 => Some Real.zero
  | S_pointer NULL => Some Real.zero
  | _ => None
  end.

Definition as_pointer (s : scalar) : option value_ptr :=
  match s with
  | S_pointer p => Some p
  | S_integer 0 => Some NULL
  | _ => None
  end.

(** A slot of [xcalloc]ed memory. *)
Definition zero_value : value_t := VALUE VALUE_INVALID (S_integer 0).

(** ** The arena

    The arena is addressed by byte offset, one entry per stored field: a
    [value_t] at [p] has its tag at [p] and its union at [p + 8]; a
    [uarray_t] at [p] has [dim[i].left], [.right], [.dir] at
    [p + 24 i], [+ 8], [+ 16], [ndims] at [p + 96] and [data] at
    [p + 104].  A field never written is absent: [xmalloc] does not
    initialise. *)
Inductive field : Set :=
| F_kind (k : value_kind_t)
| F_scalar (s : scalar).

Definition off_payload (p : Z) : Z := p + 8.
Definition off_left (p i : Z) : Z := p + 24 * i.
Definition off_right (p i : Z) : Z := p + 24 * i + 8.
Definition off_dir (p i : Z) : Z := p + 24 * i + 16.
Definition off_ndims (p : Z) : Z := p + 96.
Definition off_data (p : Z) : Z := p + 104.

(** ** Scope contexts and the evaluation state *)

Inductive context_t : Set := CONTEXT {
  parent : option context_t;
  regs : list value_t;
  vars : list value_t
}.

Record eval_state_t : Set := STATE {
  context : context_t;
  result : Z;
  fcall : tree_t;
  flags : eval_flags_t;
  failed : bool;
  heap : bool;         (* [false]: NULL; [true]: the arena from [xmalloc] *)
  halloc : Z
}.

(** ** Diagnostics *)

Inductive arg : Set :=
| A_int (z : Z) | A_str (s : string) | A_real (f : Real.double)
| A_vtype (k : vtype_kind_t) | A_bounds (k : bounds_kind_t)
| A_cmp (k : vcode_cmp_t).

Inductive channel : Set :=
| note_at | warn_at | error_at | fatal_at | notef | fatal | fatal_trace
| assert_fail.

Record diag : Set := DIAG {
  d_channel : channel;
  d_loc : option loc_t;
  d_fmt : string;
  d_args : list arg
}.

Inductive event : Set :=
| Emit (d : diag)
| Vcode_dump
| Lower_thunk (t : tree_t).

(** ** Everything outside [eval_state_t] that the evaluator reads or
       writes *)

Record lib_unit : Set := LIB_UNIT {
  lu_tree : tree_t;
  lu_has_code : bool;                        (* [tree_has_code] *)
  lu_file : option (list vcode_unit_t)       (* the units of [_NAME.vcode] *)
}.

Record world : Set := WORLD {
  selection : vcode_state_t;                (* selected unit and block *)
  selects : nat;                            (* [vcode_select_block] calls so far *)
  units : gmap string vcode_unit_t;         (* [vcode_find_unit] *)
  libs : gmap string (gmap string lib_unit);
  mem : gmap Z field;                       (* contents of the arena *)
  log : list event;                         (* newest first *)
  errors : Z;
  env_verbose : bool                        (* [getenv("NVC_EVAL_VERBOSE")] *)
}.

Record machine : Set := MACHINE { st : eval_state_t; wd : world }.

(** ** Outcomes and the monad

    A computation over a state [S] returns normally, ends the process
    with a fatal diagnostic (this includes a failed [assert]), does
    something C gives no meaning to, or exhausts the recursion fuel; the
    state reached is kept in every case but the third. *)

Inductive outcome (S A : Type) : Type :=
| Done (a : A) (s : S)
| Fatal (d : diag) (s : S)
| Undefined (why : string)
| OutOfFuel (s : S).

Arguments Done {S A} a s.
Arguments Fatal {S A} d s.
Arguments Undefined {S A} why.
Arguments OutOfFuel {S A} s.

Definition ST (S A : Type) : Type := S -> outcome S A.

Definition ret {S A} (a : A) : ST S A := fun s => Done a s.

Definition bind {S A B} (c : ST S A) (k : A -> ST S B) : ST S B :=
  fun s =>
    match c s with
    | Done a s' => k a s'
    | Fatal d s' => Fatal d s'
    | Undefined why => Undefined why
    | OutOfFuel s' => OutOfFuel s'
    end.

Notation "'do' x <- c ; k" := (bind c (fun x => k))
  (at level 10, x name, c at level 100, k at level 200).
Notation "'do' ' pat <- c ; k" := (bind c (fun pat => k))
  (at level 10, pat strict pattern, c at level 100, k at level 200).
Notation "c ;; k" := (bind c (fun _ => k))
  (at level 100, k at level 200, right associativity).

Definition undefined {S A} (why : string) : ST S A := fun _ => Undefined why.

Definition of_option {S A} (why : string) (o : option A) : ST S A :=
  match o with Some a => ret a | None => undefined why end.

Definition die {S A} (ch : channel) (loc : option loc_t) (fmt : string)
  (args : list arg) : ST S A :=
  fun s => Fatal (DIAG ch loc fmt args) s.

(** The handlers run over the evaluation state and the world. *)
Definition M (A : Type) : Type := ST machine A.

Definition get_state : M eval_state_t := fun m => Done (st m) m.
Definition get_world : M world := fun m => Done (wd m) m.
Definition put_state (s : eval_state_t) : M unit :=
  fun m => Done tt (MACHINE s (wd m)).
Definition put_world (w : world) : M unit :=
  fun m => Done tt (MACHINE (st m) w).

(** [assert(e)] of a build with assertions enabled. *)
Definition c_assert {S} (e : bool) (expr : string) : ST S unit :=
  if e then ret tt else die assert_fail None expr [].

(** ** Field updates of the records *)

Definition set_context (c : context_t) (s : eval_state_t) : eval_state_t :=
  STATE c (result s) (fcall s) (flags s) (failed s) (heap s) (halloc s).
Definition set_result (r : Z) (s : eval_state_t) : eval_state_t :=
  STATE (context s) r (fcall s) (flags s) (failed s) (heap s) (halloc s).
Definition set_failed (b : bool) (s : eval_state_t) : eval_state_t :=
  STATE (context s) (result s) (fcall s) (flags s) b (heap s) (halloc s).
Definition set_heap (h : bool) (a : Z) (s : eval_state_t) : eval_state_t :=
  STATE (context s) (result s) (fcall s) (flags s) (failed s) h a.

Definition set_selection (v : vcode_state_t) (n : nat) (w : world) : world :=
  WORLD v n (units w) (libs w) (mem w) (log w) (errors w) (env_verbose w).
Definition set_units (u : gmap string vcode_unit_t) (w : world) : world :=
  WORLD (selection w) (selects w) u (libs w) (mem w) (log w) (errors w)
    (env_verbose w).
Definition set_mem (h : gmap Z field) (w : world) : world :=
  WORLD (selection w) (selects w) (units w) (libs w) h (log w) (errors w)
    (env_verbose w).
Definition add_event (e : event) (w : world) : world :=
  WORLD (selection w) (selects w) (units w) (libs w) (mem w) (e :: log w)
    (errors w) (env_verbose w).
Definition incr_errors (w : world) : world :=
  WORLD (selection w) (selects w) (units w) (libs w) (mem w) (log w)
    (C.int (errors w + 1)) (env_verbose w).

(** ** Diagnostics *)

Definition diag_event (ch : channel) (loc : loc_t) (fmt : string)
  (args : list arg) : event :=
  Emit (DIAG ch (Some loc) fmt args).

Definition emit (ch : channel) (loc : loc_t) (fmt : string)
  (args : list arg) : M unit :=
  fun m => Done tt (MACHINE (st m) (add_event (diag_event ch loc fmt args) (wd m))).

Definition emit_notef (fmt : string) (args : list arg) : M unit :=
  fun m => Done tt (MACHINE (st m) (add_event (Emit (DIAG notef None fmt args)) (wd m))).

Definition vcode_dump : M unit :=
  fun m => Done tt (MACHINE (st m) (add_event Vcode_dump (wd m))).

(** The macro [EVAL_WARN(t, ...)]. *)
Definition EVAL_WARN_ (t : tree_t) (fmt : string) (args : list arg) : M unit :=
  do state <- get_state;
  if has_flag (flags state) EVAL_WARN
  then emit warn_at (tree_loc t) fmt args
  else ret tt.

Definition fail_fold : M unit :=
  do state <- get_state; put_state (set_failed true state).

(** ** The heap arena: [eval_alloc]

    [nbytes] is a [size_t]; the sum in the test and the new high-water
    mark are computed in [size_t]. *)

Definition eval_alloc (nbytes : Z) (state : eval_state_t) (w : world)
  : value_ptr * eval_state_t * world :=
  if EVAL_HEAP <? C.size_t (halloc state + nbytes) then
    let w' :=
      if has_flag (flags state) EVAL_WARN then
        add_event
          (diag_event warn_at (tree_loc (fcall state))
             "evaluation heap exhaustion prevents constant folding (%zu allocated, %zu requested)"
             [A_int (halloc state); A_int nbytes]) w
      else w in
    (NULL, set_failed true state, w')
  else
    let heap' := if heap state then heap state else true in
    (arena (halloc state),
     set_heap heap' (C.size_t (halloc state + nbytes)) state, w).

Definition alloc (nbytes : Z) : M value_ptr :=
  fun m => let '(p, s, w) := eval_alloc nbytes (st m) (wd m) in
           Done p (MACHINE s w).

(** ** Dereferencing *)

Definition index {A} (i : Z) (l : list A) : option A :=
  if i <? 0 then None else l !! Z.to_nat i.

Definition update {A} (i : Z) (x : A) (l : list A) : list A :=
  <[Z.to_nat i := x]> l.

Fixpoint ancestor (up : nat) (c : context_t) : option context_t :=
  match up with
  | O => Some c
  | S n => match parent c with
           | Some p => ancestor n p
           | None => None
           end
  end.

Fixpoint update_ancestor (up : nat) (f : context_t -> context_t)
  (c : context_t) : option context_t :=
  match up with
  | O => Some (f c)
  | S n => match parent c with
           | Some p =>
               match update_ancestor n f p with
               | Some p' => Some (CONTEXT (Some p') (regs c) (vars c))
               | None => None
               end
           | None => None
           end
  end.

(** The [value_t] a pointer into a context designates. *)
Definition slot_value (p : value_ptr) (c : context_t) : option value_t :=
  match p with
  | reg_slot r => index r (regs c)
  | var_slot up i =>
      match ancestor up c with
      | Some a => index i (vars a)
      | None => None
      end
  | _ => None
  end.

Definition slot_store (p : value_ptr) (v : value_t) (c : context_t)
  : option context_t :=
  match p with
  | reg_slot r => Some (CONTEXT (parent c) (update r v (regs c)) (vars c))
  | var_slot up i =>
      update_ancestor up
        (fun a => CONTEXT (parent a) (regs a) (update i v (vars a))) c
  | _ => None
  end.

Definition in_arena (off size : Z) : bool :=
  (0 <=? off) && (off + size <=? EVAL_HEAP).

Definition get_field (off : Z) : M field :=
  fun m => match mem (wd m) !! off with
           | Some f => Done f m
           | None => Undefined "read of a field never written"
           end.

Definition set_field (off : Z) (f : field) : M unit :=
  fun m => if heap (st m) && in_arena off 8
           then Done tt (MACHINE (st m) (set_mem (<[off := f]> (mem (wd m))) (wd m)))
           else Undefined "write outside the arena".

Definition get_scalar (off : Z) : M scalar :=
  do f <- get_field off;
  match f with
  | F_scalar s => ret s
  | F_kind _ => undefined "a tag read as a scalar"
  end.

Definition arena_offset (p : value_ptr) : M Z :=
  match p with
  | arena off => ret off
  | NULL => undefined "NULL dereferenced"
  | _ => undefined "not an arena pointer"
  end.

(** [p->kind] *)
Definition get_kind (p : value_ptr) : M value_kind_t :=
  match p with
  | NULL => undefined "NULL dereferenced"
  | arena off =>
      do f <- get_field off;
      match f with
      | F_kind k => ret k
      | F_scalar _ => undefined "a scalar read as a tag"
      end
  | _ =>
      do state <- get_state;
      do v <- of_option "slot outside its context" (slot_value p (context state));
      ret (kind v)
  end.

(** The union of [*p]. *)
Definition get_payload (p : value_ptr) : M scalar :=
  match p with
  | NULL => undefined "NULL dereferenced"
  | arena off => get_scalar (off_payload off)
  | _ =>
      do state <- get_state;
      do v <- of_option "slot outside its context" (slot_value p (context state));
      ret (payload v)
  end.

Definition update_slot (p : value_ptr) (f : value_t -> value_t) : M unit :=
  do state <- get_state;
  do v <- of_option "slot outside its context" (slot_value p (context state));
  do c <- of_option "slot outside its context" (slot_store p (f v) (context state));
  put_state (set_context c state).

(** [p->kind = k] *)
Definition set_kind (p : value_ptr) (k : value_kind_t) : M unit :=
  match p with
  | NULL => undefined "NULL dereferenced"
  | arena off => set_field off (F_kind k)
  | _ => update_slot p (fun v => VALUE k (payload v))
  end.

Definition set_payload (p : value_ptr) (s : scalar) : M unit :=
  match p with
  | NULL => undefined "NULL dereferenced"
  | arena off => set_field (off_payload off) (F_scalar s)
  | _ => update_slot p (fun v => VALUE (kind v) s)
  end.

(** [p->integer], [p->real], [p->pointer] (and [p->uarray]) *)
Definition get_integer (p : value_ptr) : M Z :=
  do s <- get_payload p; of_option "union read through another member" (as_integer s).
Definition get_real (p : value_ptr) : M Real.double :=
  do s <- get_payload p; of_option "union read through another member" (as_real s).
Definition get_pointer (p : value_ptr) : M value_ptr :=
  do s <- get_payload p; of_option "union read through another member" (as_pointer s).

Definition set_integer (p : value_ptr) (z : Z) : M unit := set_payload p (S_integer z).
Definition set_real (p : value_ptr) (f : Real.double) : M unit := set_payload p (S_real f).
Definition set_pointer (p q : value_ptr) : M unit := set_payload p (S_pointer q).

(** [*p] and [*p = v] *)
Definition load (p : value_ptr) : M value_t :=
  do k <- get_kind p; do s <- get_payload p; ret (VALUE k s).
Definition store (p : value_ptr) (v : value_t) : M unit :=
  set_kind p (kind v) ;; set_payload p (payload v).

(** [&p[i]] for a [value_t *p]: pointer arithmetic in slots. *)
Definition ptr_add (p : value_ptr) (i : Z) : M value_ptr :=
  match p with
  | arena off => ret (arena (off + C.sizeof_value_t * i))
  | NULL => if i =? 0 then ret NULL else undefined "arithmetic on NULL"
  | _ => undefined "arithmetic on a pointer into a context"
  end.

(** Fields of the [uarray_t] at [u]. *)
Definition ua_get_int (u : value_ptr) (field_off : Z -> Z) : M Z :=
  do off <- arena_offset u;
  do s <- get_scalar (field_off off);
  of_option "descriptor field is not an integer" (as_integer s).

Definition ua_set_int (u : value_ptr) (field_off : Z -> Z) (z : Z) : M unit :=
  do off <- arena_offset u; set_field (field_off off) (F_scalar (S_integer z)).

Definition ua_get_data (u : value_ptr) : M value_ptr :=
  do off <- arena_offset u;
  do s <- get_scalar (off_data off);
  of_option "descriptor data is not a pointer" (as_pointer s).

Definition ua_set_data (u : value_ptr) (p : value_ptr) : M unit :=
  do off <- arena_offset u; set_field (off_data off) (F_scalar (S_pointer p)).

(** ** The vcode query API over the current selection *)

Definition VCODE_INVALID_BLOCK : Z := -1.

Definition cur_unit : M vcode_unit_t :=
  do w <- get_world; of_option "no vcode unit is selected" (vs_unit (selection w)).

(** The ops of the selected block, and the op at index [op] in it. *)
Definition selected_block (w : world) : option (list op_t) :=
  match vs_unit (selection w) with
  | Some u => index (vs_block (selection w)) (unit_blocks u)
  | None => None
  end.

Definition op_at (w : world) (op : Z) : option op_t :=
  match selected_block w with
  | Some b => index op b
  | None => None
  end.

Definition vcode_op (op : Z) : M op_t :=
  do w <- get_world; of_option "no such op in the selected block" (op_at w op).

Definition vcode_count_ops : M Z :=
  do w <- get_world;
  do b <- of_option "no block is selected" (selected_block w);
  ret (Z.of_nat (length b)).
Definition vcode_get_op (op : Z) : M vcode_op_t :=
  do o <- vcode_op op; ret (op_kind o).
Definition vcode_get_result (op : Z) : M Z :=
  do o <- vcode_op op; ret (op_result o).
Definition vcode_count_args (op : Z) : M Z :=
  do o <- vcode_op op; ret (Z.of_nat (length (op_args o))).
Definition vcode_get_arg (op i : Z) : M Z :=
  do o <- vcode_op op; of_option "no such argument" (index i (op_args o)).
Definition vcode_get_value (op : Z) : M Z :=
  do o <- vcode_op op; ret (op_value o).
Definition vcode_get_real (op : Z) : M Real.double :=
  do o <- vcode_op op; ret (op_real o).
Definition vcode_get_cmp (op : Z) : M vcode_cmp_t :=
  do o <- vcode_op op; ret (op_cmp o).
Definition vcode_get_type (op : Z) : M vcode_type_t :=
  do o <- vcode_op op; ret (op_type o).
Definition vcode_get_target (op i : Z) : M Z :=
  do o <- vcode_op op; of_option "no such target" (index i (op_targets o)).
Definition vcode_get_func (op : Z) : M ident :=
  do o <- vcode_op op; ret (op_func o).
Definition vcode_get_bookmark (op : Z) : M tree_t :=
  do o <- vcode_op op; ret (op_bookmark o).
Definition vcode_get_subkind (op : Z) : M bounds_kind_t :=
  do o <- vcode_op op; ret (op_subkind o).
Definition vcode_get_address (op : Z) : M vcode_var_t :=
  do o <- vcode_op op; ret (op_address o).
Definition vcode_get_dim (op : Z) : M Z :=
  do o <- vcode_op op; ret (op_dim o).

Definition vcode_count_regs : M Z :=
  do u <- cur_unit; ret (Z.of_nat (unit_nregs u)).
Definition vcode_count_vars : M Z :=
  do u <- cur_unit; ret (Z.of_nat (length (unit_vars u))).
Definition vcode_unit_depth : M nat :=
  do u <- cur_unit; ret (unit_depth u).
Definition vcode_unit_kind : M vunit_kind_t :=
  do u <- cur_unit; ret (unit_kind u).
Definition vcode_unit_context : M (option vcode_unit_t) :=
  do u <- cur_unit; ret (unit_context u).

Definition vcode_find_unit (name : ident) : M (option vcode_unit_t) :=
  do w <- get_world; ret (units w !! name).

Definition select_unit (u : option vcode_unit_t) (w : world) : world :=
  set_selection (VSTATE u VCODE_INVALID_BLOCK) (selects w) w.

Definition select_block (b : Z) (w : world) : world :=
  set_selection (VSTATE (vs_unit (selection w)) b) (S (selects w)) w.

Definition vcode_select_unit (u : option vcode_unit_t) : M unit :=
  do w <- get_world; put_world (select_unit u w).

Definition vcode_select_block (b : Z) : M unit :=
  do w <- get_world; put_world (select_block b w).

Definition vcode_state_save : M vcode_state_t :=
  do w <- get_world; ret (selection w).

Definition vcode_state_restore (v : vcode_state_t) : M unit :=
  do w <- get_world; put_world (set_selection v (selects w) w).

Definition vcode_op_string (k : vcode_op_t) : string :=
  match k with
  | VCODE_OP_OTHER name => name
  | _ => "handled op"
  end.

(** ** [eval_new_context]

    The caller's [state] may be a null pointer (the root call passes
    [NULL]); the function runs over that optional state and the world. *)

Definition new_var (var : vcode_var_t)
  : ST (option eval_state_t * world) value_t :=
  fun sw =>
    let type := vcode_var_type var in
    match vtype_kind type with
    | VCODE_TYPE_CARRAY =>
        match fst sw with
        | Some state =>
            let '(p, state', w') :=
              eval_alloc (C.size_t (C.sizeof_value_t * vtype_size type)) state (snd sw) in
            Done (VALUE VALUE_CARRAY (S_pointer p)) (Some state', w')
        | None => Undefined "NULL state dereferenced"
        end
    | VCODE_TYPE_INT => Done (VALUE VALUE_INTEGER (S_integer 0)) sw
    | VCODE_TYPE_REAL => Done (VALUE VALUE_REAL (S_real Real.zero)) sw
    | VCODE_TYPE_UARRAY => Done (VALUE VALUE_UARRAY (S_pointer NULL)) sw
    | k =>
        match fst sw with
        | Some state =>
            Fatal (DIAG fatal_at (Some (tree_loc (fcall state)))
                     "cannot evaluate variables with type %d" [A_vtype k]) sw
        | None => Undefined "NULL state dereferenced"
        end
    end.

Fixpoint new_vars (vs : list vcode_var_t)
  : ST (option eval_state_t * world) (list value_t) :=
  match vs with
  | [] => ret []
  | var :: rest =>
      do v <- new_var var; do r <- new_vars rest; ret (v :: r)
  end.

Definition eval_new_context
  : ST (option eval_state_t * world) context_t :=
  fun sw =>
    match vs_unit (selection (snd sw)) with
    | None => Undefined "no vcode unit is selected"
    | Some u =>
        let nregs := unit_nregs u in
        (do vs <- new_vars (unit_vars u);
         ret (CONTEXT None (replicate nregs zero_value) vs)) sw
    end.

(** [eval_new_context(state)] for a handler's non-null [state]. *)
Definition new_context : M context_t :=
  fun m =>
    match eval_new_context (Some (st m), wd m) with
    | Done c (Some s, w) => Done c (MACHINE s w)
    | Done c (None, w) => Undefined "the state pointer was lost"
    | Fatal d (_, w) => Fatal d (MACHINE (st m) w)
    | Undefined why => Undefined why
    | OutOfFuel (_, w) => OutOfFuel (MACHINE (st m) w)
    end.

Definition eval_get_reg (reg : Z) : M value_ptr := ret (reg_slot reg).

(** ** Comparison *)

Definition value_kind_code (k : value_kind_t) : Z :=
  match k with
  | VALUE_INVALID => 0 | VALUE_REAL => 1 | VALUE_INTEGER => 2
  | VALUE_POINTER => 3 | VALUE_UARRAY => 4 | VALUE_CARRAY => 5
  end.

Definition kind_eqb (a b : value_kind_t) : bool :=
  match a, b with
  | VALUE_INVALID, VALUE_INVALID | VALUE_REAL, VALUE_REAL
  | VALUE_INTEGER, VALUE_INTEGER | VALUE_POINTER, VALUE_POINTER
  | VALUE_UARRAY, VALUE_UARRAY | VALUE_CARRAY, VALUE_CARRAY => true
  | _, _ => false
  end.

(** [p - q] for two [value_t *]: the distance in slots. *)
Definition ptr_diff (p q : value_ptr) : M Z :=
  match p, q with
  | arena a, arena b => ret (Z.quot (a - b) C.sizeof_value_t)
  | NULL, NULL => ret 0
  | _, _ => undefined "difference of unrelated pointers"
  end.

(** [eval_value_cmp] returns [int]: the 64-bit difference is converted
    to 32 bits by the [return]. *)
Definition eval_value_cmp (lhs rhs : value_ptr) : M Z :=
  do kl <- get_kind lhs;
  do kr <- get_kind rhs;
  c_assert (kind_eqb kl kr) "lhs->kind == rhs->kind" ;;
  match kl with
  | VALUE_INTEGER =>
      do a <- get_integer lhs;
      do b <- get_integer rhs;
      ret (C.int (C.sub a b))
  | VALUE_REAL =>
      do a <- get_real lhs;
      do b <- get_real rhs;
      let diff := PrimFloat.sub a b in
      if Real.ltb diff Real.zero then ret (-1)
      else if Real.ltb Real.zero diff then ret 1
      else ret 0
  | VALUE_POINTER =>
      do a <- get_pointer lhs;
      do b <- get_pointer rhs;
      do d <- ptr_diff a b;
      ret (C.int d)
  | k =>
      die fatal_trace None "invalid value type %d in %s"
        [A_int (value_kind_code k); A_str "eval_value_cmp"]
  end.

(** ** [eval_message] *)

Definition levels : list string := ["Note"; "Warning"; "Error"; "Failure"].

Fixpoint read_chars (n : nat) (i : Z) (text : value_ptr) : M (list Z) :=
  match n with
  | O => ret []
  | S k =>
      do p <- get_pointer text;
      do cell <- ptr_add p i;
      do c <- get_integer cell;
      do rest <- read_chars k (i + 1) text;
      ret (C.char (c mod 256) :: rest)
  end.

(** The C string in a [char] buffer: the bytes before the first NUL. *)
Fixpoint c_string (codes : list Z) : string :=
  match codes with
  | [] => ""
  | c :: rest =>
      if c =? 0 then ""
      else String (Ascii.ascii_of_N (Z.to_N (c mod 256))) (c_string rest)
  end.

Definition eval_message (text length severity : value_ptr) (loc : loc_t)
  (prefix : string) : M unit :=
  do k <- get_kind text;
  c_assert (kind_eqb k VALUE_POINTER) "text->kind == VALUE_POINTER" ;;
  do len <- get_integer length;
  do copy <-
    (if 0 <? len
     then do cs <- read_chars (Z.to_nat len) 0 text; ret (Some (c_string cs))
     else ret None);
  do sev <- get_integer severity;
  let fn :=
    if sev =? SEVERITY_NOTE then note_at
    else if sev =? SEVERITY_WARNING then warn_at
    else if (sev =? SEVERITY_ERROR) || (sev =? SEVERITY_FAILURE) then error_at
    else fatal_at in
  do level <- of_option "levels[] read out of bounds" (index sev levels);
  let args := [A_str prefix; A_str level;
               A_str (match copy with Some c => c | None => "Assertion violation" end)] in
  match fn with
  | fatal_at => die fatal_at (Some loc) "%s %s: %s" args
  | _ => emit fn loc "%s %s: %s" args
  end.

(** ** Collaborators

    Functions of other translation units and of the C library that the
    evaluator calls; it relies on nothing but their results. *)

Record collaborators : Type := COLLABORATORS {
  type_is_scalar : type_t -> bool;
  type_is_enum : type_t -> bool;
  type_base_recur : type_t -> type_t;
  lower_thunk : tree_t -> option vcode_unit_t;
  get_enum_lit : tree_t -> Z -> tree_t;
  get_int_lit : tree_t -> Z -> tree_t;
  get_real_lit : tree_t -> Real.double -> tree_t;
  pow : Real.double -> Real.double -> Real.double;
  format_g : Z -> Real.double -> string     (* [printf("%.*g", n, x)] *)
}.

Section Handlers.

Variable X : collaborators.

(** [eval_vcode], for the handlers that re-enter it. *)
Variable eval_vcode : M unit.

Definition invalid_value_type {A} (func : string) : M A :=
  die fatal_trace None "invalid value type in %s" [A_str func].

Definition division_by_zero {A} : M A :=
  do state <- get_state;
  die fatal_at (Some (tree_loc (fcall state))) "division by zero" [].

Definition eval_op_const (op : Z) : M unit :=
  do r <- vcode_get_result op;
  do dst <- eval_get_reg r;
  set_kind dst VALUE_INTEGER ;;
  do v <- vcode_get_value op;
  set_integer dst v.

Definition eval_op_const_real (op : Z) : M unit :=
  do r <- vcode_get_result op;
  do dst <- eval_get_reg r;
  set_kind dst VALUE_REAL ;;
  do v <- vcode_get_real op;
  set_real dst v.

Definition eval_op_return (op : Z) : M unit :=
  do n <- vcode_count_args op;
  if 0 <? n then
    do a <- vcode_get_arg op 0;
    do state <- get_state;
    put_state (set_result a state)
  else ret tt.

(** The common prologue: [dst], then one or two source registers. *)
Definition dst_src (op : Z) : M (value_ptr * value_ptr) :=
  do r <- vcode_get_result op;
  do dst <- eval_get_reg r;
  do a <- vcode_get_arg op 0;
  do src <- eval_get_reg a;
  ret (dst, src).

Definition dst_lhs_rhs (op : Z) : M (value_ptr * value_ptr * value_ptr) :=
  do r <- vcode_get_result op;
  do dst <- eval_get_reg r;
  do a <- vcode_get_arg op 0;
  do lhs <- eval_get_reg a;
  do b <- vcode_get_arg op 1;
  do rhs <- eval_get_reg b;
  ret (dst, lhs, rhs).

Definition eval_op_not (op : Z) : M unit :=
  do '(dst, src) <- dst_src op;
  set_kind dst VALUE_INTEGER ;;
  do x <- get_integer src;
  set_integer dst (C.lnot x).

(** An arithmetic handler whose integer and real cases apply a binary
    operator; [eval_op_add] has a third case. *)
Definition int_binop (dst lhs rhs : value_ptr) (f : Z -> Z -> Z) : M unit :=
  set_kind dst VALUE_INTEGER ;;
  do a <- get_integer lhs;
  do b <- get_integer rhs;
  set_integer dst (f a b).

Definition real_binop (dst lhs rhs : value_ptr)
  (f : Real.double -> Real.double -> Real.double) : M unit :=
  set_kind dst VALUE_REAL ;;
  do a <- get_real lhs;
  do b <- get_real rhs;
  set_real dst (f a b).

Definition eval_op_add (op : Z) : M unit :=
  do '(dst, lhs, rhs) <- dst_lhs_rhs op;
  do k <- get_kind lhs;
  match k with
  | VALUE_INTEGER => int_binop dst lhs rhs C.add
  | VALUE_REAL => real_binop dst lhs rhs PrimFloat.add
  | VALUE_POINTER =>
      do kr <- get_kind rhs;
      c_assert (kind_eqb kr VALUE_INTEGER) "rhs->kind == VALUE_INTEGER" ;;
      set_kind dst VALUE_POINTER ;;
      do p <- get_pointer lhs;
      do n <- get_integer rhs;
      do q <- ptr_add p n;
      set_pointer dst q
  | _ => invalid_value_type "eval_op_add"
  end.

Definition eval_op_sub (op : Z) : M unit :=
  do '(dst, lhs, rhs) <- dst_lhs_rhs op;
  do k <- get_kind lhs;
  match k with
  | VALUE_INTEGER => int_binop dst lhs rhs C.sub
  | VALUE_REAL => real_binop dst lhs rhs PrimFloat.sub
  | _ => invalid_value_type "eval_op_sub"
  end.

Definition eval_op_mul (op : Z) : M unit :=
  do '(dst, lhs, rhs) <- dst_lhs_rhs op;
  do k <- get_kind lhs;
  match k with
  | VALUE_INTEGER => int_binop dst lhs rhs C.mul
  | VALUE_REAL => real_binop dst lhs rhs PrimFloat.mul
  | _ => invalid_value_type "eval_op_mul"
  end.

(** The integer case of [div], [mod] and [rem]: the divisor is tested
    first, and a zero divisor is fatal. *)
Definition int_divop (dst lhs rhs : value_ptr) (f : Z -> Z -> Z) : M unit :=
  do b <- get_integer rhs;
  if b =? 0 then division_by_zero
  else int_binop dst lhs rhs f.

Definition eval_op_div (op : Z) : M unit :=
  do '(dst, lhs, rhs) <- dst_lhs_rhs op;
  do k <- get_kind lhs;
  match k with
  | VALUE_INTEGER => int_divop dst lhs rhs C.div
  | VALUE_REAL => real_binop dst lhs rhs PrimFloat.div
  | _ => invalid_value_type "eval_op_div"
  end.

Definition eval_op_mod (op : Z) : M unit :=
  do '(dst, lhs, rhs) <- dst_lhs_rhs op;
  do k <- get_kind lhs;
  match k with
  | VALUE_INTEGER => int_divop dst lhs rhs (fun a b => C.labs (C.rem a b))
  | _ => invalid_value_type "eval_op_mod"
  end.

Definition eval_op_rem (op : Z) : M unit :=
  do '(dst, lhs, rhs) <- dst_lhs_rhs op;
  do k <- get_kind lhs;
  match k with
  | VALUE_INTEGER =>
      int_divop dst lhs rhs (fun a b => C.sub a (C.mul (C.div a b) b))
  | _ => invalid_value_type "eval_op_rem"
  end.

Definition eval_op_exp (op : Z) : M unit :=
  do '(dst, lhs, rhs) <- dst_lhs_rhs op;
  real_binop dst lhs rhs (pow X).

Definition eval_op_cmp (op : Z) : M unit :=
  do '(dst, lhs, rhs) <- dst_lhs_rhs op;
  set_kind dst VALUE_INTEGER ;;
  do c <- vcode_get_cmp op;
  match c with
  | VCODE_CMP_EQ =>
      do d <- eval_value_cmp lhs rhs; set_integer dst (C.of_bool (d =? 0))
  | VCODE_CMP_NEQ =>
      do d <- eval_value_cmp lhs rhs; set_integer dst (C.of_bool (negb (d =? 0)))
  | VCODE_CMP_GT =>
      do d <- eval_value_cmp lhs rhs; set_integer dst (C.of_bool (0 <? d))
  | VCODE_CMP_GEQ =>
      do d <- eval_value_cmp lhs rhs; set_integer dst (C.of_bool (0 <=? d))
  | VCODE_CMP_LT =>
      do d <- eval_value_cmp lhs rhs; set_integer dst (C.of_bool (d <? 0))
  | VCODE_CMP_LEQ =>
      do d <- eval_value_cmp lhs rhs; set_integer dst (C.of_bool (d <=? 0))
  | VCODE_CMP_OTHER _ =>
      vcode_dump ;; die fatal_trace None "cannot handle comparison" []
  end.

Definition eval_op_cast (op : Z) : M unit :=
  do '(dst, src) <- dst_src op;
  do type <- vcode_get_type op;
  match vtype_kind type with
  | VCODE_TYPE_INT | VCODE_TYPE_OFFSET =>
      set_kind dst VALUE_INTEGER ;;
      do k <- get_kind src;
      match k with
      | VALUE_INTEGER => do n <- get_integer src; set_integer dst n
      | VALUE_REAL =>
          do r <- get_real src;
          do n <- of_option "double outside the range of int64_t"
                    (Real.to_int64 r);
          set_integer dst n
      | _ => ret tt
      end
  | VCODE_TYPE_REAL =>
      set_kind dst VALUE_REAL ;;
      do k <- get_kind src;
      match k with
      | VALUE_INTEGER => do n <- get_integer src; set_real dst (Real.of_int64 n)
      | VALUE_REAL => do r <- get_real src; set_real dst r
      | _ => ret tt
      end
  | _ =>
      vcode_dump ;; die fatal None "cannot handle destination type in cast" []
  end.

Definition eval_op_neg (op : Z) : M unit :=
  do '(dst, src) <- dst_src op;
  do k <- get_kind src;
  match k with
  | VALUE_INTEGER =>
      set_kind dst VALUE_INTEGER ;;
      do n <- get_integer src; set_integer dst (C.neg n)
  | VALUE_REAL =>
      set_kind dst VALUE_REAL ;;
      do r <- get_real src; set_real dst (PrimFloat.opp r)
  | _ => invalid_value_type "eval_op_neg"
  end.

Definition eval_op_abs (op : Z) : M unit :=
  do '(dst, src) <- dst_src op;
  do k <- get_kind src;
  match k with
  | VALUE_INTEGER =>
      set_kind dst VALUE_INTEGER ;;
      do n <- get_integer src; set_integer dst (C.llabs n)
  | VALUE_REAL =>
      set_kind dst VALUE_REAL ;;
      do r <- get_real src; set_real dst (PrimFloat.abs r)
  | _ => invalid_value_type "eval_op_abs"
  end.

(** *** Identifiers *)

Fixpoint has_char (c : ascii) (s : string) : bool :=
  match s with
  | EmptyString => false
  | String a r => Ascii.eqb a c || has_char c r
  end.

(** The prefix before the first [c]; the whole identifier without one. *)
Fixpoint ident_until (s : string) (c : ascii) : string :=
  match s with
  | EmptyString => EmptyString
  | String a r => if Ascii.eqb a c then EmptyString else String a (ident_until r c)
  end.

(** The prefix before the last [c]; the whole identifier without one. *)
Fixpoint ident_runtil (s : string) (c : ascii) : string :=
  match s with
  | EmptyString => EmptyString
  | String a r =>
      if Ascii.eqb a c && negb (has_char c r) then EmptyString
      else String a (ident_runtil r c)
  end.

Definition ident_prefix (a b : string) (sep : ascii) : string :=
  a ++ String sep b.

(** *** Loading a library unit's vcode *)

Definition vcode_read (file : list vcode_unit_t) : M unit :=
  do w <- get_world;
  put_world
    (set_units (foldl (fun us u => <[unit_name u := u]> us) (units w) file) w).

Definition eval_load_vcode (unit_ : lib_unit) : M unit :=
  if lu_has_code unit_ then ret tt
  else
    let unit_name := tree_ident (lu_tree unit_) in
    do state <- get_state;
    (if has_flag (flags state) EVAL_VERBOSE
     then emit_notef "loading vcode for %s" [A_str unit_name]
     else ret tt) ;;
    match lu_file unit_ with
    | None =>
        EVAL_WARN_ (fcall state) "cannot load vcode for %s" [A_str unit_name]
    | Some f => vcode_read f
    end.

(** *** Nested evaluations *)

(** [eval_vcode(&new)] for a state [new] built on the C stack: the
    caller's state is set aside while the callee runs. *)
Definition run_nested (new : eval_state_t) : M eval_state_t :=
  do state <- get_state;
  put_state new ;;
  eval_vcode ;;
  do new' <- get_state;
  put_state state ;;
  ret new'.

Definition nested_state (c : context_t) (state : eval_state_t) : eval_state_t :=
  STATE c (-1) (fcall state) (Z.lor (flags state) EVAL_BOUNDS) false
    (heap state) (halloc state).

Definition link_parent (up : nat) (p : context_t) (c : context_t)
  : option context_t :=
  update_ancestor up (fun a => CONTEXT (Some p) (regs a) (vars a)) c.

Definition is_thunk (k : vunit_kind_t) : bool :=
  match k with VCODE_UNIT_THUNK => true | _ => false end.
Definition is_context (k : vunit_kind_t) : bool :=
  match k with VCODE_UNIT_CONTEXT => true | _ => false end.

(** The loop of [eval_get_var]: [n] levels remain, [context] is [up]
    parent links above [state->context].  [None] is the [return NULL]. *)
Fixpoint eval_get_var_walk (n up : nat) : M (option nat) :=
  match n with
  | O => ret (Some up)
  | S k =>
      do state <- get_state;
      do ctx <- of_option "no such context" (ancestor up (context state));
      match parent ctx with
      | Some _ => eval_get_var_walk k (S up)
      | None =>
          do uk <- vcode_unit_kind;
          c_assert (negb (is_thunk uk)) "vcode_unit_kind() != VCODE_UNIT_THUNK" ;;
          do vcode_state <- vcode_state_save;
          do uc <- vcode_unit_context;
          vcode_select_unit uc ;;
          do uk' <- vcode_unit_kind;
          c_assert (is_context uk') "vcode_unit_kind() == VCODE_UNIT_CONTEXT" ;;
          vcode_select_block 0 ;;
          do new_ctx <- new_context;
          do state <- get_state;
          do new_state <- run_nested (nested_state new_ctx state);
          vcode_state_restore vcode_state ;;
          do state <- get_state;
          do c <- of_option "no such context"
                    (link_parent up (context new_state) (context state));
          put_state
            (set_context c (set_heap (heap new_state) (halloc new_state) state)) ;;
          if failed new_state then fail_fold ;; ret None
          else eval_get_var_walk k (S up)
      end
  end.

Definition eval_get_var (var : vcode_var_t) : M value_ptr :=
  if vcode_var_extern var then fail_fold ;; ret NULL
  else
    let var_depth := vcode_var_context var in
    do depth <- vcode_unit_depth;
    do r <- eval_get_var_walk (depth - var_depth) 0;
    match r with
    | None => ret NULL
    | Some up => ret (var_slot up (vcode_var_index var))
    end.

(** *** Function calls *)

Fixpoint fcall_params (op : Z) (n : nat) (i : Z) : M (list value_ptr) :=
  match n with
  | O => ret []
  | S k =>
      do a <- vcode_get_arg op i;
      do p <- eval_get_reg a;
      do rest <- fcall_params op k (i + 1);
      ret (p :: rest)
  end.

(** [context->regs[i] = *params[i]] for the callee's fresh context. *)
Fixpoint bind_params (params : list value_ptr) (i : Z) (c : context_t)
  : M context_t :=
  match params with
  | [] => ret c
  | p :: rest =>
      do v <- load p;
      do _ <- of_option "callee has no such register" (index i (regs c));
      bind_params rest (i + 1) (CONTEXT (parent c) (update i v (regs c)) (vars c))
  end.

Definition fcall_from_library (op : Z) (func_name : ident)
  : M (option vcode_unit_t) :=
  do f <- vcode_get_func op;
  let unit_name := ident_runtil f "."%char in
  let lib_name := ident_until unit_name "."%char in
  do w <- get_world;
  if negb (String.eqb lib_name unit_name) then
    match libs w !! lib_name with
    | Some lib =>
        match lib !! unit_name with
        | Some unit_ =>
            eval_load_vcode unit_ ;;
            match tree_kind (lu_tree unit_) with
            | T_PACKAGE =>
                let body_name := ident_prefix unit_name "body" "-"%char in
                match lib !! body_name with
                | Some body => eval_load_vcode body
                | None => ret tt
                end
            | _ => ret tt
            end ;;
            vcode_find_unit func_name
        | None => ret None
        end
    | None => ret None
    end
  else ret None.

Definition eval_op_fcall (op : Z) : M unit :=
  do vcode_state <- vcode_state_save;
  do func_name <- vcode_get_func op;
  do found <- vcode_find_unit func_name;
  do nparams <- vcode_count_args op;
  do params <- fcall_params op (Z.to_nat nparams) 0;
  do vcode <-
    match found with
    | Some u => ret (Some u)
    | None => fcall_from_library op func_name
    end;
  match vcode with
  | None =>
      do state <- get_state;
      EVAL_WARN_ (fcall state)
        "function call to %s prevents constant folding" [A_str func_name] ;;
      fail_fold ;;
      vcode_state_restore vcode_state
  | Some u =>
      vcode_select_unit (Some u) ;;
      vcode_select_block 0 ;;
      do fresh <- new_context;
      do callee <- bind_params params 0 fresh;
      do state <- get_state;
      do new <- run_nested (nested_state callee state);
      vcode_state_restore vcode_state ;;
      do state <- get_state;
      put_state (set_heap (heap new) (halloc new) state) ;;
      if failed new then fail_fold
      else
        c_assert (negb (result new =? -1)) "new.result != -1" ;;
        do r <- vcode_get_result op;
        do dst <- eval_get_reg r;
        do v <- of_option "callee has no such register"
                  (index (result new) (regs (context new)));
        store dst v ;;
        do state <- get_state;
        if has_flag (flags state) EVAL_VERBOSE then
          do name <- vcode_get_func op;
          let nest := tree_ident (fcall state) in
          if kind_eqb (kind v) VALUE_INTEGER then
            do n <- of_option "union read through another member"
                      (as_integer (payload v));
            emit_notef "%s (in %s) returned %li" [A_str name; A_str nest; A_int n]
          else
            do x <- of_option "union read through another member"
                      (as_real (payload v));
            emit_notef "%s (in %s) returned %lf" [A_str name; A_str nest; A_real x]
        else ret tt
  end.

(** *** Bounds *)

Definition eval_op_bounds (op : Z) : M unit :=
  do a <- vcode_get_arg op 0;
  do reg <- eval_get_reg a;
  do bounds <- vcode_get_type op;
  do k <- get_kind reg;
  match k with
  | VALUE_INTEGER =>
      let low := vtype_low bounds in
      let high := vtype_high bounds in
      if high <? low then ret tt
      else
        do n <- get_integer reg;
        if (n <? low) || (high <? n) then
          do state <- get_state;
          (if has_flag (flags state) EVAL_BOUNDS then
             do where_ <- vcode_get_bookmark op;
             let loc := tree_loc where_ in
             do sub <- vcode_get_subkind op;
             match sub with
             | BOUNDS_ARRAY_TO =>
                 emit error_at loc "array index %li outside bounds %li to %li"
                   [A_int n; A_int low; A_int high]
             | BOUNDS_ARRAY_DOWNTO =>
                 emit error_at loc "array index %li outside bounds %li downto %li"
                   [A_int n; A_int high; A_int low]
             | other =>
                 die fatal_trace None "unhandled bounds kind %d in %s"
                   [A_bounds other; A_str "eval_op_bounds"]
             end ;;
             do w <- get_world;
             put_world (incr_errors w) ;;
             emit note_at (tree_loc (fcall state)) "while evaluating call to %s"
               [A_str (tree_ident (fcall state))]
           else ret tt) ;;
          fail_fold
        else ret tt
  | VALUE_REAL => ret tt
  | _ => invalid_value_type "eval_op_bounds"
  end.

Definition eval_op_dynamic_bounds (op : Z) : M unit :=
  do a0 <- vcode_get_arg op 0;
  do reg <- eval_get_reg a0;
  do a1 <- vcode_get_arg op 1;
  do low <- eval_get_reg a1;
  do a2 <- vcode_get_arg op 2;
  do high <- eval_get_reg a2;
  do k <- get_kind reg;
  match k with
  | VALUE_INTEGER =>
      do l <- get_integer low;
      do h <- get_integer high;
      if h <? l then ret tt
      else
        do n <- get_integer reg;
        if (n <? l) || (h <? n) then fail_fold else ret tt
  | VALUE_REAL => ret tt
  | _ => invalid_value_type "eval_op_dynamic_bounds"
  end.

Definition eval_op_index_check (op : Z) : M unit :=
  do a0 <- vcode_get_arg op 0;
  do low <- eval_get_reg a0;
  do a1 <- vcode_get_arg op 1;
  do high <- eval_get_reg a1;
  do nargs <- vcode_count_args op;
  do '(min, max) <-
    (if nargs =? 2 then
       do bounds <- vcode_get_type op;
       ret (vtype_low bounds, vtype_high bounds)
     else
       do a2 <- vcode_get_arg op 2;
       do r2 <- eval_get_reg a2;
       do mn <- get_integer r2;
       do a3 <- vcode_get_arg op 3;
       do r3 <- eval_get_reg a3;
       do mx <- get_integer r3;
       ret (mn, mx));
  do h <- get_integer high;
  do l <- get_integer low;
  if h <? l then ret tt
  else if l <? min then fail_fold
  else if max <? h then fail_fold
  else ret tt.

(** *** Memory *)

Fixpoint const_array_fill (op : Z) (n : nat) (i : Z) (dst : value_ptr) : M unit :=
  match n with
  | O => ret tt
  | S k =>
      do p <- get_pointer dst;
      do cell <- ptr_add p i;
      do a <- vcode_get_arg op i;
      do src <- eval_get_reg a;
      do v <- load src;
      store cell v ;;
      const_array_fill op k (i + 1) dst
  end.

Definition is_null (p : value_ptr) : bool :=
  match p with NULL => true | _ => false end.

Definition eval_op_const_array (op : Z) : M unit :=
  do r <- vcode_get_result op;
  do dst <- eval_get_reg r;
  do nargs <- vcode_count_args op;
  set_kind dst VALUE_POINTER ;;
  do p <- alloc (C.size_t (C.sizeof_value_t * nargs));
  set_pointer dst p ;;
  if is_null p then ret tt
  else const_array_fill op (Z.to_nat nargs) 0 dst.

(** [dim[i]] of a descriptor exists for [0 <= i < MAX_DIMS]. *)
Definition check_dim (i : Z) : M unit :=
  if (0 <=? i) && (i <? MAX_DIMS) then ret tt
  else undefined "dim[] indexed out of bounds".

(** The loop of [eval_op_wrap]; it runs for [i < ndims <= MAX_DIMS]. *)
Fixpoint wrap_dims (op : Z) (n : nat) (i : Z) (dst : value_ptr) : M unit :=
  match n with
  | O => ret tt
  | S k =>
      do u <- get_pointer dst;
      do al <- vcode_get_arg op (i * 3 + 1);
      do rl <- eval_get_reg al;
      do left <- get_integer rl;
      ua_set_int u (fun p => off_left p i) left ;;
      do ar <- vcode_get_arg op (i * 3 + 2);
      do rr <- eval_get_reg ar;
      do right <- get_integer rr;
      ua_set_int u (fun p => off_right p i) right ;;
      do ad <- vcode_get_arg op (i * 3 + 3);
      do rd <- eval_get_reg ad;
      do dir <- get_integer rd;
      ua_set_int u (fun p => off_dir p i) (C.uint dir) ;;
      wrap_dims op k (i + 1) dst
  end.

Definition eval_op_wrap (op : Z) : M unit :=
  do '(dst, src) <- dst_src op;
  do k <- get_kind src;
  c_assert (kind_eqb k VALUE_POINTER) "src->kind == VALUE_POINTER" ;;
  set_kind dst VALUE_UARRAY ;;
  do u <- alloc C.sizeof_uarray_t;
  set_pointer dst u ;;
  if is_null u then ret tt
  else
    do data <- get_pointer src;
    ua_set_data u data ;;
    do nargs <- vcode_count_args op;
    let ndims := Z.quot (nargs - 1) 3 in
    if MAX_DIMS <? ndims then
      fail_fold ;;
      do state <- get_state;
      EVAL_WARN_ (fcall state)
        "%d dimensional array prevents constant folding" [A_int ndims]
    else
      ua_set_int u off_ndims ndims ;;
      wrap_dims op (Z.to_nat ndims) 0 dst.

Definition eval_op_store (op : Z) : M unit :=
  do a <- vcode_get_arg op 0;
  do src <- eval_get_reg a;
  do address <- vcode_get_address op;
  do var <- eval_get_var address;
  if is_null var then ret tt
  else do v <- load src; store var v.

Definition eval_op_load (op : Z) : M unit :=
  do r <- vcode_get_result op;
  do dst <- eval_get_reg r;
  do address <- vcode_get_address op;
  do var <- eval_get_var address;
  if is_null var then ret tt
  else do v <- load var; store dst v.

Definition eval_op_unwrap (op : Z) : M unit :=
  do '(dst, src) <- dst_src op;
  set_kind dst VALUE_POINTER ;;
  do u <- get_pointer src;
  do data <- ua_get_data u;
  set_pointer dst data.

Definition eval_op_uarray_len (op : Z) : M unit :=
  do '(dst, src) <- dst_src op;
  do dim <- vcode_get_dim op;
  check_dim dim ;;
  do u <- get_pointer src;
  do left <- ua_get_int u (fun p => off_left p dim);
  do right <- ua_get_int u (fun p => off_right p dim);
  do dir <- ua_get_int u (fun p => off_dir p dim);
  let len :=
    C.add (if dir =? RANGE_TO then C.sub right left else C.sub left right) 1 in
  set_kind dst VALUE_INTEGER ;;
  set_integer dst (Z.max len 0).

Definition eval_op_uarray_dir (op : Z) : M unit :=
  do '(dst, src) <- dst_src op;
  do dim <- vcode_get_dim op;
  check_dim dim ;;
  do u <- get_pointer src;
  do dir <- ua_get_int u (fun p => off_dir p dim);
  set_kind dst VALUE_INTEGER ;;
  set_integer dst dir.

(** [memcmp]: the loop returns at the first pair that differs. *)
Fixpoint memcmp_loop (n : nat) (i : Z) (dst lhs rhs : value_ptr) : M unit :=
  match n with
  | O => ret tt
  | S k =>
      do pl <- get_pointer lhs;
      do cl <- ptr_add pl i;
      do pr <- get_pointer rhs;
      do cr <- ptr_add pr i;
      do d <- eval_value_cmp cl cr;
      if negb (d =? 0) then set_integer dst 0
      else memcmp_loop k (i + 1) dst lhs rhs
  end.

Definition eval_op_memcmp (op : Z) : M unit :=
  do '(dst, lhs, rhs) <- dst_lhs_rhs op;
  do a <- vcode_get_arg op 2;
  do len <- eval_get_reg a;
  set_kind dst VALUE_INTEGER ;;
  set_integer dst 1 ;;
  do kl <- get_kind lhs;
  c_assert (kind_eqb kl VALUE_POINTER) "lhs->kind == VALUE_POINTER" ;;
  do kr <- get_kind rhs;
  c_assert (kind_eqb kr VALUE_POINTER) "rhs->kind == VALUE_POINTER" ;;
  do n <- get_integer len;
  memcmp_loop (Z.to_nat n) 0 dst lhs rhs.

Definition eval_op_and (op : Z) : M unit :=
  do '(dst, lhs, rhs) <- dst_lhs_rhs op;
  do k <- get_kind lhs;
  match k with
  | VALUE_INTEGER => int_binop dst lhs rhs Z.land
  | _ => invalid_value_type "eval_op_and"
  end.

Definition eval_op_or (op : Z) : M unit :=
  do '(dst, lhs, rhs) <- dst_lhs_rhs op;
  do k <- get_kind lhs;
  match k with
  | VALUE_INTEGER => int_binop dst lhs rhs Z.lor
  | _ => invalid_value_type "eval_op_or"
  end.

(** *** Control flow: the target block is selected and [eval_vcode]
        re-entered on the same state *)

Definition eval_op_jump (op : Z) : M unit :=
  do target <- vcode_get_target op 0;
  vcode_select_block target ;;
  eval_vcode.

Definition eval_op_cond (op : Z) : M unit :=
  do a <- vcode_get_arg op 0;
  do test <- eval_get_reg a;
  do t <- get_integer test;
  do next <- vcode_get_target op (C.lnot t);
  vcode_select_block next ;;
  eval_vcode.

(** The loop of [eval_op_case]: the first choice equal to [test] gives
    the target, the default stands otherwise. *)
Fixpoint case_target (op : Z) (n : nat) (i : Z) (test : value_ptr)
  (target : Z) : M Z :=
  match n with
  | O => ret target
  | S k =>
      do a <- vcode_get_arg op i;
      do cmp <- eval_get_reg a;
      do d <- eval_value_cmp test cmp;
      if d =? 0 then vcode_get_target op i
      else case_target op k (i + 1) test target
  end.

Definition eval_op_case (op : Z) : M unit :=
  do a <- vcode_get_arg op 0;
  do test <- eval_get_reg a;
  do default <- vcode_get_target op 0;
  do num_args <- vcode_count_args op;
  do target <- case_target op (Z.to_nat (num_args - 1)) 1 test default;
  vcode_select_block target ;;
  eval_vcode.

Definition eval_op_undefined (op : Z) : M unit :=
  do state <- get_state;
  EVAL_WARN_ (fcall state)
    "reference to object without defined value in this phase prevents constant folding"
    [] ;;
  fail_fold.

Definition eval_op_nested_fcall (op : Z) : M unit := fail_fold.

Definition eval_op_index (op : Z) : M unit :=
  do address <- vcode_get_address op;
  do value <- eval_get_var address;
  if is_null value then ret tt
  else
    do k <- get_kind value;
    c_assert (kind_eqb k VALUE_CARRAY) "value->kind == VALUE_CARRAY" ;;
    do r <- vcode_get_result op;
    do dst <- eval_get_reg r;
    set_kind dst VALUE_POINTER ;;
    do p <- get_pointer value;
    set_pointer dst p.

Definition eval_op_load_indirect (op : Z) : M unit :=
  do '(dst, src) <- dst_src op;
  do k <- get_kind src;
  c_assert (kind_eqb k VALUE_POINTER) "src->kind == VALUE_POINTER" ;;
  do p <- get_pointer src;
  do v <- load p;
  store dst v.

Definition eval_op_store_indirect (op : Z) : M unit :=
  do a1 <- vcode_get_arg op 1;
  do dst <- eval_get_reg a1;
  do a0 <- vcode_get_arg op 0;
  do src <- eval_get_reg a0;
  do k <- get_kind dst;
  c_assert (kind_eqb k VALUE_POINTER) "dst->kind == VALUE_POINTER" ;;
  do p <- get_pointer dst;
  do v <- load src;
  store p v.

Fixpoint copy_loop (n : nat) (i : Z) (dst src : value_ptr) : M unit :=
  match n with
  | O => ret tt
  | S k =>
      do pd <- get_pointer dst;
      do cd <- ptr_add pd i;
      do ps <- get_pointer src;
      do cs <- ptr_add ps i;
      do v <- load cs;
      store cd v ;;
      copy_loop k (i + 1) dst src
  end.

(** The three [assert]s of [eval_op_copy] are written with [=]: each
    stores the tag and passes. *)
Definition eval_op_copy (op : Z) : M unit :=
  do a0 <- vcode_get_arg op 0;
  do dst <- eval_get_reg a0;
  do a1 <- vcode_get_arg op 1;
  do src <- eval_get_reg a1;
  do a2 <- vcode_get_arg op 2;
  do count <- eval_get_reg a2;
  set_kind dst VALUE_POINTER ;;
  set_kind src VALUE_POINTER ;;
  set_kind count VALUE_INTEGER ;;
  do n <- get_integer count;
  copy_loop (Z.to_nat n) 0 dst src.

Definition eval_op_select (op : Z) : M unit :=
  do a0 <- vcode_get_arg op 0;
  do test <- eval_get_reg a0;
  do a1 <- vcode_get_arg op 1;
  do left <- eval_get_reg a1;
  do a2 <- vcode_get_arg op 2;
  do right <- eval_get_reg a2;
  do r <- vcode_get_result op;
  do result_ <- eval_get_reg r;
  do k <- get_kind test;
  c_assert (kind_eqb k VALUE_INTEGER) "test->kind == VALUE_INTEGER" ;;
  do t <- get_integer test;
  do v <- (if negb (t =? 0) then load left else load right);
  store result_ v.

Definition eval_op_alloca (op : Z) : M unit :=
  do r <- vcode_get_result op;
  do result_ <- eval_get_reg r;
  do nargs <- vcode_count_args op;
  do length <-
    (if 0 <? nargs then
       do a <- vcode_get_arg op 0;
       do length_reg <- eval_get_reg a;
       do k <- get_kind length_reg;
       c_assert (kind_eqb k VALUE_INTEGER) "length_reg->kind == VALUE_INTEGER" ;;
       do n <- get_integer length_reg;
       ret (C.int n)
     else ret 1);
  set_kind result_ VALUE_POINTER ;;
  do p <- alloc (C.size_t (C.sizeof_value_t * length));
  set_pointer result_ p.

Definition eval_op_uarray_left (op : Z) : M unit :=
  do a <- vcode_get_arg op 0;
  do array <- eval_get_reg a;
  do r <- vcode_get_result op;
  do dst <- eval_get_reg r;
  do k <- get_kind array;
  c_assert (kind_eqb k VALUE_UARRAY) "array->kind == VALUE_UARRAY" ;;
  set_kind dst VALUE_INTEGER ;;
  do u <- get_pointer array;
  do dim <- vcode_get_dim op;
  check_dim dim ;;
  do left <- ua_get_int u (fun p => off_left p dim);
  set_integer dst left.

Definition eval_op_uarray_right (op : Z) : M unit :=
  do a <- vcode_get_arg op 0;
  do array <- eval_get_reg a;
  do r <- vcode_get_result op;
  do dst <- eval_get_reg r;
  do k <- get_kind array;
  c_assert (kind_eqb k VALUE_UARRAY) "array->kind == VALUE_UARRAY" ;;
  set_kind dst VALUE_INTEGER ;;
  do u <- get_pointer array;
  do dim <- vcode_get_dim op;
  check_dim dim ;;
  do right <- ua_get_int u (fun p => off_right p dim);
  set_integer dst right.

(** *** Reports and assertions *)

Definition eval_op_report (op : Z) : M unit :=
  do a1 <- vcode_get_arg op 1;
  do text <- eval_get_reg a1;
  do a2 <- vcode_get_arg op 2;
  do length <- eval_get_reg a2;
  do a0 <- vcode_get_arg op 0;
  do severity <- eval_get_reg a0;
  do state <- get_state;
  if has_flag (flags state) EVAL_REPORT then
    do where_ <- vcode_get_bookmark op;
    eval_message text length severity (tree_loc where_) "Report"
  else fail_fold.

Definition eval_op_assert (op : Z) : M unit :=
  do a0 <- vcode_get_arg op 0;
  do test <- eval_get_reg a0;
  do a2 <- vcode_get_arg op 2;
  do text <- eval_get_reg a2;
  do a3 <- vcode_get_arg op 3;
  do length <- eval_get_reg a3;
  do a1 <- vcode_get_arg op 1;
  do severity <- eval_get_reg a1;
  do t <- get_integer test;
  if t =? 0 then
    do state <- get_state;
    (if has_flag (flags state) EVAL_REPORT then
       do where_ <- vcode_get_bookmark op;
       eval_message text length severity (tree_loc where_) "Assertion"
     else ret tt) ;;
    do sev <- get_integer severity;
    do state <- get_state;
    put_state (set_failed (SEVERITY_ERROR <=? sev) state)
  else ret tt.

(** *** Image *)

Definition DBL_DIG : Z := 15.

(** [printf("%li", n)] *)
Definition format_int (n : Z) : string :=
  DecimalString.NilZero.string_of_int (Z.to_int n).

Definition string_codes (s : string) : list Z :=
  map (fun a => Z.of_N (Ascii.N_of_ascii a)) (String.list_ascii_of_string s).

(** [buf[i]] after [snprintf(buf, 32, ...)] of a text of [len]
    characters: at most 31 of them, then a NUL; nothing is known of the
    bytes after the NUL and there is no byte after [buf[31]]. *)
Definition buf_char (text : string) (i : Z) : M Z :=
  let codes := string_codes text in
  let stored := Z.min (Z.of_nat (length codes)) 31 in
  if i <? stored then
    do c <- of_option "no such character" (index i codes); ret (C.char c)
  else if i =? stored then ret 0
  else undefined "buf[] read past the terminator".

Fixpoint image_fill (text : string) (n : nat) (i : Z) (dst : value_ptr) : M unit :=
  match n with
  | O => ret tt
  | S k =>
      do u <- get_pointer dst;
      do data <- ua_get_data u;
      do ch <- ptr_add data i;
      set_kind ch VALUE_INTEGER ;;
      do c <- buf_char text i;
      set_integer ch c ;;
      image_fill text k (i + 1) dst
  end.

Definition eval_op_image (op : Z) : M unit :=
  do a <- vcode_get_arg op 0;
  do object <- eval_get_reg a;
  do where_ <- vcode_get_bookmark op;
  let type := type_base_recur X (tree_type where_) in
  do text <-
    match type_kind type with
    | T_INTEGER =>
        do n <- get_integer object; ret (Some (format_int n))
    | T_ENUM =>
        do n <- get_integer object;
        do lit <- of_option "no such enumeration literal"
                    (index n (type_enum_literals type));
        ret (Some lit)
    | T_REAL =>
        do x <- get_real object; ret (Some (format_g X (DBL_DIG + 3) x))
    | T_PHYSICAL =>
        do unit_ <- of_option "no such unit" (index 0 (type_units type));
        do n <- get_integer object;
        ret (Some (format_int n ++ " " ++ unit_))
    | _ => ret None
    end;
  match text with
  | None =>
      emit error_at (tree_loc where_) "cannot use 'IMAGE with this type" [] ;;
      fail_fold
  | Some text =>
      let len := Z.of_nat (String.length text) in
      do r <- vcode_get_result op;
      do dst <- eval_get_reg r;
      do u <- alloc C.sizeof_uarray_t;
      set_pointer dst u ;;
      if is_null u then ret tt
      else
        do data <- alloc (C.size_t (C.sizeof_value_t * len));
        ua_set_data u data ;;
        if is_null data then ret tt
        else
          ua_set_int u off_ndims 1 ;;
          ua_set_int u (fun p => off_left p 0) 1 ;;
          ua_set_int u (fun p => off_right p 0) len ;;
          ua_set_int u (fun p => off_dir p 0) RANGE_TO ;;
          image_fill text (Z.to_nat len) 0 dst
  end.

(** *** Dispatch *)

(** One op of the current block.  [true] means the handler's case ends
    with [return]; [false] means it ends with [break]. *)
Definition eval_dispatch (i : Z) : M bool :=
  do k <- vcode_get_op i;
  match k with
  | VCODE_OP_COMMENT => ret false
  | VCODE_OP_CONST => eval_op_const i ;; ret false
  | VCODE_OP_CONST_REAL => eval_op_const_real i ;; ret false
  | VCODE_OP_RETURN => eval_op_return i ;; ret true
  | VCODE_OP_NOT => eval_op_not i ;; ret false
  | VCODE_OP_ADD => eval_op_add i ;; ret false
  | VCODE_OP_SUB => eval_op_sub i ;; ret false
  | VCODE_OP_MUL => eval_op_mul i ;; ret false
  | VCODE_OP_DIV => eval_op_div i ;; ret false
  | VCODE_OP_CMP => eval_op_cmp i ;; ret false
  | VCODE_OP_CAST => eval_op_cast i ;; ret false
  | VCODE_OP_NEG => eval_op_neg i ;; ret false
  | VCODE_OP_FCALL =>
      do state <- get_state;
      (if has_flag (flags state) EVAL_FCALL then eval_op_fcall i
       else fail_fold) ;;
      ret false
  | VCODE_OP_BOUNDS => eval_op_bounds i ;; ret false
  | VCODE_OP_CONST_ARRAY => eval_op_const_array i ;; ret false
  | VCODE_OP_WRAP => eval_op_wrap i ;; ret false
  | VCODE_OP_STORE => eval_op_store i ;; ret false
  | VCODE_OP_UNWRAP => eval_op_unwrap i ;; ret false
  | VCODE_OP_UARRAY_LEN => eval_op_uarray_len i ;; ret false
  | VCODE_OP_MEMCMP => eval_op_memcmp i ;; ret false
  | VCODE_OP_AND => eval_op_and i ;; ret false
  | VCODE_OP_OR => eval_op_or i ;; ret false
  | VCODE_OP_COND => eval_op_cond i ;; ret true
  | VCODE_OP_JUMP => eval_op_jump i ;; ret true
  | VCODE_OP_LOAD => eval_op_load i ;; ret false
  | VCODE_OP_UNDEFINED => eval_op_undefined i ;; ret false
  | VCODE_OP_NESTED_FCALL => eval_op_nested_fcall i ;; ret false
  | VCODE_OP_CASE => eval_op_case i ;; ret true
  | VCODE_OP_MOD => eval_op_mod i ;; ret false
  | VCODE_OP_REM => eval_op_rem i ;; ret false
  | VCODE_OP_DYNAMIC_BOUNDS => eval_op_dynamic_bounds i ;; ret false
  | VCODE_OP_INDEX => eval_op_index i ;; ret false
  | VCODE_OP_COPY => eval_op_copy i ;; ret false
  | VCODE_OP_LOAD_INDIRECT => eval_op_load_indirect i ;; ret false
  | VCODE_OP_STORE_INDIRECT => eval_op_store_indirect i ;; ret false
  | VCODE_OP_REPORT => eval_op_report i ;; ret false
  | VCODE_OP_ASSERT => eval_op_assert i ;; ret false
  | VCODE_OP_SELECT => eval_op_select i ;; ret false
  | VCODE_OP_ALLOCA => eval_op_alloca i ;; ret false
  | VCODE_OP_INDEX_CHECK => eval_op_index_check i ;; ret false
  | VCODE_OP_ABS => eval_op_abs i ;; ret false
  | VCODE_OP_IMAGE => eval_op_image i ;; ret false
  | VCODE_OP_HEAP_SAVE | VCODE_OP_HEAP_RESTORE => ret false
  | VCODE_OP_UARRAY_LEFT => eval_op_uarray_left i ;; ret false
  | VCODE_OP_UARRAY_RIGHT => eval_op_uarray_right i ;; ret false
  | VCODE_OP_UARRAY_DIR => eval_op_uarray_dir i ;; ret false
  | VCODE_OP_EXP => eval_op_exp i ;; ret false
  | VCODE_OP_OTHER _ =>
      vcode_dump ;;
      do k' <- vcode_get_op i;
      die fatal None "cannot evaluate vcode op %s" [A_str (vcode_op_string k')]
  end.

(** The [for] loop of [eval_vcode]: [n] bounds the iterations left,
    [i] is the index and [nops] the count read on entry. *)
Fixpoint eval_vcode_loop (n : nat) (i nops : Z) : M unit :=
  match n with
  | O => ret tt
  | S k =>
      do state <- get_state;
      if (i <? nops) && negb (failed state) then
        do returned <- eval_dispatch i;
        if returned then ret tt else eval_vcode_loop k (i + 1) nops
      else ret tt
  end.

Definition eval_vcode_body : M unit :=
  do nops <- vcode_count_ops;
  eval_vcode_loop (Z.to_nat nops) 0 nops.

End Handlers.

(** [eval_vcode]: the recursion through the control-flow handlers, the
    calls and the parent contexts is bounded by [fuel], the depth of C
    stack frames of [eval_vcode] available. *)
Fixpoint eval_vcode (X : collaborators) (fuel : nat) : M unit :=
  match fuel with
  | O => fun m => OutOfFuel m
  | S n => eval_vcode_body X (eval_vcode X n)
  end.

(** ** The pre-flight check [eval_possible] *)

Definition is_fcall (t : tree_t) : bool :=
  match tree_kind t with T_FCALL => true | _ => false end.

(** A tree accessor applied to a node without the item is fatal in
    [tree.c]. *)
Definition missing_item {A} (item : string) : ST world A :=
  die fatal_trace None "tree does not have item %s" [A_str item].

Fixpoint eval_possible (X : collaborators) (t : tree_t) (flags : eval_flags_t)
  {struct t} : ST world bool :=
  match tree_kind t with
  | T_FCALL =>
      match tree_ref t with
      | None => missing_item "ref"
      | Some decl =>
          if has_flag (tree_flags decl) TREE_F_IMPURE then ret false
          else
            (fix params (ps : list tree_t) : ST world bool :=
               match ps with
               | [] => ret true
               | param :: rest =>
                   match tree_value param with
                   | None => missing_item "value"
                   | Some p =>
                       let fcall := is_fcall p in
                       if has_flag flags EVAL_FOLDING && fcall
                          && type_is_scalar X (tree_type p)
                       then ret false
                       else if fcall && negb (has_flag flags EVAL_FCALL)
                       then ret false
                       else
                         do ok <- eval_possible X p flags;
                         if negb ok then ret false else params rest
                   end
               end) (tree_params t)
      end
  | T_LITERAL => ret true
  | T_TYPE_CONV =>
      match tree_params t with
      | [] => missing_item "param"
      | param :: _ =>
          match tree_value param with
          | None => missing_item "value"
          | Some p => eval_possible X p flags
          end
      end
  | T_REF =>
      match tree_ref t with
      | None => missing_item "ref"
      | Some decl =>
          match tree_kind decl with
          | T_UNIT_DECL | T_ENUM_LIT => ret true
          | T_CONST_DECL =>
              match tree_value decl with
              | None => missing_item "value"
              | Some v => eval_possible X v flags
              end
          | _ => ret false
          end
      end
  | _ =>
      fun w =>
        Done false
          (if has_flag flags EVAL_WARN
           then add_event (diag_event warn_at (tree_loc t)
                             "expression prevents constant folding" []) w
           else w)
  end.

(** ** The public entry [eval] *)

Definition root_state (c : context_t) (fcall : tree_t) (flags : eval_flags_t)
  : eval_state_t :=
  STATE c (-1) fcall flags false false 0.

(** The part of [eval] after [eval_vcode] returned, on the final state. *)
Definition eval_finish (X : collaborators) (fcall : tree_t)
  (flags : eval_flags_t) (state : eval_state_t) : ST world tree_t :=
  fun w =>
    let w := set_mem ∅ w in                            (* [free(state.heap)] *)
    if failed state then Done fcall w
    else if result state =? -1 then
      Fatal (DIAG assert_fail None "state.result != -1" []) w
    else
      match index (result state) (regs (context state)) with
      | None => Undefined "no such register"
      | Some result_ =>
          let type := tree_type fcall in
          let name := tree_ident fcall in
          let noted : option world :=
            if has_flag flags EVAL_VERBOSE then
              if kind_eqb (kind result_) VALUE_INTEGER then
                match as_integer (payload result_) with
                | Some n => Some (add_event (diag_event note_at (tree_loc fcall)
                                    "%s returned %li" [A_str name; A_int n]) w)
                | None => None
                end
              else
                match as_real (payload result_) with
                | Some x => Some (add_event (diag_event note_at (tree_loc fcall)
                                    "%s returned %lf" [A_str name; A_real x]) w)
                | None => None
                end
            else Some w in
          match noted with
          | None => Undefined "union read through another member"
          | Some w =>
              match kind result_ with
              | VALUE_INTEGER =>
                  match as_integer (payload result_) with
                  | Some n =>
                      if type_is_enum X type then Done (get_enum_lit X fcall n) w
                      else Done (get_int_lit X fcall n) w
                  | None => Undefined "union read through another member"
                  end
              | VALUE_REAL =>
                  match as_real (payload result_) with
                  | Some x => Done (get_real_lit X fcall x) w
                  | None => Undefined "union read through another member"
                  end
              | _ => Fatal (DIAG fatal_trace None "eval result is not scalar" []) w
              end
          end
      end.

Definition eval (X : collaborators) (fuel : nat) (fcall : tree_t)
  (flags : eval_flags_t) : ST world tree_t :=
  c_assert (is_fcall fcall) "tree_kind(fcall) == T_FCALL" ;;
  let type := tree_type fcall in
  if negb (type_is_scalar X type) then ret fcall
  else
    do possible <- eval_possible X fcall flags;
    if negb possible then ret fcall
    else
      fun w =>
        let flags := if env_verbose w then Z.lor flags EVAL_VERBOSE else flags in
        let flags :=
          if has_flag flags EVAL_VERBOSE
          then Z.lor flags (Z.lor EVAL_WARN EVAL_BOUNDS) else flags in
        let w := add_event (Lower_thunk fcall) w in
        match lower_thunk X fcall with
        | None => Done fcall w
        | Some thunk =>
            let w :=
              if has_flag flags EVAL_VERBOSE
              then add_event (diag_event note_at (tree_loc fcall)
                                "evaluate thunk for %s" [A_str (tree_ident fcall)]) w
              else w in
            let w := select_block 0 (select_unit (Some thunk) w) in
            match eval_new_context (None, w) with
            | Done c (_, w) =>
                match eval_vcode X fuel (MACHINE (root_state c fcall flags) w) with
                | Done _ m => eval_finish X fcall flags (st m) (wd m)
                | Fatal d m => Fatal d (wd m)
                | Undefined why => Undefined why
                | OutOfFuel m => OutOfFuel (wd m)
                end
            | Fatal d (_, w) => Fatal d w
            | Undefined why => Undefined why
            | OutOfFuel (_, w) => OutOfFuel w
            end
        end.

(** ** Views of the machine used in the statements *)

(** Register [r] of the current context. *)
Definition reg (m : machine) (r : Z) : option value_t :=
  index r (regs (context (st m))).

(** The machine after [regs[r] = v]. *)
Definition write_reg (r : Z) (v : value_t) (m : machine) : machine :=
  MACHINE
    (set_context
       (CONTEXT (parent (context (st m))) (update r v (regs (context (st m))))
          (vars (context (st m))))
       (st m))
    (wd m).

(** The field stored at byte [off] of the arena. *)
Definition cell (m : machine) (off : Z) : option field := mem (wd m) !! off.

(** The machine after the arena field at [off] is set to [f]. *)
Definition write_cell (off : Z) (f : field) (m : machine) : machine :=
  MACHINE (st m) (set_mem (<[off := f]> (mem (wd m))) (wd m)).

(** The machine after [state->failed = b]. *)
Definition mark_failed (b : bool) (m : machine) : machine :=
  MACHINE (set_failed b (st m)) (wd m).

(** The machine after an event is written. *)
Definition logged (e : event) (m : machine) : machine :=
  MACHINE (st m) (add_event e (wd m)).

(** [*p] is the value [v]. *)
Definition holds (m : machine) (p : value_ptr) (v : value_t) : Prop :=
  get_kind p m = Done (kind v) m /\ get_payload p m = Done (payload v) m.

(** The reporting function of a severity: note, warning, and
    [error_at] for both error and failure. *)
Definition channel_of_severity (sev : Z) : channel :=
  if sev =? SEVERITY_NOTE then note_at
  else if sev =? SEVERITY_WARNING then warn_at
  else error_at.

Definition level_of_severity (sev : Z) : string :=
  default "" (index sev levels).

(** The message of a failed assertion at [loc]: the text when its
    length is positive, the default text otherwise. *)
Definition assertion_message (loc : loc_t) (sev len : Z) (cs : list Z) : event :=
  Emit (DIAG (channel_of_severity sev) (Some loc) "%s %s: %s"
          [A_str "Assertion"; A_str (level_of_severity sev);
           A_str (if 0 <? len then c_string cs else "Assertion violation")]).

(** The destination type kinds [eval_op_cast] has cases for. *)
Definition integer_destination (k : vtype_kind_t) : bool :=
  match k with VCODE_TYPE_INT | VCODE_TYPE_OFFSET => true | _ => false end.
Definition real_destination (k : vtype_kind_t) : bool :=
  match k with VCODE_TYPE_REAL => true | _ => false end.

(** The source kinds [eval_op_cast] converts. *)
Definition numeric_kind (k : value_kind_t) : bool :=
  match k with VALUE_INTEGER | VALUE_REAL => true | _ => false end.

Definition cannot_cast : diag :=
  DIAG fatal None "cannot handle destination type in cast" [].

(** The machine after a successful [eval_alloc] of [n] bytes that do
    not wrap the high-water mark, and after one that fails. *)
Definition allocated (n : Z) (m : machine) : machine :=
  MACHINE (set_heap true (halloc (st m) + n) (st m)) (wd m).

Definition exhaustion_warning (m : machine) (n : Z) : event :=
  diag_event warn_at (tree_loc (fcall (st m)))
    "evaluation heap exhaustion prevents constant folding (%zu allocated, %zu requested)"
    [A_int (halloc (st m)); A_int n].

Definition refused (n : Z) (m : machine) : machine :=
  MACHINE (set_failed true (st m))
    (if has_flag (flags (st m)) EVAL_WARN
     then add_event (exhaustion_warning m n) (wd m) else wd m).

(** The integer read through the register that argument [j] of [o]
    names. *)
Definition arg_integer (m : machine) (o : op_t) (j : Z) : option Z :=
  match index j (op_args o) with
  | Some r =>
      match reg m r with
      | Some v => as_integer (payload v)
      | None => None
      end
  | None => None
  end.

(** The arguments of [o] from [3 i + 1] on are registers holding the
    triples [dims] of (left, right, direction). *)
Fixpoint triples_at (m : machine) (o : op_t) (i : Z) (dims : list (Z * Z * Z))
  : Prop :=
  match dims with
  | [] => True
  | (l, r, d) :: rest =>
      arg_integer m o (i * 3 + 1) = Some l
      /\ arg_integer m o (i * 3 + 2) = Some r
      /\ arg_integer m o (i * 3 + 3) = Some d
      /\ triples_at m o (i + 1) rest
  end.

(** The fields of the descriptor at [h] for the dimensions [dims], in
    the order [eval_op_wrap] stores them. *)
Fixpoint dim_fields (h i : Z) (dims : list (Z * Z * Z)) : list (Z * field) :=
  match dims with
  | [] => []
  | (l, r, d) :: rest =>
      (off_left h i, F_scalar (S_integer l))
      :: (off_right h i, F_scalar (S_integer r))
      :: (off_dir h i, F_scalar (S_integer (C.uint d)))
      :: dim_fields h (i + 1) rest
  end.

Definition descriptor_fields (h : Z) (data : value_ptr)
  (dims : list (Z * Z * Z)) : list (Z * field) :=
  (off_data h, F_scalar (S_pointer data))
  :: (off_ndims h, F_scalar (S_integer (Z.of_nat (length dims))))
  :: dim_fields h 0 dims.

Definition store_fields (fs : list (Z * field)) (h : gmap Z field)
  : gmap Z field :=
  foldl (fun h kf => <[fst kf := snd kf]> h) h fs.

Definition dims_warning (m : machine) (ndims : Z) : event :=
  diag_event warn_at (tree_loc (fcall (st m)))
    "%d dimensional array prevents constant folding" [A_int ndims].

(** The machine after the event [e] if the warn flag is set. *)
Definition warned (e : event) (m : machine) : machine :=
  if has_flag (flags (st m)) EVAL_WARN then logged e m else m.

(** [eval_op_wrap] up to the test of [ndims], when the arena has room:
    the result register is tagged and points at the fresh descriptor,
    whose [data] is the source pointer. *)
Definition wrap_prologue (r : Z) (data : value_ptr) (m : machine) : machine :=
  write_cell (off_data (halloc (st m))) (F_scalar (S_pointer data))
    (write_reg r (VALUE VALUE_UARRAY (S_pointer (arena (halloc (st m)))))
       (allocated C.sizeof_uarray_t m)).

(** The size_t sum [state->halloc + nbytes] that [eval_alloc] tests and
    stores, and the machine after a successful request. *)
Definition requested (n : Z) (m : machine) : Z := C.size_t (halloc (st m) + n).

Definition advanced (n : Z) (m : machine) : machine :=
  MACHINE (set_heap true (requested n m) (st m)) (wd m).

(** The high-water mark is within the arena. *)
Definition heap_bounded (s : eval_state_t) : Prop := 0 <= halloc s <= EVAL_HEAP.

Definition bounded (m : machine) : Prop := heap_bounded (st m).

(** The same for the optional state [eval_new_context] runs over. *)
Definition state_bounded (sw : option eval_state_t * world) : Prop :=
  match fst sw with Some s => heap_bounded s | None => False end.

(** The state an outcome carries is bounded; an undefined step carries
    none. *)
Definition ends_bounded {A} (o : outcome machine A) : Prop :=
  match o with
  | Done _ m | Fatal _ m | OutOfFuel m => bounded m
  | Undefined _ => True
  end.

(** [preserves Inv post c]: from a machine satisfying [Inv], [c] ends in
    a machine satisfying [Inv], with a result satisfying [post] when it
    returns. *)
Definition preserves (Inv : machine -> Prop) {A} (post : A -> Prop) (c : M A)
  : Prop :=
  forall m, Inv m ->
    match c m with
    | Done a m' => Inv m' /\ post a
    | Fatal _ m' => Inv m'
    | OutOfFuel m' => Inv m'
    | Undefined _ => True
    end.

Notation "'keeps'" := (preserves bounded).

Definition any {A} : A -> Prop := fun _ => True.

(** The tags of the registers of the current context, and the tag of
    register [r]. *)
Definition tags_of (s : eval_state_t) : list value_kind_t :=
  map kind (regs (context s)).

Definition reg_tag (m : machine) (r : Z) : option value_kind_t :=
  option_map kind (reg m r).

(** The registers of [m] have the tags they have in [m0]. *)
Definition same_tags (m0 m : machine) : Prop := tags_of (st m) = tags_of (st m0).

(** A pointer that is null or into the arena, not into a context. *)
Definition non_slot (p : value_ptr) : Prop :=
  match p with NULL | arena _ => True | _ => False end.

(** The machine after [n] more selections of the block that is already
    selected. *)
Definition reselected (n : nat) (m : machine) : machine :=
  MACHINE (st m)
    (set_selection (selection (wd m)) (selects (wd m) + n) (wd m)).

(** The diagnostic of the [default] case of [eval_vcode]. *)
Definition cannot_evaluate (name : string) : diag :=
  DIAG fatal None "cannot evaluate vcode op %s" [A_str name].

Definition Integer (z : Z) : value_t := VALUE VALUE_INTEGER (S_integer z).
Definition Real_ (x : Real.double) : value_t := VALUE VALUE_REAL (S_real x).
Definition Pointer (p : value_ptr) : value_t := VALUE VALUE_POINTER (S_pointer p).

(** ** Further views

    Functions of eval.c outside the interpreter loop, and the states
    and events that the properties of the second part speak of. *)

(** What a comparison of kind [c] says of two integers. *)
Definition compares (c : vcode_cmp_t) (a b : Z) : option bool :=
  match c with
  | VCODE_CMP_EQ => Some (a =? b)
  | VCODE_CMP_NEQ => Some (negb (a =? b))
  | VCODE_CMP_LT => Some (a <? b)
  | VCODE_CMP_LEQ => Some (a <=? b)
  | VCODE_CMP_GT => Some (b <? a)
  | VCODE_CMP_GEQ => Some (b <=? a)
  | VCODE_CMP_OTHER _ => None
  end.

Definition division_by_zero_at (m : machine) : diag :=
  DIAG fatal_at (Some (tree_loc (fcall (st m)))) "division by zero" [].

(** [eval_errors]: the number of errors reported so far. *)
Definition eval_errors : ST world Z := fun w => Done (errors w) w.

(** A value is within the bounds [low .. high]; a null range admits
    every value. *)
Definition within_bounds (low high n : Z) : bool :=
  (high <? low) || ((low <=? n) && (n <=? high)).

(** The error of a bounds op for the value [n]. *)
Definition bounds_error (o : op_t) (n : Z) : option event :=
  let low := vtype_low (op_type o) in
  let high := vtype_high (op_type o) in
  let loc := tree_loc (op_bookmark o) in
  match op_subkind o with
  | BOUNDS_ARRAY_TO =>
      Some (diag_event error_at loc "array index %li outside bounds %li to %li"
              [A_int n; A_int low; A_int high])
  | BOUNDS_ARRAY_DOWNTO =>
      Some (diag_event error_at loc
              "array index %li outside bounds %li downto %li"
              [A_int n; A_int high; A_int low])
  | BOUNDS_OTHER _ => None
  end.

Definition while_evaluating (m : machine) : event :=
  diag_event note_at (tree_loc (fcall (st m))) "while evaluating call to %s"
    [A_str (tree_ident (fcall (st m)))].

(** The machine after a bounds violation is reported: the error, one
    more in the error count, and the note that names the call. *)
Definition bounds_reported (e : event) (m : machine) : machine :=
  logged (while_evaluating m)
    (MACHINE (st m) (incr_errors (add_event e (wd m)))).

(** The message of a report at [loc]. *)
Definition report_message (loc : loc_t) (sev len : Z) (cs : list Z) : event :=
  Emit (DIAG (channel_of_severity sev) (Some loc) "%s %s: %s"
          [A_str "Report"; A_str (level_of_severity sev);
           A_str (if 0 <? len then c_string cs else "Assertion violation")]).

Definition undefined_warning (m : machine) : event :=
  diag_event warn_at (tree_loc (fcall (st m)))
    "reference to object without defined value in this phase prevents constant folding"
    [].

(** The limits an index check tests against: the bounds of the op's
    type when it has two arguments, the Integers in its third and fourth
    argument registers otherwise. *)
Definition index_limits (m : machine) (o : op_t) : option (Z * Z) :=
  if Z.of_nat (length (op_args o)) =? 2
  then Some (vtype_low (op_type o), vtype_high (op_type o))
  else
    match arg_integer m o 2, arg_integer m o 3 with
    | Some mn, Some mx => Some (mn, mx)
    | _, _ => None
    end.

(** The machine after [*p = v] for the arena cell at [p]. *)
Definition write_value (p : Z) (v : value_t) (m : machine) : machine :=
  write_cell (off_payload p) (F_scalar (payload v))
    (write_cell p (F_kind (kind v)) m).

(** Variable [i] of the current context, and the machine after
    [vars[i] = v]. *)
Definition var (m : machine) (i : Z) : option value_t :=
  index i (vars (context (st m))).

Definition write_var (i : Z) (v : value_t) (m : machine) : machine :=
  MACHINE
    (set_context
       (CONTEXT (parent (context (st m))) (regs (context (st m)))
          (update i v (vars (context (st m)))))
       (st m))
    (wd m).

(** The initial value [eval_new_context] gives a variable without
    asking for memory; there is none for a constrained array. *)
Definition initial_value (v : vcode_var_t) : option value_t :=
  match vtype_kind (vcode_var_type v) with
  | VCODE_TYPE_INT => Some (VALUE VALUE_INTEGER (S_integer 0))
  | VCODE_TYPE_REAL => Some (VALUE VALUE_REAL (S_real Real.zero))
  | VCODE_TYPE_UARRAY => Some (VALUE VALUE_UARRAY (S_pointer NULL))
  | _ => None
  end.

(** The arena cells from index [i] of the buffer at [p] hold the
    Integers [xs]. *)
Fixpoint integers_at (m : machine) (p i : Z) (xs : list Z) : Prop :=
  match xs with
  | [] => True
  | x :: rest =>
      holds m (arena (p + C.sizeof_value_t * i)) (Integer x)
      /\ integers_at m p (i + 1) rest
  end.

(** Two buffers of Integers compare equal cell by cell, as
    [eval_value_cmp] sees it, up to the shorter one. *)
Fixpoint same_integers (xs ys : list Z) : bool :=
  match xs, ys with
  | x :: xs', y :: ys' => (C.int (C.sub x y) =? 0) && same_integers xs' ys'
  | _, _ => true
  end.

(** The number of elements of the range [left .. right] in direction
    [dir]. *)
Definition range_length (left right dir : Z) : Z :=
  Z.max 0 (if dir =? RANGE_TO then right - left + 1 else left - right + 1).

(** Dimension [dim] of the descriptor at [u] holds the given bounds. *)
Definition dimension_at (m : machine) (u dim left right dir : Z) : Prop :=
  cell m (off_left u dim) = Some (F_scalar (S_integer left))
  /\ cell m (off_right u dim) = Some (F_scalar (S_integer right))
  /\ cell m (off_dir u dim) = Some (F_scalar (S_integer dir)).

(** The warning of [eval_possible]. *)
Definition prevents_folding (loc : loc_t) : event :=
  diag_event warn_at loc "expression prevents constant folding" [].

(** What [eval_possible] may do to the world when it answers [b]:
    nothing, or one warning when the answer is no and the warn flag is
    set. *)
Definition at_most_one_warning (fl : eval_flags_t) (w : world) (b : bool)
  (w' : world) : Prop :=
  w' = w
  \/ (b = false /\ has_flag fl EVAL_WARN = true
      /\ exists loc, w' = add_event (prevents_folding loc) w).

Definition checks_quietly (X : collaborators) (t : tree_t) : Prop :=
  forall fl w,
    match eval_possible X t fl w with
    | Done b w' => at_most_one_warning fl w b w'
    | Fatal _ w' => w' = w
    | _ => False
    end.

(** A node is a literal that [eval] builds from the call [fcall]. *)
Definition literal_of (X : collaborators) (fcall t : tree_t) : Prop :=
  (exists n, type_is_enum X (tree_type fcall) = true
             /\ t = get_enum_lit X fcall n)
  \/ (exists n, type_is_enum X (tree_type fcall) = false
                /\ t = get_int_lit X fcall n)
  \/ (exists x, t = get_real_lit X fcall x).

(** [fold_tree_fn]: the rewriting function [fold] hands to
    [tree_rewrite]. *)
Definition fold_tree_fn (X : collaborators) (fuel : nat) (t : tree_t)
  : ST world tree_t :=
  match tree_kind t with
  | T_FCALL => eval X fuel t (Z.lor EVAL_FCALL EVAL_FOLDING)
  | T_REF =>
      match tree_ref t with
      | None => missing_item "ref"
      | Some decl =>
          match tree_kind decl with
          | T_CONST_DECL =>
              match tree_value decl with
              | None => missing_item "value"
              | Some value =>
                  match tree_kind value with
                  | T_LITERAL => ret value
                  | _ => ret t
                  end
              end
          | T_UNIT_DECL =>
              match tree_value decl with
              | None => missing_item "value"
              | Some value => ret value
              end
          | _ => ret t
          end
      end
  | _ => ret t
  end.

(** The node refers to the declaration of a physical unit. *)
Definition refers_to_unit (t : tree_t) : bool :=
  match tree_kind t, tree_ref t with
  | T_REF, Some decl =>
      match tree_kind decl with T_UNIT_DECL => true | _ => false end
  | _, _ => false
  end.

(** The diagnostics of [w'] are those of [w] with newer ones in front. *)
Definition extends_log (w w' : world) : Prop :=
  exists newer, log w' = (newer ++ log w)%list.

Definition log_kept (m0 m : machine) : Prop := extends_log (wd m0) (wd m).

(** The outcome of a run from [w], whatever it is, kept the
    diagnostics of [w]. *)
Definition keeps_log {S A} (view : S -> world) (w : world) (o : outcome S A)
  : Prop :=
  match o with
  | Done _ s | Fatal _ s | OutOfFuel s => extends_log w (view s)
  | Undefined _ => True
  end.

Definition fcall_warning (m : machine) (func : ident) : event :=
  diag_event warn_at (tree_loc (fcall (st m)))
    "function call to %s prevents constant folding" [A_str func].

(** The library a function name is looked up in: the text before the
    first dot, when the name of its unit (the text before the last dot)
    has one. *)
Definition library_of (func : ident) : option ident :=
  let unit_name := ident_runtil func "."%char in
  let lib_name := ident_until unit_name "."%char in
  if String.eqb lib_name unit_name then None else Some lib_name.

(** The context a callee starts in: the values of the arguments in its
    first registers, the other registers zeroed, its variables at their
    initial values, no parent yet. *)
Definition callee_context (u : vcode_unit_t) (vals ivs : list value_t)
  : context_t :=
  CONTEXT None (vals ++ replicate (unit_nregs u - length vals) zero_value) ivs.

(** The machine a callee starts on, and the caller's machine after the
    callee ended on [mc]: its own state with the arena of the callee,
    and the world of the callee with the caller's selection. *)
Definition callee_machine (u : vcode_unit_t) (vals ivs : list value_t)
  (m : machine) : machine :=
  MACHINE (nested_state (callee_context u vals ivs) (st m))
    (select_block 0 (select_unit (Some u) (wd m))).

Definition returned_to (m mc : machine) : machine :=
  MACHINE (set_heap (heap (st mc)) (halloc (st mc)) (st m))
    (set_selection (selection (wd m)) (selects (wd mc)) (wd mc)).

(** The machine after a wrap that records the dimensions [dims]. *)
Definition wrapped (r : Z) (data : value_ptr) (dims : list (Z * Z * Z))
  (m : machine) : machine :=
  MACHINE (st (wrap_prologue r data m))
    (set_mem (store_fields (descriptor_fields (halloc (st m)) data dims)
                (mem (wd m))) (wd m)).

(** The registers [args] hold the integers [cs], one each. *)
Definition integer_regs (m : machine) (args cs : list Z) : Prop :=
  Forall2 (fun a c => reg m a = Some (Integer c)) args cs.

(** The choices [cs] are close enough to [t] for the [int] that
    [eval_value_cmp] returns to be their difference. *)
Definition close_to (t : Z) (cs : list Z) : Prop :=
  Forall (fun c => - 2 ^ 31 <= t - c < 2 ^ 31) cs.

(** The machine after the values [vs] are stored in consecutive cells
    of the arena from [p] on, and the view that consecutive cells from
    [p] on hold the values [vs]. *)
Fixpoint write_values (p : Z) (vs : list value_t) (m : machine) : machine :=
  match vs with
  | [] => m
  | v :: rest => write_values (p + C.sizeof_value_t) rest (write_value p v m)
  end.

Definition values_at (m : machine) (p : Z) (vs : list value_t) : Prop :=
  forall (i : nat) (v : value_t),
    vs !! i = Some v -> holds m (arena (p + C.sizeof_value_t * Z.of_nat i)) v.

(** The registers [args] hold the values [vs], one each. *)
Definition regs_hold (m : machine) (args : list Z) (vs : list value_t) : Prop :=
  Forall2 (fun a v => reg m a = Some v) args vs.

(** The machine after the three assertions of [eval_op_copy], which
    store a tag each. *)
Definition copy_tags (rd rs rc : Z) (vd vs vc : value_t) (m : machine)
  : machine :=
  write_reg rc (VALUE VALUE_INTEGER (payload vc))
    (write_reg rs (VALUE VALUE_POINTER (payload vs))
       (write_reg rd (VALUE VALUE_POINTER (payload vd)) m)).

(** ** Sample programs

    Concrete trees, units and collaborators on which the definitions
    above are run. *)

Module Sample.

Definition here : loc_t := LOC "ffold.vhd" 1.

Definition integer_type : type_t := TYPE T_INTEGER "INTEGER" None [] [].
Definition real_type : type_t := TYPE T_REAL "REAL" None [] [].
Definition boolean_type : type_t :=
  TYPE T_ENUM "BOOLEAN" None ["FALSE"; "TRUE"] [].
Definition time_type : type_t := TYPE T_PHYSICAL "TIME" None [] ["FS"].
Definition bit_vector_type : type_t :=
  TYPE (T_TYPE_OTHER 0) "BIT_VECTOR" None [] [].

Definition leaf (k : tree_kind_t) (name : ident) (ty : type_t) : tree_t :=
  TREE k here name ty 0 None None [].

Definition literal (name : ident) (ty : type_t) : tree_t :=
  leaf T_LITERAL name ty.

Definition param (v : tree_t) : tree_t :=
  TREE T_PARAM here "" (tree_type v) 0 None (Some v) [].

(** A call of the pure function [name] returning [ty]. *)
Definition call (name : ident) (ty : type_t) (args : list tree_t) : tree_t :=
  TREE T_FCALL here name ty 0 (Some (leaf (T_TREE_OTHER 0) name ty)) None
    (map param args).

Definition no_vtype : vcode_type_t := VTYPE (VCODE_TYPE_OTHER 0) 0 0 0.
Definition int_vtype : vcode_type_t :=
  VTYPE VCODE_TYPE_INT (- 2 ^ 31) (2 ^ 31 - 1) 0.
Definition real_vtype : vcode_type_t := VTYPE VCODE_TYPE_REAL 0 0 0.
Definition no_var : vcode_var_t := VAR no_vtype false 0 0.

(** An op with result [r] and arguments [args]; the other items are
    filled by the functions below. *)
Definition op (k : vcode_op_t) (r : Z) (args : list Z) : op_t :=
  OP k r args 0 Real.zero VCODE_CMP_EQ no_vtype [] "" (literal "" integer_type)
    BOUNDS_ARRAY_TO no_var 0.

Definition with_value (v : Z) (o : op_t) : op_t :=
  OP (op_kind o) (op_result o) (op_args o) v (op_real o) (op_cmp o) (op_type o)
    (op_targets o) (op_func o) (op_bookmark o) (op_subkind o) (op_address o)
    (op_dim o).
Definition with_cmp (c : vcode_cmp_t) (o : op_t) : op_t :=
  OP (op_kind o) (op_result o) (op_args o) (op_value o) (op_real o) c (op_type o)
    (op_targets o) (op_func o) (op_bookmark o) (op_subkind o) (op_address o)
    (op_dim o).
Definition with_type (t : vcode_type_t) (o : op_t) : op_t :=
  OP (op_kind o) (op_result o) (op_args o) (op_value o) (op_real o) (op_cmp o) t
    (op_targets o) (op_func o) (op_bookmark o) (op_subkind o) (op_address o)
    (op_dim o).
Definition with_targets (ts : list Z) (o : op_t) : op_t :=
  OP (op_kind o) (op_result o) (op_args o) (op_value o) (op_real o) (op_cmp o)
    (op_type o) ts (op_func o) (op_bookmark o) (op_subkind o) (op_address o)
    (op_dim o).
Definition with_func (f : ident) (o : op_t) : op_t :=
  OP (op_kind o) (op_result o) (op_args o) (op_value o) (op_real o) (op_cmp o)
    (op_type o) (op_targets o) f (op_bookmark o) (op_subkind o) (op_address o)
    (op_dim o).
Definition with_bookmark (t : tree_t) (o : op_t) : op_t :=
  OP (op_kind o) (op_result o) (op_args o) (op_value o) (op_real o) (op_cmp o)
    (op_type o) (op_targets o) (op_func o) t (op_subkind o) (op_address o)
    (op_dim o).

Definition const (r v : Z) : op_t := with_value v (op VCODE_OP_CONST r []).
Definition jump (b : Z) : op_t := with_targets [b] (op VCODE_OP_JUMP (-1) []).
Definition return_ (r : Z) : op_t := op VCODE_OP_RETURN (-1) [r].

Definition thunk (nregs : nat) (blocks : list (list op_t)) : vcode_unit_t :=
  UNIT "thunk" VCODE_UNIT_THUNK 0 None nregs [] blocks.

Definition function_ (name : ident) (nregs : nat) (blocks : list (list op_t))
  : vcode_unit_t :=
  UNIT name VCODE_UNIT_FUNCTION 0 None nregs [] blocks.

Definition is_scalar_kind (k : type_kind_t) : bool :=
  match k with
  | T_INTEGER | T_REAL | T_ENUM | T_PHYSICAL => true
  | _ => false
  end.

Fixpoint base_recur (t : type_t) : type_t :=
  match type_kind t, type_base t with
  | T_SUBTYPE, Some b => base_recur b
  | _, _ => t
  end.

(** Collaborators that lower every call to the unit [u] and name a
    reified literal after its value. *)
Definition X (u : option vcode_unit_t) : collaborators :=
  COLLABORATORS
    (fun t => is_scalar_kind (type_kind (base_recur t)))
    (fun t => match type_kind (base_recur t) with T_ENUM => true | _ => false end)
    base_recur
    (fun _ => u)
    (fun t n => leaf T_REF
                  (default "" (index n (type_enum_literals (base_recur (tree_type t)))))
                  (tree_type t))
    (fun t n => literal (format_int n) (tree_type t))
    (fun t x => literal "real" (tree_type t))
    (fun x y => x)
    (fun n x => "0").

Definition world0 (us : list vcode_unit_t) : world :=
  WORLD (VSTATE None VCODE_INVALID_BLOCK) 0
    (list_to_map (map (fun u => (unit_name u, u)) us)) ∅ ∅ [] 0 false.

(** [add1(5)] where [add1(x) = x + 1]. *)
Definition add1 : vcode_unit_t :=
  function_ "ADD1" 3 [[const 1 1; op VCODE_OP_ADD 2 [0; 1]; return_ 2]].

Definition add1_thunk : vcode_unit_t :=
  thunk 2 [[const 0 5; with_func "ADD1" (op VCODE_OP_FCALL 1 [0]); return_ 1]].

Definition add1_call : tree_t :=
  call "ADD1" integer_type [literal "5" integer_type].

(** A machine in the middle of a root evaluation: the selected unit has
    the single block [ops], the context holds the registers [rs]. *)
Definition machine_of (ops : list op_t) (rs : list value_t)
  (fl : eval_flags_t) : machine :=
  MACHINE (root_state (CONTEXT None rs []) add1_call fl)
    (select_block 0 (select_unit (Some (thunk (length rs) [ops])) (world0 []))).

(** [-7 rem 2] and [-7 mod 2]; both ops write register 2. *)
Definition rem_machine : machine :=
  machine_of [op VCODE_OP_REM 2 [0; 1]; op VCODE_OP_MOD 2 [0; 1]]
    [Integer (-7); Integer 2; zero_value] 0.

(** [flip("1010")], whose result is a [bit_vector]. *)
Definition flip_call : tree_t :=
  call "FLIP" bit_vector_type [literal "1010" bit_vector_type].

(** A thunk whose first op is one [eval_vcode] has no case for. *)
Definition wait_thunk : vcode_unit_t :=
  thunk 1 [[op (VCODE_OP_OTHER "wait") (-1) []; const 0 1; return_ 0]].

(** A thunk whose only block jumps to itself. *)
Definition loop_thunk : vcode_unit_t := thunk 0 [[jump 0]].

(** Registers 0 and 1 hold 2^32 and 0; registers 3 and 4 point at arena
    cells holding the same two Integers; register 5 holds the length 1. *)
Definition cmp_machine : machine :=
  let m := machine_of
             [with_cmp VCODE_CMP_EQ (op VCODE_OP_CMP 2 [0; 1]);
              with_targets [7; 9] (op VCODE_OP_CASE (-1) [0; 1]);
              op VCODE_OP_MEMCMP 2 [3; 4; 5]]
             [Integer (2 ^ 32); Integer 0; zero_value;
              Pointer (arena 0); Pointer (arena 16); Integer 1] 0 in
  MACHINE (set_heap true 32 (st m))
    (set_mem (list_to_map
                [(0, F_kind VALUE_INTEGER); (8, F_scalar (S_integer (2 ^ 32)));
                 (16, F_kind VALUE_INTEGER); (24, F_scalar (S_integer 0))])
       (wd m)).

(** A failed assertion of severity failure with the text "no". *)
Definition assert_machine (fl : eval_flags_t) : machine :=
  let m := machine_of [op VCODE_OP_ASSERT (-1) [0; 1; 2; 3]]
             [Integer 0; Integer SEVERITY_FAILURE; Pointer (arena 0); Integer 2]
             fl in
  MACHINE (set_heap true 32 (st m))
    (set_mem (list_to_map
                [(0, F_kind VALUE_INTEGER); (8, F_scalar (S_integer 110));
                 (16, F_kind VALUE_INTEGER); (24, F_scalar (S_integer 111))])
       (wd m)).

(** A cast of the Pointer in register 0 to an integer type, and of the
    Real in register 2 to a real type; both write register 1. *)
Definition cast_machine : machine :=
  machine_of
    [with_type int_vtype (op VCODE_OP_CAST 1 [0]);
     with_type real_vtype (op VCODE_OP_CAST 1 [2]);
     with_type int_vtype (op VCODE_OP_CAST 1 [3])]
    [Pointer (arena 0); zero_value; Real_ (Real.of_int64 5); Integer 7] 0.

(** A wrap of the pointer in register 0 with the dimension triples in
    registers 2 to 4, repeated [n] times, when [h] bytes are allocated;
    the result register is 1. *)
Definition wrap_machine (n : nat) (h : Z) (fl : eval_flags_t) : machine :=
  let m := machine_of
             [op VCODE_OP_WRAP 1 (0 :: concat (replicate n [2; 3; 4]))]
             [Pointer (arena 0); zero_value; Integer 1; Integer 8;
              Integer RANGE_TO] fl in
  MACHINE (set_heap true h (st m)) (wd m).

(** [integer'image(40)]: the object is in register 0, the result goes
    to the fresh register 1; a second op asks for the left bound of the
    result. *)
Definition image_machine : machine :=
  machine_of
    [with_bookmark (literal "40" integer_type) (op VCODE_OP_IMAGE 1 [0]);
     op VCODE_OP_UARRAY_LEFT 2 [1]]
    [Integer 40; zero_value; zero_value] 0.


(** A report of severity note with the text "no". *)
Definition report_machine (fl : eval_flags_t) : machine :=
  let m := machine_of [op VCODE_OP_REPORT (-1) [0; 1; 2]]
             [Integer SEVERITY_NOTE; Pointer (arena 0); Integer 2] fl in
  MACHINE (set_heap true 32 (st m))
    (set_mem (list_to_map
                [(0, F_kind VALUE_INTEGER); (8, F_scalar (S_integer 110));
                 (16, F_kind VALUE_INTEGER); (24, F_scalar (S_integer 111))])
       (wd m)).

(** A thunk that refers to an object without a value, then asks for an
    op [eval_vcode] has no case for. *)
Definition undefined_thunk : vcode_unit_t :=
  thunk 1 [[op VCODE_OP_UNDEFINED (-1) []; op (VCODE_OP_OTHER "wait") (-1) [];
            const 0 1; return_ 0]].

(** The Integer in register 0 is stored through the pointer in register
    1 and loaded back into register 2; 32 bytes are allocated. *)
Definition indirect_machine : machine :=
  let m := machine_of
             [op VCODE_OP_STORE_INDIRECT (-1) [0; 1];
              op VCODE_OP_LOAD_INDIRECT 2 [1]]
             [Integer 7; Pointer (arena 16); zero_value] 0 in
  MACHINE (set_heap true 32 (st m)) (wd m).

Definition with_address (a : vcode_var_t) (o : op_t) : op_t :=
  OP (op_kind o) (op_result o) (op_args o) (op_value o) (op_real o) (op_cmp o)
    (op_type o) (op_targets o) (op_func o) (op_bookmark o) (op_subkind o) a
    (op_dim o).

Definition int_var (i : Z) : vcode_var_t := VAR int_vtype false 0 i.
Definition extern_var : vcode_var_t := VAR int_vtype true 0 0.

(** A function with one Integer variable: register 0 is stored in it
    and it is loaded into register 1. *)
Definition var_unit : vcode_unit_t :=
  UNIT "F" VCODE_UNIT_FUNCTION 0 None 2 [int_var 0]
    [[with_address (int_var 0) (op VCODE_OP_STORE (-1) [0]);
      with_address (int_var 0) (op VCODE_OP_LOAD 1 []);
      with_address extern_var (op VCODE_OP_LOAD 1 [0])]].

Definition var_machine : machine :=
  MACHINE
    (root_state (CONTEXT None [Integer 7; zero_value] [Integer 0]) add1_call 0)
    (select_block 0 (select_unit (Some var_unit) (world0 []))).

(** Register 0 is an unconstrained array whose descriptor at 0 has the
    dimension [5 downto 8]; op 0 asks for its length. *)
Definition len_machine : machine :=
  let m := machine_of [op VCODE_OP_UARRAY_LEN 1 [0]]
             [VALUE VALUE_UARRAY (S_pointer (arena 0)); zero_value] 0 in
  MACHINE (set_heap true 112 (st m))
    (set_mem (list_to_map
                [(0, F_scalar (S_integer 5)); (8, F_scalar (S_integer 8));
                 (16, F_scalar (S_integer RANGE_DOWNTO))])
       (wd m)).

(** Two buffers of three Integers at 0 and 48; op 0 compares them. *)
Definition memcmp_machine : machine :=
  let m := machine_of [op VCODE_OP_MEMCMP 3 [0; 1; 2]]
             [Pointer (arena 0); Pointer (arena 48); Integer 3; zero_value] 0 in
  MACHINE (set_heap true 96 (st m))
    (set_mem (list_to_map
                [(0, F_kind VALUE_INTEGER); (8, F_scalar (S_integer 1));
                 (16, F_kind VALUE_INTEGER); (24, F_scalar (S_integer 2));
                 (32, F_kind VALUE_INTEGER); (40, F_scalar (S_integer 3));
                 (48, F_kind VALUE_INTEGER); (56, F_scalar (S_integer 1));
                 (64, F_kind VALUE_INTEGER); (72, F_scalar (S_integer 2));
                 (80, F_kind VALUE_INTEGER); (88, F_scalar (S_integer 3))])
       (wd m)).

(** A reference to the constant [N], declared with the literal 8. *)
Definition const_ref : tree_t :=
  TREE T_REF here "N" integer_type 0
    (Some (TREE T_CONST_DECL here "N" integer_type 0 None
             (Some (literal "8" integer_type)) []))
    None [].

(** A call of [WORK.PACK.F], of which no code is known. *)
Definition unknown_call_machine (fl : eval_flags_t) : machine :=
  machine_of [with_func "WORK.PACK.F" (op VCODE_OP_FCALL 1 [0])]
    [Integer 5; zero_value] fl.

(** The thunk of [add1(5)] about to call [ADD1]; 5 is in register 0. *)
Definition call_machine : machine :=
  MACHINE (root_state (CONTEXT None [Integer 5; zero_value] []) add1_call 0)
    (select_block 0 (select_unit (Some add1_thunk) (world0 [add1]))).

(** A wrap of the pointer in register 0 with the bounds [1 to 8] from
    registers 2 to 4; the second op reads a bound of the result, the
    third unwraps it. *)
Definition bounds_machine : machine :=
  let m := machine_of
             [op VCODE_OP_WRAP 1 [0; 2; 3; 4]; op VCODE_OP_UARRAY_LEFT 5 [1];
              op VCODE_OP_UNWRAP 5 [1]]
             [Pointer (arena 0); zero_value; Integer 1; Integer 8;
              Integer RANGE_TO; zero_value] 0 in
  MACHINE (set_heap true 16 (st m)) (wd m).

(** An alloca of as many values as register 0 says, which is -1, with
    32 bytes of the arena in use. *)
Definition alloca_machine : machine :=
  let m := machine_of [op VCODE_OP_ALLOCA 1 [0]] [Integer (-1); zero_value] 0 in
  MACHINE (set_heap true 32 (st m)) (wd m).

(** A case on register 0 with the choices of registers 1 to 3, the
    default block 9 and the blocks 4 to 6 for the choices; the second
    and the third choice both equal the test. *)
Definition case_machine : machine :=
  machine_of [with_targets [9; 4; 5; 6] (op VCODE_OP_CASE 0 [0; 1; 2; 3])]
    [Integer 7; Integer 3; Integer 7; Integer 7] 0.

(** A constant array of the registers 0 and 1 into register 2, with 32
    bytes of the arena in use. *)
Definition const_array_machine : machine :=
  let m := machine_of [op VCODE_OP_CONST_ARRAY 2 [0; 1]]
             [Integer 7; Real_ Real.zero; zero_value] 0 in
  MACHINE (set_heap true 32 (st m)) (wd m).

(** A copy of two values from the cells at 0 to the cells at 64; none
    of the three registers has the tag of what it is used as. *)
Definition copy_machine : machine :=
  let m := machine_of [op VCODE_OP_COPY (-1) [0; 1; 2]]
             [VALUE VALUE_INTEGER (S_pointer (arena 64));
              VALUE VALUE_INTEGER (S_pointer (arena 0));
              VALUE VALUE_POINTER (S_integer 2)] 0 in
  write_values 0 [Integer 7; Real_ Real.zero]
    (MACHINE (set_heap true 96 (st m)) (wd m)).

(** A check of register 0 against the range of registers 1 and 2, with
    every flag set. *)
Definition dynamic_bounds_machine (x : value_t) : machine :=
  machine_of [op VCODE_OP_DYNAMIC_BOUNDS (-1) [0; 1; 2]]
    [x; Integer 1; Integer 8] (Z.lor EVAL_BOUNDS (Z.lor EVAL_WARN EVAL_REPORT)).

End Sample.

(** * Properties *)

Example eval_add1 :
  exists w,
    eval (Sample.X (Some Sample.add1_thunk)) 3 Sample.add1_call EVAL_FCALL
      (Sample.world0 [Sample.add1])
    = Done (Sample.literal "6" Sample.integer_type) w.
Proof. eexists. vm_compute. reflexivity. Qed.

(** ** Machine arithmetic *)

Lemma wrap_range bits z :
  0 < bits -> - 2 ^ (bits - 1) <= C.wrap bits z < 2 ^ (bits - 1).
Proof.
  intros Hb. unfold C.wrap.
  assert (H2 : 2 ^ bits = 2 * 2 ^ (bits - 1)).
  { replace bits with (Z.succ (bits - 1)) at 1 by lia. rewrite Z.pow_succ_r; lia. }
  assert (0 < 2 ^ (bits - 1)) by (apply Z.pow_pos_nonneg; lia).
  pose proof (Z.mod_pos_bound (z + 2 ^ (bits - 1)) (2 ^ bits)). lia.
Qed.

Lemma wrap_eqm bits z :
  0 < bits -> (C.wrap bits z) mod 2 ^ bits = z mod 2 ^ bits.
Proof.
  intros Hb. unfold C.wrap.
  assert (0 < 2 ^ bits) by (apply Z.pow_pos_nonneg; lia).
  rewrite Zminus_mod, Z.mod_mod by lia. rewrite <- Zminus_mod. f_equal. lia.
Qed.

Lemma wrap_unique bits x z :
  0 < bits -> - 2 ^ (bits - 1) <= x < 2 ^ (bits - 1) ->
  x mod 2 ^ bits = z mod 2 ^ bits -> C.wrap bits z = x.
Proof.
  intros Hb Hx He. unfold C.wrap.
  assert (H2 : 2 ^ bits = 2 * 2 ^ (bits - 1)).
  { replace bits with (Z.succ (bits - 1)) at 1 by lia. rewrite Z.pow_succ_r; lia. }
  assert (0 < 2 ^ (bits - 1)) by (apply Z.pow_pos_nonneg; lia).
  assert (Hm : (z + 2 ^ (bits - 1)) mod 2 ^ bits
               = (x + 2 ^ (bits - 1)) mod 2 ^ bits).
  { rewrite (Zplus_mod z), <- He, <- Zplus_mod. reflexivity. }
  rewrite Hm, Z.mod_small by lia. lia.
Qed.

Lemma in_int64_bounds z : C.in_int64 z <-> - 2 ^ 63 <= z < 2 ^ 63.
Proof. unfold C.in_int64, C.INT64_MIN, C.INT64_MAX. lia. Qed.

Lemma int64_small z : C.in_int64 z -> C.int64 z = z.
Proof.
  intros H. apply in_int64_bounds in H.
  apply wrap_unique; [lia | exact H | reflexivity].
Qed.

Lemma int64_eqm z : C.int64 z mod 2 ^ 64 = z mod 2 ^ 64.
Proof. apply wrap_eqm. lia. Qed.

(** The truncated remainder of two [int64_t] values is an [int64_t]. *)
Lemma rem_in_int64 a b :
  C.in_int64 b -> b <> 0 ->
  C.in_int64 (Z.rem a b) /\ C.in_int64 (Z.abs (Z.rem a b)).
Proof.
  intros Hb Hnz. pose proof (Z.rem_bound_abs a b Hnz).
  rewrite !in_int64_bounds in *. lia.
Qed.

Lemma rem_exact a b :
  C.in_int64 a -> C.in_int64 b -> b <> 0 ->
  C.sub a (C.mul (C.div a b) b) = a - Z.quot a b * b.
Proof.
  intros Ha Hb Hnz. unfold C.sub, C.mul, C.div, C.int64.
  apply wrap_unique; [lia | |].
  - pose proof (Z.quot_rem' a b) as E.
    destruct (rem_in_int64 a b Hb Hnz) as [Hr _].
    apply in_int64_bounds in Hr.
    replace (a - Z.quot a b * b) with (Z.rem a b) by lia. exact Hr.
  - rewrite Zminus_mod. rewrite (Zminus_mod a (C.wrap 64 _)).
    rewrite wrap_eqm by lia. rewrite (Zmult_mod (C.wrap 64 _)), wrap_eqm by lia.
    rewrite <- Zmult_mod. reflexivity.
Qed.

Lemma mod_exact a b :
  C.in_int64 b -> b <> 0 -> C.labs (C.rem a b) = Z.abs (Z.rem a b).
Proof.
  intros Hb Hnz. destruct (rem_in_int64 a b Hb Hnz) as [Hr Ha].
  unfold C.labs, C.rem. rewrite (int64_small _ Hr). apply int64_small, Ha.
Qed.

Lemma quot_rem_exact a b :
  C.in_int64 a ->
  C.add (C.mul (C.div a b) b) (a - Z.quot a b * b) = a.
Proof.
  intros Ha. unfold C.add, C.mul, C.div, C.int64.
  apply wrap_unique; [lia | apply in_int64_bounds, Ha |].
  rewrite (Zplus_mod (C.wrap 64 _)), wrap_eqm by lia.
  rewrite (Zmult_mod (C.wrap 64 _)), wrap_eqm by lia.
  rewrite <- Zmult_mod, <- Zplus_mod. f_equal. lia.
Qed.

(** ** Running the monad *)

Lemma bind_done {S A B} (c : ST S A) (k : A -> ST S B) s a s' :
  c s = Done a s' -> bind c k s = k a s'.
Proof. unfold bind. intros ->. reflexivity. Qed.

Lemma bind_fatal {S A B} (c : ST S A) (k : A -> ST S B) s d s' :
  c s = Fatal d s' -> bind c k s = Fatal d s'.
Proof. unfold bind. intros ->. reflexivity. Qed.

Lemma bind_out_of_fuel {S A B} (c : ST S A) (k : A -> ST S B) s s' :
  c s = OutOfFuel s' -> bind c k s = OutOfFuel s'.
Proof. unfold bind. intros ->. reflexivity. Qed.

(** [step H]: the computation at the head of the goal returns as [H] says. *)
Ltac step H :=
  rewrite (bind_done _ _ _ _ _ H);
  cbn beta iota delta [kind payload fst snd Integer Real_ Pointer].

(** ** Registers *)

Lemma index_update_eq {A} (l : list A) i x y :
  index i l = Some y -> index i (update i x l) = Some x.
Proof.
  unfold index, update. destruct (i <? 0); [discriminate|].
  intros H. apply list_lookup_insert_eq. eapply lookup_lt_Some; eauto.
Qed.

Lemma index_update_ne {A} (l : list A) i j x y :
  index i l = Some y -> i <> j -> index j (update i x l) = index j l.
Proof.
  unfold index, update. intros Hi Hne.
  destruct (Z.ltb_spec i 0); [discriminate|].
  destruct (Z.ltb_spec j 0); [reflexivity|].
  apply list_lookup_insert_ne. lia.
Qed.

Lemma update_update {A} (l : list A) i x y :
  update i y (update i x l) = update i y l.
Proof. unfold update. apply list_insert_insert_eq. Qed.

Lemma reg_write_reg_eq m r v v0 :
  reg m r = Some v0 -> reg (write_reg r v m) r = Some v.
Proof. unfold reg, write_reg. simpl. apply index_update_eq. Qed.

Lemma reg_write_reg_ne m r r' v v0 :
  reg m r = Some v0 -> r <> r' -> reg (write_reg r v m) r' = reg m r'.
Proof. unfold reg, write_reg. simpl. apply index_update_ne. Qed.

Lemma write_reg_twice m r v v' :
  write_reg r v' (write_reg r v m) = write_reg r v' m.
Proof.
  unfold write_reg. simpl. unfold set_context. simpl.
  rewrite update_update. reflexivity.
Qed.

Lemma get_kind_reg m r v :
  reg m r = Some v -> get_kind (reg_slot r) m = Done (kind v) m.
Proof.
  unfold reg, get_kind. intros H.
  cbv [bind get_state of_option slot_value ret]. rewrite H. reflexivity.
Qed.

Lemma get_payload_reg m r v :
  reg m r = Some v -> get_payload (reg_slot r) m = Done (payload v) m.
Proof.
  unfold reg, get_payload. intros H.
  cbv [bind get_state of_option slot_value ret]. rewrite H. reflexivity.
Qed.

Lemma get_integer_reg m r v z :
  reg m r = Some v -> as_integer (payload v) = Some z ->
  get_integer (reg_slot r) m = Done z m.
Proof.
  intros H Hz. unfold get_integer. step (get_payload_reg _ _ _ H).
  rewrite Hz. reflexivity.
Qed.

Lemma get_real_reg m r v x :
  reg m r = Some v -> as_real (payload v) = Some x ->
  get_real (reg_slot r) m = Done x m.
Proof.
  intros H Hz. unfold get_real. step (get_payload_reg _ _ _ H).
  rewrite Hz. reflexivity.
Qed.

Lemma get_pointer_reg m r v p :
  reg m r = Some v -> as_pointer (payload v) = Some p ->
  get_pointer (reg_slot r) m = Done p m.
Proof.
  intros H Hz. unfold get_pointer. step (get_payload_reg _ _ _ H).
  rewrite Hz. reflexivity.
Qed.

Lemma set_kind_reg m r v k :
  reg m r = Some v ->
  set_kind (reg_slot r) k m = Done tt (write_reg r (VALUE k (payload v)) m).
Proof.
  unfold reg, set_kind, update_slot. intros H.
  cbv [bind get_state of_option slot_value slot_store ret put_state].
  rewrite H. reflexivity.
Qed.

Lemma set_payload_reg m r v s :
  reg m r = Some v ->
  set_payload (reg_slot r) s m = Done tt (write_reg r (VALUE (kind v) s) m).
Proof.
  unfold reg, set_payload, update_slot. intros H.
  cbv [bind get_state of_option slot_value slot_store ret put_state].
  rewrite H. reflexivity.
Qed.

(** ** Queries on the op being executed *)

Lemma vcode_op_at m op o : op_at (wd m) op = Some o -> vcode_op op m = Done o m.
Proof.
  intros H. unfold vcode_op. cbv [bind get_world of_option ret].
  rewrite H. reflexivity.
Qed.

Lemma vcode_get_op_at m op o :
  op_at (wd m) op = Some o -> vcode_get_op op m = Done (op_kind o) m.
Proof. intros H. unfold vcode_get_op. step (vcode_op_at _ _ _ H). reflexivity. Qed.

Lemma vcode_get_result_at m op o :
  op_at (wd m) op = Some o -> vcode_get_result op m = Done (op_result o) m.
Proof. intros H. unfold vcode_get_result. step (vcode_op_at _ _ _ H). reflexivity. Qed.

Lemma vcode_get_arg_at m op o i a :
  op_at (wd m) op = Some o -> index i (op_args o) = Some a ->
  vcode_get_arg op i m = Done a m.
Proof.
  intros H Hi. unfold vcode_get_arg. step (vcode_op_at _ _ _ H).
  rewrite Hi. reflexivity.
Qed.

Lemma vcode_count_args_at m op o :
  op_at (wd m) op = Some o ->
  vcode_count_args op m = Done (Z.of_nat (length (op_args o))) m.
Proof. intros H. unfold vcode_count_args. step (vcode_op_at _ _ _ H). reflexivity. Qed.

Lemma vcode_get_type_at m op o :
  op_at (wd m) op = Some o -> vcode_get_type op m = Done (op_type o) m.
Proof. intros H. unfold vcode_get_type. step (vcode_op_at _ _ _ H). reflexivity. Qed.

Lemma vcode_get_cmp_at m op o :
  op_at (wd m) op = Some o -> vcode_get_cmp op m = Done (op_cmp o) m.
Proof. intros H. unfold vcode_get_cmp. step (vcode_op_at _ _ _ H). reflexivity. Qed.

Lemma vcode_get_target_at m op o i b :
  op_at (wd m) op = Some o -> index i (op_targets o) = Some b ->
  vcode_get_target op i m = Done b m.
Proof.
  intros H Hi. unfold vcode_get_target. step (vcode_op_at _ _ _ H).
  rewrite Hi. reflexivity.
Qed.

Lemma vcode_get_bookmark_at m op o :
  op_at (wd m) op = Some o -> vcode_get_bookmark op m = Done (op_bookmark o) m.
Proof. intros H. unfold vcode_get_bookmark. step (vcode_op_at _ _ _ H). reflexivity. Qed.

Lemma dst_src_at m op o ra :
  op_at (wd m) op = Some o -> index 0 (op_args o) = Some ra ->
  dst_src op m = Done (reg_slot (op_result o), reg_slot ra) m.
Proof.
  intros H H0. unfold dst_src, eval_get_reg.
  step (vcode_get_result_at _ _ _ H). cbv [bind ret].
  rewrite (vcode_get_arg_at _ _ _ _ _ H H0). reflexivity.
Qed.

Lemma dst_lhs_rhs_at m op o ra rb :
  op_at (wd m) op = Some o ->
  index 0 (op_args o) = Some ra -> index 1 (op_args o) = Some rb ->
  dst_lhs_rhs op m = Done (reg_slot (op_result o), reg_slot ra, reg_slot rb) m.
Proof.
  intros H H0 H1. unfold dst_lhs_rhs, eval_get_reg.
  step (vcode_get_result_at _ _ _ H). cbv [bind ret].
  rewrite (vcode_get_arg_at _ _ _ _ _ H H0), (vcode_get_arg_at _ _ _ _ _ H H1).
  reflexivity.
Qed.

(** ** Remainder and modulus (C4) *)

(** [int_binop] on registers whose unions read as the integers [a], [b].
    The result register may be one of the sources: the tag is stored
    before the sources are read, and the union is not touched by that. *)
Lemma int_binop_regs m r ra rb v0 va vb a b f :
  reg m r = Some v0 -> reg m ra = Some va -> reg m rb = Some vb ->
  as_integer (payload va) = Some a -> as_integer (payload vb) = Some b ->
  int_binop (reg_slot r) (reg_slot ra) (reg_slot rb) f m
  = Done tt (write_reg r (Integer (f a b)) m).
Proof.
  intros Hr Ha Hb Hia Hib. unfold int_binop, set_integer.
  step (set_kind_reg _ _ _ VALUE_INTEGER Hr).
  set (m1 := write_reg r _ m).
  assert (H1 : reg m1 r = Some (VALUE VALUE_INTEGER (payload v0)))
    by (eapply reg_write_reg_eq; eauto).
  assert (Ha1 : exists va', reg m1 ra = Some va' /\ payload va' = payload va).
  { destruct (Z.eq_dec r ra) as [->|Hne].
    - eexists; split; [exact H1|]. simpl. congruence.
    - exists va. split; [|reflexivity]. unfold m1.
      erewrite reg_write_reg_ne; eauto. }
  assert (Hb1 : exists vb', reg m1 rb = Some vb' /\ payload vb' = payload vb).
  { destruct (Z.eq_dec r rb) as [->|Hne].
    - eexists; split; [exact H1|]. simpl. congruence.
    - exists vb. split; [|reflexivity]. unfold m1.
      erewrite reg_write_reg_ne; eauto. }
  destruct Ha1 as (va' & Ha1 & Hpa). destruct Hb1 as (vb' & Hb1 & Hpb).
  rewrite <- Hpa in Hia. rewrite <- Hpb in Hib.
  step (get_integer_reg _ _ _ _ Ha1 Hia).
  step (get_integer_reg _ _ _ _ Hb1 Hib).
  rewrite (set_payload_reg _ _ _ _ H1). unfold m1.
  rewrite write_reg_twice. reflexivity.
Qed.

Lemma int_divop_regs m r ra rb v0 va vb a b f :
  reg m r = Some v0 -> reg m ra = Some va -> reg m rb = Some vb ->
  as_integer (payload va) = Some a -> as_integer (payload vb) = Some b ->
  b <> 0 ->
  int_divop (reg_slot r) (reg_slot ra) (reg_slot rb) f m
  = Done tt (write_reg r (Integer (f a b)) m).
Proof.
  intros Hr Ha Hb Hia Hib Hnz. unfold int_divop.
  step (get_integer_reg _ _ _ _ Hb Hib).
  destruct (Z.eqb_spec b 0); [contradiction|].
  eapply int_binop_regs; eauto.
Qed.



(** ** The public entry on a non-scalar call (C1) *)

(** C1.  For every call-site node [n] and every flag set, if the result
    type of [n] is not scalar then [eval] returns [n] and leaves the
    world as it found it: nothing is asked of the lowering pass, no unit
    is selected, nothing is evaluated, no diagnostic is written and no
    literal is built. *)
Theorem eval_non_scalar_returns_call (X : collaborators) (fuel : nat)
  (n : tree_t) (flags : eval_flags_t) (w : world) :
  tree_kind n = T_FCALL ->
  type_is_scalar X (tree_type n) = false ->
  eval X fuel n flags w = Done n w.
Proof.
  intros Hk Hs. unfold eval, is_fcall. rewrite Hk.
  cbv [c_assert bind ret]. rewrite Hs. reflexivity.
Qed.

Lemma eval_non_scalar_returns_call_witness :
  eval (Sample.X (Some Sample.add1_thunk)) 3 Sample.flip_call
    (Z.lor EVAL_FCALL EVAL_WARN) (Sample.world0 [Sample.add1])
  = Done Sample.flip_call (Sample.world0 [Sample.add1]).
Proof.
  apply (eval_non_scalar_returns_call (Sample.X (Some Sample.add1_thunk)) 3
           Sample.flip_call (Z.lor EVAL_FCALL EVAL_WARN)
           (Sample.world0 [Sample.add1])); reflexivity.
Defined.

(** ** An opcode without a case (C2) *)

Lemma eval_dispatch_other X rec (m : machine) (i : Z) (o : op_t) (name : string) :
  op_at (wd m) i = Some o ->
  op_kind o = VCODE_OP_OTHER name ->
  eval_dispatch X rec i m = Fatal (cannot_evaluate name) (logged Vcode_dump m).
Proof.
  intros Hop Hk. unfold eval_dispatch.
  step (vcode_get_op_at _ _ _ Hop). rewrite Hk.
  unfold vcode_dump at 1. cbv [bind]. fold (logged Vcode_dump m).
  assert (Hop' : op_at (wd (logged Vcode_dump m)) i = Some o) by exact Hop.
  rewrite (vcode_get_op_at _ _ _ Hop'), Hk. reflexivity.
Qed.

(** C2, as the code has it.  When dispatch reaches an opcode that
    [eval_vcode] has no case for, the evaluation is not aborted
    gracefully: [vcode_dump] is called and [fatal] ends the process with
    "cannot evaluate vcode op NAME".  The evaluation state is left as it
    was, so [failed] is not set; the only event written is the dump, so
    no warning is emitted whatever the flags; and whatever was to run
    after the dispatch (the rest of the block, the frames that entered
    it, the return to the public entry) does not run. *)
Theorem unsupported_opcode_is_fatal (X : collaborators) (rec : M unit)
  (m : machine) (i : Z) (o : op_t) (name : string) :
  op_at (wd m) i = Some o ->
  op_kind o = VCODE_OP_OTHER name ->
  eval_dispatch X rec i m = Fatal (cannot_evaluate name) (logged Vcode_dump m)
  /\ failed (st (logged Vcode_dump m)) = failed (st m)
  /\ log (wd (logged Vcode_dump m)) = Vcode_dump :: log (wd m)
  /\ forall (A : Type) (k : bool -> M A),
       bind (eval_dispatch X rec i) k m
       = Fatal (cannot_evaluate name) (logged Vcode_dump m).
Proof.
  intros Hop Hk. pose proof (eval_dispatch_other X rec m i o name Hop Hk) as H.
  repeat split; try assumption.
  intros A k. apply bind_fatal, H.
Qed.

Lemma unsupported_opcode_is_fatal_witness :
  let m := Sample.machine_of
             [Sample.op (VCODE_OP_OTHER "wait") (-1) []] [] EVAL_WARN in
  eval_dispatch (Sample.X None) (ret tt) 0 m
  = Fatal (cannot_evaluate "wait") (logged Vcode_dump m)
  /\ failed (st (logged Vcode_dump m)) = failed (st m)
  /\ log (wd (logged Vcode_dump m)) = Vcode_dump :: log (wd m)
  /\ forall (A : Type) (k : bool -> M A),
       bind (eval_dispatch (Sample.X None) (ret tt) 0) k m
       = Fatal (cannot_evaluate "wait") (logged Vcode_dump m).
Proof.
  intros m.
  apply (unsupported_opcode_is_fatal (Sample.X None) (ret tt) m 0
           (Sample.op (VCODE_OP_OTHER "wait") (-1) []) "wait");
    reflexivity.
Defined.

(** The claim as stated fails on [Sample.wait_thunk]: with the warn flag
    set, [eval] does not return the call node; the process ends with the
    fatal diagnostic, the log holds no warning, and the evaluation
    state at that point has [failed] unset. *)
Lemma unsupported_opcode_counterexample :
  let X := Sample.X (Some Sample.wait_thunk) in
  let w0 := Sample.world0 [] in
  (exists w,
     eval X 1 Sample.add1_call EVAL_WARN w0 = Fatal (cannot_evaluate "wait") w
     /\ log w = [Vcode_dump; Lower_thunk Sample.add1_call])
  /\ (forall t w, eval X 1 Sample.add1_call EVAL_WARN w0 <> Done t w)
  /\ (exists m0 m,
        eval_vcode X 1 m0 = Fatal (cannot_evaluate "wait") m
        /\ failed (st m) = false /\ flags (st m) = EVAL_WARN).
Proof.
  cbv zeta. split; [|split].
  - eexists. split; vm_compute; reflexivity.
  - intros t w. vm_compute. discriminate.
  - exists (MACHINE
              (root_state (CONTEXT None [zero_value] []) Sample.add1_call EVAL_WARN)
              (select_block 0
                 (select_unit (Some Sample.wait_thunk) (Sample.world0 [])))).
    eexists. split; [vm_compute; reflexivity|]. split; reflexivity.
Qed.

(** ** Runaway loops (C3) *)

Lemma vcode_count_ops_at m b :
  selected_block (wd m) = Some b ->
  vcode_count_ops m = Done (Z.of_nat (length b)) m.
Proof.
  intros H. unfold vcode_count_ops. cbv [bind get_world of_option ret].
  rewrite H. reflexivity.
Qed.

Lemma op_at_head w o ops : selected_block w = Some (o :: ops) -> op_at w 0 = Some o.
Proof. intros H. unfold op_at. rewrite H. reflexivity. Qed.

(** One frame of [eval_vcode] on a block that starts with a jump to
    [target]: the target is selected and the frame continues as the
    re-entered [eval_vcode] does. *)
Lemma eval_vcode_body_jump X rec (m : machine) (o : op_t) (ops : list op_t)
  (target : Z) :
  selected_block (wd m) = Some (o :: ops) ->
  op_kind o = VCODE_OP_JUMP ->
  index 0 (op_targets o) = Some target ->
  failed (st m) = false ->
  eval_vcode_body X rec m
  = bind rec (fun _ => ret tt)
      (MACHINE (st m) (select_block target (wd m))).
Proof.
  intros Hb Hk Ht Hf. unfold eval_vcode_body.
  step (vcode_count_ops_at _ _ Hb).
  pose proof (op_at_head _ _ _ Hb) as Hop.
  cbn [length]. rewrite Nat2Z.id. cbn [eval_vcode_loop].
  cbv [bind get_state]. rewrite Hf.
  replace (0 <? Z.of_nat (S (length ops))) with true
    by (symmetry; apply Z.ltb_lt; lia).
  cbn [andb negb]. unfold eval_dispatch.
  cbv [bind]. rewrite (vcode_get_op_at _ _ _ Hop), Hk.
  unfold eval_op_jump. cbv [bind].
  rewrite (vcode_get_target_at _ _ _ _ _ Hop Ht).
  unfold vcode_select_block. cbv [bind get_world put_world ret].
  cbn [st wd]. destruct (rec _); reflexivity.
Qed.

Lemma reselected_0 m : reselected 0 m = m.
Proof.
  destruct m as [s [sel n us ls h l e v]]. unfold reselected, set_selection.
  cbn. rewrite Nat.add_0_r. reflexivity.
Qed.

Lemma reselected_S n m :
  reselected n
    (MACHINE (st m) (select_block (vs_block (selection (wd m))) (wd m)))
  = reselected (S n) m.
Proof.
  destruct m as [s [[u b] k us ls h l e v]].
  unfold reselected, select_block, set_selection. cbn.
  rewrite Nat.add_succ_r. reflexivity.
Qed.

(** A block whose first op jumps to the block itself uses every frame
    it is given: each frame selects the block again and enters the
    next. *)
Lemma self_jump_uses_all_fuel (X : collaborators) (fuel : nat) :
  forall (m : machine) (o : op_t) (ops : list op_t),
  selected_block (wd m) = Some (o :: ops) ->
  op_kind o = VCODE_OP_JUMP ->
  index 0 (op_targets o) = Some (vs_block (selection (wd m))) ->
  failed (st m) = false ->
  eval_vcode X fuel m = OutOfFuel (reselected fuel m).
Proof.
  induction fuel as [|n IH]; intros m o ops Hb Hk Ht Hf.
  - rewrite reselected_0. reflexivity.
  - cbn [eval_vcode].
    rewrite (eval_vcode_body_jump X _ m o ops _ Hb Hk Ht Hf).
    set (m1 := MACHINE (st m) (select_block _ (wd m))).
    assert (Hsel : selection (wd m1) = selection (wd m)).
    { unfold m1, select_block. cbn. destruct (selection (wd m)); reflexivity. }
    assert (He : eval_vcode X n m1 = OutOfFuel (reselected n m1)).
    { apply (IH m1 o ops); [|exact Hk| |exact Hf].
      - unfold selected_block in *. rewrite Hsel. exact Hb.
      - rewrite Hsel. exact Ht. }
    rewrite (bind_out_of_fuel _ _ _ _ He). unfold m1.
    rewrite reselected_S. reflexivity.
Qed.

(** C3, as the code has it.  No quota bounds the block selections of an
    evaluation.  On a block whose first op jumps to the block itself,
    [eval_vcode] never returns and never sets [failed]: whatever depth
    [fuel] of frames is allowed, all of it is used, one block selection
    per frame, and the evaluation is still running. *)
Theorem runaway_loop_is_unbounded (X : collaborators) (fuel : nat)
  (m : machine) (o : op_t) (ops : list op_t) :
  selected_block (wd m) = Some (o :: ops) ->
  op_kind o = VCODE_OP_JUMP ->
  index 0 (op_targets o) = Some (vs_block (selection (wd m))) ->
  failed (st m) = false ->
  exists m',
    eval_vcode X fuel m = OutOfFuel m'
    /\ selects (wd m') = (selects (wd m) + fuel)%nat
    /\ failed (st m') = false.
Proof.
  intros Hb Hk Ht Hf. exists (reselected fuel m).
  split; [|split].
  - exact (self_jump_uses_all_fuel X fuel m o ops Hb Hk Ht Hf).
  - reflexivity.
  - exact Hf.
Qed.

Lemma runaway_loop_is_unbounded_witness :
  let m := Sample.machine_of [Sample.jump 0] [] 0 in
  exists m',
    eval_vcode (Sample.X None) 1000 m = OutOfFuel m'
    /\ selects (wd m') = (selects (wd m) + 1000)%nat
    /\ failed (st m') = false.
Proof.
  intros m.
  apply (runaway_loop_is_unbounded (Sample.X None) 1000 m (Sample.jump 0) []);
    reflexivity.
Defined.

(** [eval] on a call that passes the pre-flight checks, without the
    verbose option, when the lowering pass returns [thunk] and the root
    context [c] is built: the thunk is run from block 0. *)
Lemma eval_runs_thunk X fuel (fcall0 : tree_t) (fl : eval_flags_t)
  (w w1 : world) (thunk : vcode_unit_t) (c : context_t) :
  tree_kind fcall0 = T_FCALL ->
  type_is_scalar X (tree_type fcall0) = true ->
  eval_possible X fcall0 fl w = Done true w1 ->
  env_verbose w1 = false ->
  has_flag fl EVAL_VERBOSE = false ->
  lower_thunk X fcall0 = Some thunk ->
  let w2 := select_block 0
              (select_unit (Some thunk) (add_event (Lower_thunk fcall0) w1)) in
  eval_new_context (None, w2) = Done c (None, w2) ->
  eval X fuel fcall0 fl w
  = match eval_vcode X fuel (MACHINE (root_state c fcall0 fl) w2) with
    | Done _ m => eval_finish X fcall0 fl (st m) (wd m)
    | Fatal d m => Fatal d (wd m)
    | Undefined why => Undefined why
    | OutOfFuel m => OutOfFuel (wd m)
    end.
Proof.
  intros Hk Hs Hp Hv Hf Hl w2 Hc. unfold eval, is_fcall. rewrite Hk.
  cbv [c_assert bind ret]. rewrite Hs. cbn [negb]. rewrite Hp. cbn [negb].
  rewrite Hv. cbv beta iota zeta. rewrite Hf. cbv beta iota zeta.
  rewrite Hl. rewrite ?Hf. cbv beta iota zeta. fold w2. rewrite Hc. reflexivity.
Qed.

(** The claim as stated fails on [Sample.loop_thunk]: with any depth of
    frames the root evaluation is still running, it has then selected
    more blocks than frames, so more than 2^16 of them once 2^16 frames
    are allowed, and it never returns a tree, folded or not. *)
Lemma runaway_loop_counterexample :
  let X := Sample.X (Some Sample.loop_thunk) in
  let w0 := Sample.world0 [] in
  (forall fuel, exists w,
     eval X fuel Sample.add1_call 0 w0 = OutOfFuel w
     /\ selects w = S fuel)
  /\ (forall fuel t w, eval X fuel Sample.add1_call 0 w0 <> Done t w).
Proof.
  cbv zeta.
  assert (H : forall fuel, exists w,
             eval (Sample.X (Some Sample.loop_thunk)) fuel Sample.add1_call 0
               (Sample.world0 []) = OutOfFuel w /\ selects w = S fuel).
  { intros fuel.
    rewrite (eval_runs_thunk _ fuel Sample.add1_call 0 (Sample.world0 [])
               (Sample.world0 []) Sample.loop_thunk (CONTEXT None [] []));
      try reflexivity.
    cbv zeta.
    match goal with |- context [eval_vcode _ _ ?m] => set (m0 := m) end.
    rewrite (self_jump_uses_all_fuel (Sample.X (Some Sample.loop_thunk))
               fuel m0 (Sample.jump 0) []) by reflexivity.
    exists (wd (reselected fuel m0)). split; reflexivity. }
  split; [exact H|].
  intros fuel t w. destruct (H fuel) as (w' & -> & _). discriminate.
Qed.

(** ** Comparison through a 32-bit difference (C10) *)

Lemma int_of_int64 z : C.int (C.int64 z) = C.int z.
Proof.
  unfold C.int. apply wrap_unique; [lia | apply wrap_range; lia |].
  rewrite wrap_eqm by lia.
  assert (Hd : (2 ^ 32 | 2 ^ 64)) by (exists (2 ^ 32); reflexivity).
  rewrite <- (Z.mod_mod_divide (C.int64 z) _ _ Hd), int64_eqm.
  symmetry. apply Z.mod_mod_divide, Hd.
Qed.

(** What [eval_value_cmp] returns for two Integers is zero exactly when
    they agree modulo 2^32. *)
Lemma int_sub_zero a b : C.int (C.sub a b) = 0 <-> (a - b) mod 2 ^ 32 = 0.
Proof.
  unfold C.sub. rewrite int_of_int64. split; intros H.
  - rewrite <- (wrap_eqm 32) by lia. fold (C.int (a - b)). rewrite H. reflexivity.
  - apply wrap_unique; [lia | lia | symmetry; exact H].
Qed.

Lemma holds_reg m r v : reg m r = Some v -> holds m (reg_slot r) v.
Proof. intros H. split; [apply get_kind_reg | apply get_payload_reg]; exact H. Qed.

Lemma cell_get_kind m off k :
  cell m off = Some (F_kind k) -> get_kind (arena off) m = Done k m.
Proof.
  unfold cell, get_kind, get_field. intros H. cbv [bind]. rewrite H. reflexivity.
Qed.

Lemma cell_get_payload m off s :
  cell m (off_payload off) = Some (F_scalar s) ->
  get_payload (arena off) m = Done s m.
Proof.
  unfold cell, get_payload, get_scalar, get_field. intros H.
  cbv [bind]. rewrite H. reflexivity.
Qed.

Lemma holds_cell m off v :
  cell m off = Some (F_kind (kind v)) ->
  cell m (off_payload off) = Some (F_scalar (payload v)) ->
  holds m (arena off) v.
Proof. intros Hk Hp. split; [apply cell_get_kind | apply cell_get_payload]; assumption. Qed.

(** What an arena pointer holds depends on the arena alone. *)
Lemma holds_arena_frame m m' off v :
  mem (wd m') = mem (wd m) -> holds m (arena off) v -> holds m' (arena off) v.
Proof.
  unfold holds, get_kind, get_payload, get_scalar, get_field. cbv [bind ret].
  intros ->. intros [Hk Hp]. split.
  - destruct (mem (wd m) !! off) as [[k|sc]|]; try discriminate.
    injection Hk as ->. reflexivity.
  - destruct (mem (wd m) !! off_payload off) as [[k|sc]|]; try discriminate.
    injection Hp as ->. reflexivity.
Qed.

Lemma holds_get_integer m p v z :
  holds m p v -> as_integer (payload v) = Some z -> get_integer p m = Done z m.
Proof. intros [_ Hp] Hz. unfold get_integer. step Hp. rewrite Hz. reflexivity. Qed.

Lemma holds_get_pointer m p v q :
  holds m p v -> as_pointer (payload v) = Some q -> get_pointer p m = Done q m.
Proof. intros [_ Hp] Hz. unfold get_pointer. step Hp. rewrite Hz. reflexivity. Qed.

Lemma eval_value_cmp_integers m lhs rhs a b :
  holds m lhs (Integer a) -> holds m rhs (Integer b) ->
  eval_value_cmp lhs rhs m = Done (C.int (C.sub a b)) m.
Proof.
  intros Hl Hr. unfold eval_value_cmp.
  step (proj1 Hl). step (proj1 Hr). cbv [kind_eqb c_assert bind ret].
  rewrite (holds_get_integer _ _ _ a Hl eq_refl).
  rewrite (holds_get_integer _ _ _ b Hr eq_refl). reflexivity.
Qed.

(** Storing the Integer tag in a register keeps every register that
    holds an Integer as it is, the stored one included. *)
Lemma reg_after_integer_tag m r v0 r' x :
  reg m r = Some v0 -> reg m r' = Some (Integer x) ->
  reg (write_reg r (VALUE VALUE_INTEGER (payload v0)) m) r' = Some (Integer x).
Proof.
  intros Hr Hx. destruct (Z.eq_dec r r') as [->|Hne].
  - rewrite (reg_write_reg_eq _ _ _ _ Hr). rewrite Hr in Hx.
    injection Hx as ->. reflexivity.
  - rewrite (reg_write_reg_ne _ _ _ _ _ Hr Hne). exact Hx.
Qed.

Lemma eval_op_cmp_eq_integers m op o ra rb v0 a b :
  op_at (wd m) op = Some o ->
  op_cmp o = VCODE_CMP_EQ ->
  index 0 (op_args o) = Some ra ->
  index 1 (op_args o) = Some rb ->
  reg m (op_result o) = Some v0 ->
  reg m ra = Some (Integer a) ->
  reg m rb = Some (Integer b) ->
  eval_op_cmp op m
  = Done tt (write_reg (op_result o)
               (Integer (C.of_bool (C.int (C.sub a b) =? 0))) m).
Proof.
  intros Hop Hc Ha0 Ha1 Hr Ha Hb. unfold eval_op_cmp.
  step (dst_lhs_rhs_at _ _ _ _ _ Hop Ha0 Ha1).
  step (set_kind_reg _ _ _ VALUE_INTEGER Hr).
  set (m1 := write_reg _ _ m).
  assert (Hop1 : op_at (wd m1) op = Some o) by exact Hop.
  step (vcode_get_cmp_at _ _ _ Hop1). rewrite Hc.
  pose proof (reg_after_integer_tag _ _ _ _ _ Hr Ha) as Ha'.
  pose proof (reg_after_integer_tag _ _ _ _ _ Hr Hb) as Hb'.
  fold m1 in Ha', Hb'.
  step (eval_value_cmp_integers _ _ _ _ _ (holds_reg _ _ _ Ha') (holds_reg _ _ _ Hb')).
  unfold set_integer.
  rewrite (set_payload_reg m1 _ _ _ (reg_write_reg_eq _ _ _ _ Hr)).
  unfold m1. rewrite write_reg_twice. reflexivity.
Qed.

Lemma eval_op_case_first_choice rec m op o rt rc t0 t1 a b :
  op_at (wd m) op = Some o ->
  op_args o = [rt; rc] ->
  op_targets o = [t0; t1] ->
  reg m rt = Some (Integer a) ->
  reg m rc = Some (Integer b) ->
  C.int (C.sub a b) = 0 ->
  eval_op_case rec op m = rec (MACHINE (st m) (select_block t1 (wd m))).
Proof.
  intros Hop Hargs Htargets Ht Hc Hz. unfold eval_op_case, eval_get_reg.
  assert (Ha0 : index 0 (op_args o) = Some rt) by (rewrite Hargs; reflexivity).
  assert (Ha1 : index 1 (op_args o) = Some rc) by (rewrite Hargs; reflexivity).
  assert (Ht0 : index 0 (op_targets o) = Some t0) by (rewrite Htargets; reflexivity).
  assert (Ht1 : index 1 (op_targets o) = Some t1) by (rewrite Htargets; reflexivity).
  step (vcode_get_arg_at _ _ _ _ _ Hop Ha0). cbv [bind ret].
  rewrite (vcode_get_target_at _ _ _ _ _ Hop Ht0).
  rewrite (vcode_count_args_at _ _ _ Hop), Hargs.
  change (Z.to_nat (Z.of_nat (length [rt; rc]) - 1)) with 1%nat.
  cbn [case_target]. unfold eval_get_reg. cbv [bind ret].
  rewrite (vcode_get_arg_at _ _ _ _ _ Hop Ha1).
  rewrite (eval_value_cmp_integers _ _ _ _ _ (holds_reg _ _ _ Ht) (holds_reg _ _ _ Hc)).
  rewrite Hz. cbn [Z.eqb].
  rewrite (vcode_get_target_at _ _ _ _ _ Hop Ht1).
  unfold vcode_select_block. cbv [bind get_world put_world].
  destruct m; reflexivity.
Qed.

Lemma eval_op_memcmp_one_pair m op o rl rr rn pl pr v0 a b :
  op_at (wd m) op = Some o ->
  op_args o = [rl; rr; rn] ->
  op_result o <> rl -> op_result o <> rr -> op_result o <> rn ->
  reg m (op_result o) = Some v0 ->
  reg m rl = Some (Pointer (arena pl)) ->
  reg m rr = Some (Pointer (arena pr)) ->
  reg m rn = Some (Integer 1) ->
  holds m (arena pl) (Integer a) ->
  holds m (arena pr) (Integer b) ->
  C.int (C.sub a b) = 0 ->
  eval_op_memcmp op m = Done tt (write_reg (op_result o) (Integer 1) m).
Proof.
  intros Hop Hargs Hnl Hnr Hnn Hr Hl Hrr Hn Hcl Hcr Hz. unfold eval_op_memcmp.
  assert (Ha0 : index 0 (op_args o) = Some rl) by (rewrite Hargs; reflexivity).
  assert (Ha1 : index 1 (op_args o) = Some rr) by (rewrite Hargs; reflexivity).
  assert (Ha2 : index 2 (op_args o) = Some rn) by (rewrite Hargs; reflexivity).
  step (dst_lhs_rhs_at _ _ _ _ _ Hop Ha0 Ha1).
  step (vcode_get_arg_at _ _ _ _ _ Hop Ha2). unfold eval_get_reg. cbv [bind ret].
  rewrite (set_kind_reg _ _ _ VALUE_INTEGER Hr). unfold set_integer.
  rewrite (set_payload_reg _ _ _ _ (reg_write_reg_eq _ _ _ _ Hr)).
  rewrite write_reg_twice. cbn [kind].
  set (m2 := write_reg _ _ m).
  assert (Hl2 : reg m2 rl = Some (Pointer (arena pl)))
    by (unfold m2; rewrite (reg_write_reg_ne _ _ _ _ _ Hr Hnl); exact Hl).
  assert (Hr2 : reg m2 rr = Some (Pointer (arena pr)))
    by (unfold m2; rewrite (reg_write_reg_ne _ _ _ _ _ Hr Hnr); exact Hrr).
  assert (Hn2 : reg m2 rn = Some (Integer 1))
    by (unfold m2; rewrite (reg_write_reg_ne _ _ _ _ _ Hr Hnn); exact Hn).
  rewrite (get_kind_reg _ _ _ Hl2). cbn [kind Pointer kind_eqb c_assert ret].
  rewrite (get_kind_reg _ _ _ Hr2). cbn [kind Pointer kind_eqb c_assert ret].
  rewrite (get_integer_reg _ _ _ 1 Hn2 eq_refl).
  change (Z.to_nat 1) with 1%nat. cbn [memcmp_loop]. cbv [bind].
  rewrite (get_pointer_reg _ _ _ (arena pl) Hl2 eq_refl). cbn [ptr_add ret].
  rewrite (get_pointer_reg _ _ _ (arena pr) Hr2 eq_refl). cbn [ptr_add ret].
  rewrite !Z.mul_0_r, !Z.add_0_r.
  assert (Hcl2 : holds m2 (arena pl) (Integer a))
    by (eapply holds_arena_frame; [|exact Hcl]; reflexivity).
  assert (Hcr2 : holds m2 (arena pr) (Integer b))
    by (eapply holds_arena_frame; [|exact Hcr]; reflexivity).
  rewrite (eval_value_cmp_integers _ _ _ _ _ Hcl2 Hcr2), Hz. reflexivity.
Qed.



(** ** Assertions (C7) *)

Lemma has_flag_cases fl F : has_flag fl F = true \/ has_flag fl F = false.
Proof. destruct (has_flag fl F); auto. Qed.

Lemma eval_message_emits m text length severity loc prefix p sev len cs :
  holds m text (Pointer p) ->
  holds m length (Integer len) ->
  holds m severity (Integer sev) ->
  0 <= sev <= 3 ->
  (0 < len -> read_chars (Z.to_nat len) 0 text m = Done cs m) ->
  eval_message text length severity loc prefix m
  = Done tt
      (logged (Emit (DIAG (channel_of_severity sev) (Some loc) "%s %s: %s"
                       [A_str prefix; A_str (level_of_severity sev);
                        A_str (if 0 <? len then c_string cs
                               else "Assertion violation")])) m).
Proof.
  intros Ht Hl Hs Hsev Hread. unfold eval_message.
  step (proj1 Ht). cbv [kind_eqb c_assert bind ret].
  rewrite (holds_get_integer _ _ _ len Hl eq_refl).
  destruct (Z.ltb_spec 0 len) as [Hpos|Hneg].
  - rewrite (Hread Hpos).
    rewrite (holds_get_integer _ _ _ sev Hs eq_refl).
    assert (Hc : sev = 0 \/ sev = 1 \/ sev = 2 \/ sev = 3) by lia.
    destruct Hc as [-> | [-> | [-> | ->]]]; reflexivity.
  - rewrite (holds_get_integer _ _ _ sev Hs eq_refl).
    assert (Hc : sev = 0 \/ sev = 1 \/ sev = 2 \/ sev = 3) by lia.
    destruct Hc as [-> | [-> | [-> | ->]]]; reflexivity.
Qed.

(** C7.  For an assert op whose operands are in registers (test,
    severity among note, warning, error and failure, text pointer and
    length): a nonzero test leaves the machine as it is; a zero test
    with the report flag set writes the formatted message through the
    function of the severity; [failed] is set exactly when the test is 0
    and the severity is error or failure; and with the report flag unset
    nothing is written, so that abort is silent. *)
Theorem assert_fails_from_error (m : machine) (op : Z) (o : op_t)
  (rt rs rx rl t sev len : Z) (p : value_ptr) (cs : list Z) :
  op_at (wd m) op = Some o ->
  op_args o = [rt; rs; rx; rl] ->
  reg m rt = Some (Integer t) ->
  reg m rs = Some (Integer sev) ->
  reg m rx = Some (Pointer p) ->
  reg m rl = Some (Integer len) ->
  SEVERITY_NOTE <= sev <= SEVERITY_FAILURE ->
  (0 < len -> read_chars (Z.to_nat len) 0 (reg_slot rx) m = Done cs m) ->
  failed (st m) = false ->
  let reported :=
    if has_flag (flags (st m)) EVAL_REPORT
    then logged (assertion_message (tree_loc (op_bookmark o)) sev len cs) m
    else m in
  let m' := if t =? 0 then mark_failed (SEVERITY_ERROR <=? sev) reported else m in
  eval_op_assert op m = Done tt m'
  /\ (t <> 0 -> m' = m)
  /\ (failed (st m') = true <-> t = 0 /\ SEVERITY_ERROR <= sev)
  /\ (has_flag (flags (st m)) EVAL_REPORT = false -> log (wd m') = log (wd m)).
Proof.
  intros Hop Hargs Ht Hs Hx Hl Hsev Hread Hf reported m'.
  assert (Ha0 : index 0 (op_args o) = Some rt) by (rewrite Hargs; reflexivity).
  assert (Ha1 : index 1 (op_args o) = Some rs) by (rewrite Hargs; reflexivity).
  assert (Ha2 : index 2 (op_args o) = Some rx) by (rewrite Hargs; reflexivity).
  assert (Ha3 : index 3 (op_args o) = Some rl) by (rewrite Hargs; reflexivity).
  split; [|split; [|split]].
  - unfold eval_op_assert, eval_get_reg.
    step (vcode_get_arg_at _ _ _ _ _ Hop Ha0). cbv [bind ret].
    rewrite (vcode_get_arg_at _ _ _ _ _ Hop Ha2).
    rewrite (vcode_get_arg_at _ _ _ _ _ Hop Ha3).
    rewrite (vcode_get_arg_at _ _ _ _ _ Hop Ha1).
    rewrite (get_integer_reg _ _ _ t Ht eq_refl).
    unfold m', reported. destruct (t =? 0); [|reflexivity].
    cbv [get_state]. destruct (has_flag (flags (st m)) EVAL_REPORT).
    + rewrite (vcode_get_bookmark_at _ _ _ Hop).
      rewrite (eval_message_emits m _ _ _ _ _ p sev len cs
                 (holds_reg _ _ _ Hx) (holds_reg _ _ _ Hl) (holds_reg _ _ _ Hs)
                 Hsev Hread).
      unfold assertion_message. set (e := Emit _).
      assert (Hs' : reg (logged e m) rs = Some (Integer sev)) by exact Hs.
      rewrite (get_integer_reg _ _ _ sev Hs' eq_refl). reflexivity.
    + rewrite (get_integer_reg _ _ _ sev Hs eq_refl). reflexivity.
  - intros Hnz. unfold m'. destruct (Z.eqb_spec t 0); [contradiction | reflexivity].
  - unfold m', reported. destruct (Z.eqb_spec t 0) as [->|Hnz].
    + cbn [mark_failed st failed set_failed]. rewrite Z.leb_le. intuition.
    + rewrite Hf. split; [discriminate | intros [? _]; contradiction].
  - intros Hnr. unfold m', reported. rewrite Hnr.
    destruct (t =? 0); reflexivity.
Qed.

Lemma assert_fails_from_error_witness :
  let m := Sample.assert_machine EVAL_REPORT in
  let m' :=
    mark_failed true
      (logged
         (Emit (DIAG error_at (Some Sample.here) "%s %s: %s"
                  [A_str "Assertion"; A_str "Failure"; A_str "no"])) m) in
  eval_op_assert 0 m = Done tt m'
  /\ (0 <> 0 -> m' = m)
  /\ (failed (st m') = true <-> 0 = 0 /\ SEVERITY_ERROR <= SEVERITY_FAILURE)
  /\ (has_flag (flags (st m)) EVAL_REPORT = false -> log (wd m') = log (wd m)).
Proof.
  intros m m'.
  apply (assert_fails_from_error m 0
           (Sample.op VCODE_OP_ASSERT (-1) [0; 1; 2; 3]) 0 1 2 3
           0 SEVERITY_FAILURE 2 (arena 0) [110; 111]);
    try reflexivity.
  unfold SEVERITY_NOTE, SEVERITY_FAILURE. lia.
Defined.

(** ** Casts (C8) *)

Lemma get_integer_reg_none m r v :
  reg m r = Some v -> as_integer (payload v) = None ->
  exists why, get_integer (reg_slot r) m = Undefined why.
Proof.
  intros H Hz. unfold get_integer. step (get_payload_reg _ _ _ H).
  rewrite Hz. eexists. reflexivity.
Qed.

Lemma get_real_reg_none m r v :
  reg m r = Some v -> as_real (payload v) = None ->
  exists why, get_real (reg_slot r) m = Undefined why.
Proof.
  intros H Hz. unfold get_real. step (get_payload_reg _ _ _ H).
  rewrite Hz. eexists. reflexivity.
Qed.

(** [eval_op_cast] after its prologue: the destination tag is stored,
    then the source is examined. *)
Lemma eval_op_cast_integer_destination m op o ra v0 src :
  op_at (wd m) op = Some o -> index 0 (op_args o) = Some ra ->
  op_result o <> ra ->
  reg m (op_result o) = Some v0 -> reg m ra = Some src ->
  integer_destination (vtype_kind (op_type o)) = true ->
  let m1 := write_reg (op_result o) (VALUE VALUE_INTEGER (payload v0)) m in
  reg m1 ra = Some src
  /\ reg m1 (op_result o) = Some (VALUE VALUE_INTEGER (payload v0))
  /\ eval_op_cast op m
     = match kind src with
       | VALUE_INTEGER =>
           (do n <- get_integer (reg_slot ra); set_integer (reg_slot (op_result o)) n) m1
       | VALUE_REAL =>
           (do r <- get_real (reg_slot ra);
            do n <- of_option "double outside the range of int64_t" (Real.to_int64 r);
            set_integer (reg_slot (op_result o)) n) m1
       | _ => Done tt m1
       end.
Proof.
  intros Hop Ha0 Hne Hr Ha Hd m1.
  assert (Ha1 : reg m1 ra = Some src)
    by (unfold m1; rewrite (reg_write_reg_ne _ _ _ _ _ Hr Hne); exact Ha).
  split; [exact Ha1|]. split; [eapply reg_write_reg_eq; eauto|].
  unfold eval_op_cast. step (dst_src_at _ _ _ _ Hop Ha0).
  step (vcode_get_type_at _ _ _ Hop).
  destruct (vtype_kind (op_type o)); try discriminate;
    (step (set_kind_reg _ _ _ VALUE_INTEGER Hr); fold m1;
     step (get_kind_reg _ _ _ Ha1); destruct (kind src); reflexivity).
Qed.

Lemma eval_op_cast_real_destination m op o ra v0 src :
  op_at (wd m) op = Some o -> index 0 (op_args o) = Some ra ->
  op_result o <> ra ->
  reg m (op_result o) = Some v0 -> reg m ra = Some src ->
  real_destination (vtype_kind (op_type o)) = true ->
  let m1 := write_reg (op_result o) (VALUE VALUE_REAL (payload v0)) m in
  reg m1 ra = Some src
  /\ reg m1 (op_result o) = Some (VALUE VALUE_REAL (payload v0))
  /\ eval_op_cast op m
     = match kind src with
       | VALUE_INTEGER =>
           (do n <- get_integer (reg_slot ra);
            set_real (reg_slot (op_result o)) (Real.of_int64 n)) m1
       | VALUE_REAL =>
           (do r <- get_real (reg_slot ra); set_real (reg_slot (op_result o)) r) m1
       | _ => Done tt m1
       end.
Proof.
  intros Hop Ha0 Hne Hr Ha Hd m1.
  assert (Ha1 : reg m1 ra = Some src)
    by (unfold m1; rewrite (reg_write_reg_ne _ _ _ _ _ Hr Hne); exact Ha).
  split; [exact Ha1|]. split; [eapply reg_write_reg_eq; eauto|].
  unfold eval_op_cast. step (dst_src_at _ _ _ _ Hop Ha0).
  step (vcode_get_type_at _ _ _ Hop).
  destruct (vtype_kind (op_type o)); try discriminate;
    (step (set_kind_reg _ _ _ VALUE_REAL Hr); fold m1;
     step (get_kind_reg _ _ _ Ha1); destruct (kind src); reflexivity).
Qed.

Lemma eval_op_cast_other_destination m op o ra :
  op_at (wd m) op = Some o -> index 0 (op_args o) = Some ra ->
  integer_destination (vtype_kind (op_type o)) = false ->
  real_destination (vtype_kind (op_type o)) = false ->
  eval_op_cast op m = Fatal cannot_cast (logged Vcode_dump m).
Proof.
  intros Hop Ha0 Hi Hr. unfold eval_op_cast. step (dst_src_at _ _ _ _ Hop Ha0).
  step (vcode_get_type_at _ _ _ Hop).
  destruct (vtype_kind (op_type o)); try discriminate; reflexivity.
Qed.

Lemma bind_undefined {S A B} (c : ST S A) (k : A -> ST S B) s why :
  c s = Undefined why -> bind c k s = Undefined why.
Proof. unfold bind. intros ->. reflexivity. Qed.

Lemma set_integer_reg m r v n :
  reg m r = Some v ->
  set_integer (reg_slot r) n m = Done tt (write_reg r (VALUE (kind v) (S_integer n)) m).
Proof. apply set_payload_reg. Qed.

Lemma set_real_reg m r v x :
  reg m r = Some v ->
  set_real (reg_slot r) x m = Done tt (write_reg r (VALUE (kind v) (S_real x)) m).
Proof. apply set_payload_reg. Qed.

(** [eval_op_cast] never touches [failed]. *)
Lemma eval_op_cast_keeps_failed m op o ra v0 src m' :
  op_at (wd m) op = Some o -> index 0 (op_args o) = Some ra ->
  op_result o <> ra ->
  reg m (op_result o) = Some v0 -> reg m ra = Some src ->
  eval_op_cast op m = Done tt m' -> failed (st m') = failed (st m).
Proof.
  intros Hop Ha0 Hne Hr Ha H.
  destruct (integer_destination (vtype_kind (op_type o))) eqn:Hi;
    [|destruct (real_destination (vtype_kind (op_type o))) eqn:Hd].
  - destruct (eval_op_cast_integer_destination m op o ra v0 src Hop Ha0 Hne Hr Ha Hi)
      as (Ha1 & Hr1 & E).
    rewrite E in H. clear E.
    destruct (kind src).
    + injection H as <-. reflexivity.
    + destruct (as_real (payload src)) as [x|] eqn:Hx.
      * rewrite (bind_done _ _ _ _ _ (get_real_reg _ _ _ _ Ha1 Hx)) in H.
        destruct (Real.to_int64 x) as [n|]; [|discriminate].
        cbv [bind of_option ret] in H. rewrite (set_integer_reg _ _ _ _ Hr1) in H.
        injection H as <-. reflexivity.
      * destruct (get_real_reg_none _ _ _ Ha1 Hx) as (why & E).
        rewrite (bind_undefined _ _ _ _ E) in H. discriminate.
    + destruct (as_integer (payload src)) as [n|] eqn:Hn.
      * rewrite (bind_done _ _ _ _ _ (get_integer_reg _ _ _ _ Ha1 Hn)) in H.
        rewrite (set_integer_reg _ _ _ _ Hr1) in H.
        injection H as <-. reflexivity.
      * destruct (get_integer_reg_none _ _ _ Ha1 Hn) as (why & E).
        rewrite (bind_undefined _ _ _ _ E) in H. discriminate.
    + injection H as <-. reflexivity.
    + injection H as <-. reflexivity.
    + injection H as <-. reflexivity.
  - destruct (eval_op_cast_real_destination m op o ra v0 src Hop Ha0 Hne Hr Ha Hd)
      as (Ha1 & Hr1 & E).
    rewrite E in H. clear E.
    destruct (kind src).
    + injection H as <-. reflexivity.
    + destruct (as_real (payload src)) as [x|] eqn:Hx.
      * rewrite (bind_done _ _ _ _ _ (get_real_reg _ _ _ _ Ha1 Hx)) in H.
        rewrite (set_real_reg _ _ _ _ Hr1) in H.
        injection H as <-. reflexivity.
      * destruct (get_real_reg_none _ _ _ Ha1 Hx) as (why & E).
        rewrite (bind_undefined _ _ _ _ E) in H. discriminate.
    + destruct (as_integer (payload src)) as [n|] eqn:Hn.
      * rewrite (bind_done _ _ _ _ _ (get_integer_reg _ _ _ _ Ha1 Hn)) in H.
        rewrite (set_real_reg _ _ _ _ Hr1) in H.
        injection H as <-. reflexivity.
      * destruct (get_integer_reg_none _ _ _ Ha1 Hn) as (why & E).
        rewrite (bind_undefined _ _ _ _ E) in H. discriminate.
    + injection H as <-. reflexivity.
    + injection H as <-. reflexivity.
    + injection H as <-. reflexivity.
  - rewrite (eval_op_cast_other_destination m op o ra Hop Ha0 Hi Hd) in H.
    discriminate.
Qed.

(** C8, as the code has it.  With the source in a register other than
    the result register: a cast to an integer (or offset) type keeps an
    Integer source and truncates a Real source toward zero, when the
    truncated value is an [int64_t]; a cast to a real type converts an
    Integer source to the nearest double and copies a Real source.  A
    source of any other kind does not fail the fold: the destination
    tag is stored over the old union of the result register and the op
    returns.  A destination type of any other kind ends the process
    with "cannot handle destination type in cast".  No cast sets
    [failed]. *)
Theorem cast_by_kinds (m : machine) (op : Z) (o : op_t) (ra : Z)
  (v0 src : value_t) :
  op_at (wd m) op = Some o ->
  index 0 (op_args o) = Some ra ->
  op_result o <> ra ->
  reg m (op_result o) = Some v0 ->
  reg m ra = Some src ->
  let r := op_result o in
  let dest := vtype_kind (op_type o) in
  (forall n,
     integer_destination dest = true -> kind src = VALUE_INTEGER ->
     as_integer (payload src) = Some n ->
     eval_op_cast op m = Done tt (write_reg r (Integer n) m))
  /\ (forall x n,
        integer_destination dest = true -> kind src = VALUE_REAL ->
        as_real (payload src) = Some x -> Real.to_int64 x = Some n ->
        Real.trunc x = Some n
        /\ eval_op_cast op m = Done tt (write_reg r (Integer n) m))
  /\ (forall n,
        real_destination dest = true -> kind src = VALUE_INTEGER ->
        as_integer (payload src) = Some n ->
        eval_op_cast op m = Done tt (write_reg r (Real_ (Real.of_int64 n)) m))
  /\ (forall x,
        real_destination dest = true -> kind src = VALUE_REAL ->
        as_real (payload src) = Some x ->
        eval_op_cast op m = Done tt (write_reg r (Real_ x) m))
  /\ (integer_destination dest = true -> numeric_kind (kind src) = false ->
      eval_op_cast op m
      = Done tt (write_reg r (VALUE VALUE_INTEGER (payload v0)) m))
  /\ (real_destination dest = true -> numeric_kind (kind src) = false ->
      eval_op_cast op m
      = Done tt (write_reg r (VALUE VALUE_REAL (payload v0)) m))
  /\ (integer_destination dest = false -> real_destination dest = false ->
      eval_op_cast op m = Fatal cannot_cast (logged Vcode_dump m))
  /\ (forall m', eval_op_cast op m = Done tt m' -> failed (st m') = failed (st m)).
Proof.
  intros Hop Ha0 Hne Hr Ha r dest.
  split; [|split; [|split; [|split; [|split; [|split; [|split]]]]]].
  - intros n Hd Hk Hn.
    destruct (eval_op_cast_integer_destination m op o ra v0 src Hop Ha0 Hne Hr Ha Hd)
      as (Ha1 & Hr1 & ->). rewrite Hk.
    step (get_integer_reg _ _ _ _ Ha1 Hn).
    rewrite (set_integer_reg _ _ _ _ Hr1), write_reg_twice. reflexivity.
  - intros x n Hd Hk Hx Hn. split.
    { unfold Real.to_int64 in Hn. destruct (Real.trunc x) as [z|]; [|discriminate].
      destruct (_ && _); [congruence | discriminate]. }
    destruct (eval_op_cast_integer_destination m op o ra v0 src Hop Ha0 Hne Hr Ha Hd)
      as (Ha1 & Hr1 & ->). rewrite Hk.
    step (get_real_reg _ _ _ _ Ha1 Hx). rewrite Hn. cbv [bind of_option ret].
    rewrite (set_integer_reg _ _ _ _ Hr1), write_reg_twice. reflexivity.
  - intros n Hd Hk Hn.
    destruct (eval_op_cast_real_destination m op o ra v0 src Hop Ha0 Hne Hr Ha Hd)
      as (Ha1 & Hr1 & ->). rewrite Hk.
    step (get_integer_reg _ _ _ _ Ha1 Hn).
    rewrite (set_real_reg _ _ _ _ Hr1), write_reg_twice. reflexivity.
  - intros x Hd Hk Hx.
    destruct (eval_op_cast_real_destination m op o ra v0 src Hop Ha0 Hne Hr Ha Hd)
      as (Ha1 & Hr1 & ->). rewrite Hk.
    step (get_real_reg _ _ _ _ Ha1 Hx).
    rewrite (set_real_reg _ _ _ _ Hr1), write_reg_twice. reflexivity.
  - intros Hd Hk.
    destruct (eval_op_cast_integer_destination m op o ra v0 src Hop Ha0 Hne Hr Ha Hd)
      as (_ & _ & ->).
    destruct (kind src); try discriminate; reflexivity.
  - intros Hd Hk.
    destruct (eval_op_cast_real_destination m op o ra v0 src Hop Ha0 Hne Hr Ha Hd)
      as (_ & _ & ->).
    destruct (kind src); try discriminate; reflexivity.
  - intros Hi Hd. eapply eval_op_cast_other_destination; eauto.
  - intros m'. eapply eval_op_cast_keeps_failed; eauto.
Qed.

Lemma cast_by_kinds_witness :
  let m := Sample.cast_machine in
  eval_op_cast 0 m = Done tt (write_reg 1 (VALUE VALUE_INTEGER (S_integer 0)) m)
  /\ eval_op_cast 2 m = Done tt (write_reg 1 (Integer 7) m).
Proof.
  intros m. split.
  - pose proof (cast_by_kinds m 0
                  (Sample.with_type Sample.int_vtype (Sample.op VCODE_OP_CAST 1 [0]))
                  0 zero_value (Pointer (arena 0))
                  eq_refl eq_refl ltac:(discriminate) eq_refl eq_refl)
      as (_ & _ & _ & _ & H & _).
    exact (H eq_refl eq_refl).
  - pose proof (cast_by_kinds m 2
                  (Sample.with_type Sample.int_vtype (Sample.op VCODE_OP_CAST 1 [3]))
                  3 zero_value (Integer 7)
                  eq_refl eq_refl ltac:(discriminate) eq_refl eq_refl)
      as (H & _).
    exact (H 7 eq_refl eq_refl eq_refl).
Defined.

(** The claim as stated fails on [Sample.cast_machine]: the cast of a
    Pointer source to an integer type returns with [failed] unset and
    the result register tagged Integer; the cast of a Real source to a
    real type, another combination, returns the same value with
    [failed] unset; and the Integer 2^53 + 1 is not converted to a
    double exactly. *)
Lemma cast_other_combination_counterexample :
  let m := Sample.cast_machine in
  (exists m',
     eval_op_cast 0 m = Done tt m'
     /\ failed (st m') = false
     /\ reg m' 1 = Some (VALUE VALUE_INTEGER (S_integer 0)))
  /\ (exists m',
        eval_op_cast 1 m = Done tt m'
        /\ failed (st m') = false
        /\ reg m' 1 = Some (Real_ (Real.of_int64 5)))
  /\ Real.to_int64 (Real.of_int64 (2 ^ 53 + 1)) = Some (2 ^ 53).
Proof.
  cbv zeta. split; [|split].
  - eexists. split; [vm_compute; reflexivity|]. split; reflexivity.
  - eexists. split; [vm_compute; reflexivity|]. split; reflexivity.
  - vm_compute. reflexivity.
Qed.

(** ** The arena *)

Lemma size_t_small z : 0 <= z < 2 ^ 64 -> C.size_t z = z.
Proof. intros H. unfold C.size_t. apply Z.mod_small. exact H. Qed.

Lemma EVAL_HEAP_value : EVAL_HEAP = 4096.
Proof. reflexivity. Qed.

Lemma alloc_fits m n :
  0 <= n -> 0 <= halloc (st m) -> halloc (st m) + n <= EVAL_HEAP ->
  alloc n m = Done (arena (halloc (st m))) (allocated n m).
Proof.
  intros Hn Hh Hfit. unfold alloc, eval_alloc, allocated.
  rewrite size_t_small by (rewrite EVAL_HEAP_value in Hfit; lia).
  destruct (Z.ltb_spec EVAL_HEAP (halloc (st m) + n)); [lia|].
  destruct (heap (st m)); reflexivity.
Qed.

Lemma alloc_refused m n :
  0 <= halloc (st m) -> EVAL_HEAP < halloc (st m) + n < 2 ^ 64 ->
  alloc n m = Done NULL (refused n m).
Proof.
  intros Hh Hn. unfold alloc, eval_alloc, refused, exhaustion_warning.
  rewrite size_t_small by (rewrite EVAL_HEAP_value in Hn; lia).
  destruct (Z.ltb_spec EVAL_HEAP (halloc (st m) + n)); [|lia].
  destruct (has_flag (flags (st m)) EVAL_WARN); reflexivity.
Qed.

Lemma set_field_ok m off f :
  heap (st m) = true -> 0 <= off -> off + 8 <= EVAL_HEAP ->
  set_field off f m = Done tt (write_cell off f m).
Proof.
  intros Hh H0 H1. unfold set_field, in_arena. rewrite Hh.
  destruct (Z.leb_spec 0 off); [|lia].
  destruct (Z.leb_spec (off + 8) EVAL_HEAP); [|lia]. reflexivity.
Qed.

(** ** Wrapping a pointer in a descriptor (C6) *)

Lemma arg_integer_inv m o j z :
  arg_integer m o j = Some z ->
  exists r v, index j (op_args o) = Some r /\ reg m r = Some v
              /\ as_integer (payload v) = Some z.
Proof.
  unfold arg_integer. destruct (index j (op_args o)) as [r|]; [|discriminate].
  destruct (reg m r) as [v|] eqn:Hr; [|discriminate]. intros H.
  exists r, v. auto.
Qed.

Lemma vcode_get_arg_integer m op o j z :
  op_at (wd m) op = Some o -> arg_integer m o j = Some z ->
  (do a <- vcode_get_arg op j; do p <- eval_get_reg a; get_integer p) m
  = Done z m.
Proof.
  intros Hop Hj. destruct (arg_integer_inv _ _ _ _ Hj) as (r & v & Hi & Hr & Hz).
  step (vcode_get_arg_at _ _ _ _ _ Hop Hi). unfold eval_get_reg. cbv [bind ret].
  rewrite (get_integer_reg _ _ _ _ Hr Hz). reflexivity.
Qed.

(** The triples depend on the registers alone. *)
Lemma triples_at_frame m m' o dims :
  forall i, context (st m') = context (st m) ->
            triples_at m o i dims -> triples_at m' o i dims.
Proof.
  induction dims as [|[[l rg] d] rest IH]; intros i Hc; [trivial|].
  cbn [triples_at]. unfold arg_integer, reg. rewrite Hc.
  intros (Hl & Hrg & Hd & Hrest). repeat split; try assumption.
  apply IH; assumption.
Qed.

Lemma wrap_dims_stores op o r vr h (dims : list (Z * Z * Z)) :
  forall (i : Z) (m : machine),
    op_at (wd m) op = Some o ->
    reg m r = Some vr -> as_pointer (payload vr) = Some (arena h) ->
    heap (st m) = true -> 0 <= h -> h + C.sizeof_uarray_t <= EVAL_HEAP ->
    0 <= i -> i + Z.of_nat (length dims) <= MAX_DIMS ->
    triples_at m o i dims ->
    wrap_dims op (length dims) i (reg_slot r) m
    = Done tt
        (MACHINE (st m)
           (set_mem (store_fields (dim_fields h i dims) (mem (wd m))) (wd m))).
Proof.
  induction dims as [|[[l rg] d] rest IH]; intros i m Hop Hr Hp Hh H0 Hfit Hi Hn Ht.
  - cbn. destruct m as [s w]. destruct w. reflexivity.
  - cbn [length wrap_dims]. cbn [triples_at] in Ht.
    destruct Ht as (Hl & Hrg & Hd & Hrest).
    cbn [length] in Hn. unfold MAX_DIMS, C.sizeof_uarray_t in *.
    rewrite EVAL_HEAP_value in *.
    destruct (arg_integer_inv _ _ _ _ Hl) as (r1 & v1 & Hi1 & Hr1 & Hz1).
    destruct (arg_integer_inv _ _ _ _ Hrg) as (r2 & v2 & Hi2 & Hr2 & Hz2).
    destruct (arg_integer_inv _ _ _ _ Hd) as (r3 & v3 & Hi3 & Hr3 & Hz3).
    step (get_pointer_reg _ _ _ _ Hr Hp).
    step (vcode_get_arg_at _ _ _ _ _ Hop Hi1). unfold eval_get_reg at 1. cbv [bind ret].
    rewrite (get_integer_reg _ _ _ _ Hr1 Hz1).
    unfold ua_set_int, arena_offset. cbv [bind ret].
    rewrite (set_field_ok m (off_left h i)) by
      (try exact Hh; unfold off_left; rewrite ?EVAL_HEAP_value; lia).
    set (m1 := write_cell _ _ m).
    assert (Hop1 : op_at (wd m1) op = Some o) by exact Hop.
    rewrite (vcode_get_arg_at _ _ _ _ _ Hop1 Hi2). unfold eval_get_reg at 1. cbv [ret].
    assert (Hr2' : reg m1 r2 = Some v2) by exact Hr2.
    rewrite (get_integer_reg _ _ _ _ Hr2' Hz2).
    rewrite (set_field_ok m1 (off_right h i)) by
      (try exact Hh; unfold off_right; rewrite ?EVAL_HEAP_value; lia).
    set (m2 := write_cell _ _ m1).
    assert (Hop2 : op_at (wd m2) op = Some o) by exact Hop.
    rewrite (vcode_get_arg_at _ _ _ _ _ Hop2 Hi3). unfold eval_get_reg at 1. cbv [ret].
    assert (Hr3' : reg m2 r3 = Some v3) by exact Hr3.
    rewrite (get_integer_reg _ _ _ _ Hr3' Hz3).
    rewrite (set_field_ok m2 (off_dir h i)) by
      (try exact Hh; unfold off_dir; rewrite ?EVAL_HEAP_value; lia).
    set (m3 := write_cell _ _ m2).
    rewrite (IH (i + 1) m3); try assumption; try lia.
    + destruct m as [s w]. destruct w. reflexivity.
    + eapply triples_at_frame; [|exact Hrest]. reflexivity.
Qed.

Lemma index_elem_of {A} (l : list A) j x : index j l = Some x -> x ∈ l.
Proof.
  unfold index. destruct (j <? 0); [discriminate|].
  intros H. eapply list_elem_of_lookup_2; eauto.
Qed.

Lemma arg_integer_write_reg m o r v v0 j :
  reg m r = Some v0 -> r ∉ op_args o ->
  arg_integer (write_reg r v m) o j = arg_integer m o j.
Proof.
  intros Hr Hfresh. unfold arg_integer.
  destruct (index j (op_args o)) as [rj|] eqn:Hj; [|reflexivity].
  assert (Hne : r <> rj).
  { intros ->. apply Hfresh. eapply index_elem_of; eauto. }
  rewrite (reg_write_reg_ne _ _ _ _ _ Hr Hne). reflexivity.
Qed.

Lemma triples_at_write_reg m o r v v0 dims :
  reg m r = Some v0 -> r ∉ op_args o ->
  forall i, triples_at m o i dims -> triples_at (write_reg r v m) o i dims.
Proof.
  intros Hr Hfresh. induction dims as [|[[l rg] d] rest IH]; intros i; [trivial|].
  cbn [triples_at]. rewrite !(arg_integer_write_reg _ _ _ _ _ _ Hr Hfresh).
  intros (Hl & Hrg & Hd & Hrest). repeat split; try assumption. apply IH, Hrest.
Qed.

(** [eval_op_wrap] up to the test of [ndims]. *)
Lemma eval_op_wrap_prologue m op o ra v0 data :
  op_at (wd m) op = Some o ->
  index 0 (op_args o) = Some ra ->
  op_result o <> ra ->
  reg m (op_result o) = Some v0 ->
  reg m ra = Some (Pointer data) ->
  0 <= halloc (st m) ->
  halloc (st m) + C.sizeof_uarray_t <= EVAL_HEAP ->
  let m4 := wrap_prologue (op_result o) data m in
  let ndims := Z.quot (Z.of_nat (length (op_args o)) - 1) 3 in
  eval_op_wrap op m
  = (if MAX_DIMS <? ndims then
       fail_fold ;;
       do state <- get_state;
       EVAL_WARN_ (fcall state)
         "%d dimensional array prevents constant folding" [A_int ndims]
     else
       ua_set_int (arena (halloc (st m))) off_ndims ndims ;;
       wrap_dims op (Z.to_nat ndims) 0 (reg_slot (op_result o))) m4.
Proof.
  intros Hop Ha0 Hne Hr Ha Hh Hfit m4 ndims. unfold eval_op_wrap.
  step (dst_src_at _ _ _ _ Hop Ha0).
  step (get_kind_reg _ _ _ Ha). cbv [kind_eqb c_assert bind ret].
  rewrite (set_kind_reg _ _ _ VALUE_UARRAY Hr).
  set (m1 := write_reg _ _ m).
  assert (Hr1 : reg m1 (op_result o) = Some (VALUE VALUE_UARRAY (payload v0)))
    by (eapply reg_write_reg_eq; eauto).
  rewrite (alloc_fits m1 C.sizeof_uarray_t) by (try exact Hh; try exact Hfit; unfold C.sizeof_uarray_t; lia).
  set (m2 := allocated _ m1).
  assert (Hr2 : reg m2 (op_result o) = Some (VALUE VALUE_UARRAY (payload v0)))
    by exact Hr1.
  unfold set_pointer. rewrite (set_payload_reg _ _ _ _ Hr2). cbn [kind is_null].
  set (m3 := write_reg _ _ m2).
  assert (E3 : m3 = write_reg (op_result o)
                      (VALUE VALUE_UARRAY (S_pointer (arena (halloc (st m)))))
                      (allocated C.sizeof_uarray_t m)).
  { unfold m3, m2, m1, allocated, write_reg. cbn. unfold set_context, set_heap.
    cbn. rewrite update_update. reflexivity. }
  assert (Ha3 : reg m3 ra = Some (Pointer data)).
  { unfold m3. rewrite (reg_write_reg_ne _ _ _ _ _ Hr2 Hne).
    unfold m2, m1. change (reg (allocated _ ?x) ra) with (reg x ra).
    rewrite (reg_write_reg_ne _ _ _ _ _ Hr Hne). exact Ha. }
  rewrite (get_pointer_reg _ _ _ data Ha3 eq_refl).
  unfold ua_set_data, arena_offset. cbv [bind ret].
  rewrite (set_field_ok m3) by
    (try reflexivity; unfold off_data, C.sizeof_uarray_t in *;
     change (halloc (st m1)) with (halloc (st m)); lia).
  assert (Hop4 : op_at (wd (write_cell (off_data (halloc (st m1)))
                              (F_scalar (S_pointer data)) m3)) op = Some o)
    by exact Hop.
  rewrite (vcode_count_args_at _ _ _ Hop4). fold ndims.
  unfold m4, wrap_prologue. rewrite <- E3. reflexivity.
Qed.

Lemma eval_op_wrap_refused m op o ra v0 data :
  op_at (wd m) op = Some o ->
  index 0 (op_args o) = Some ra ->
  reg m (op_result o) = Some v0 ->
  reg m ra = Some (Pointer data) ->
  0 <= halloc (st m) <= EVAL_HEAP ->
  EVAL_HEAP < halloc (st m) + C.sizeof_uarray_t ->
  eval_op_wrap op m
  = Done tt
      (write_reg (op_result o) (VALUE VALUE_UARRAY (S_pointer NULL))
         (refused C.sizeof_uarray_t m)).
Proof.
  intros Hop Ha0 Hr Ha Hh Hfull. unfold eval_op_wrap.
  step (dst_src_at _ _ _ _ Hop Ha0).
  step (get_kind_reg _ _ _ Ha). cbv [kind_eqb c_assert bind ret].
  rewrite (set_kind_reg _ _ _ VALUE_UARRAY Hr).
  set (m1 := write_reg _ _ m).
  assert (Hr1 : reg m1 (op_result o) = Some (VALUE VALUE_UARRAY (payload v0)))
    by (eapply reg_write_reg_eq; eauto).
  rewrite (alloc_refused m1 C.sizeof_uarray_t) by
    (change (halloc (st m1)) with (halloc (st m));
     rewrite EVAL_HEAP_value in *; unfold C.sizeof_uarray_t in *; lia).
  assert (Hr2 : reg (refused C.sizeof_uarray_t m1) (op_result o)
                = Some (VALUE VALUE_UARRAY (payload v0))) by exact Hr1.
  unfold set_pointer. rewrite (set_payload_reg _ _ _ _ Hr2). cbn [kind is_null].
  f_equal. unfold m1, refused, write_reg, exhaustion_warning. cbn.
  unfold set_context, set_failed. cbn. rewrite update_update. reflexivity.
Qed.

(** C6, as the code has it.  The wrap op first allocates the descriptor.
    When the arena has room for it: with more than [MAX_DIMS] dimension
    triples the fold fails and, if the warn flag is set, the
    "N dimensional array prevents constant folding" warning is written;
    with at most [MAX_DIMS] triples the result register is tagged
    UArray and points at a descriptor over the argument pointer that
    records the number of dimensions and (left, right, direction) of
    each.  When the arena has no room the fold fails as every exhausted
    allocation does: the warning written under the warn flag is the heap
    one, whatever the number of dimensions, and no descriptor is
    built. *)
Theorem wrap_builds_or_fails (m : machine) (op : Z) (o : op_t) (ra : Z)
  (v0 : value_t) (data : value_ptr) (dims : list (Z * Z * Z)) :
  op_at (wd m) op = Some o ->
  index 0 (op_args o) = Some ra ->
  op_result o ∉ op_args o ->
  reg m (op_result o) = Some v0 ->
  reg m ra = Some (Pointer data) ->
  0 <= halloc (st m) <= EVAL_HEAP ->
  let r := op_result o in
  let h := halloc (st m) in
  let ndims := Z.quot (Z.of_nat (length (op_args o)) - 1) 3 in
  (h + C.sizeof_uarray_t <= EVAL_HEAP -> MAX_DIMS < ndims ->
   let m' := warned (dims_warning m ndims)
               (mark_failed true (wrap_prologue r data m)) in
   eval_op_wrap op m = Done tt m'
   /\ failed (st m') = true
   /\ (has_flag (flags (st m)) EVAL_WARN = true ->
       log (wd m') = dims_warning m ndims :: log (wd m)))
  /\ (h + C.sizeof_uarray_t <= EVAL_HEAP -> ndims <= MAX_DIMS ->
      Z.of_nat (length dims) = ndims -> triples_at m o 0 dims ->
      let m' := MACHINE (st (wrap_prologue r data m))
                  (set_mem (store_fields (descriptor_fields h data dims)
                              (mem (wd m))) (wd m)) in
      eval_op_wrap op m = Done tt m'
      /\ reg m' r = Some (VALUE VALUE_UARRAY (S_pointer (arena h)))
      /\ failed (st m') = failed (st m)
      /\ halloc (st m') = h + C.sizeof_uarray_t)
  /\ (EVAL_HEAP < h + C.sizeof_uarray_t ->
      let m' := write_reg r (VALUE VALUE_UARRAY (S_pointer NULL))
                  (refused C.sizeof_uarray_t m) in
      eval_op_wrap op m = Done tt m'
      /\ failed (st m') = true
      /\ mem (wd m') = mem (wd m)
      /\ (has_flag (flags (st m)) EVAL_WARN = true ->
          log (wd m') = exhaustion_warning m C.sizeof_uarray_t :: log (wd m))).
Proof.
  intros Hop Ha0 Hfresh Hr Ha Hh r h ndims.
  assert (Hne : op_result o <> ra).
  { intros E. apply Hfresh. rewrite E. eapply index_elem_of; eauto. }
  split; [|split].
  - intros Hfit Hmany m'.
    split; [|split].
    + rewrite (eval_op_wrap_prologue m op o ra v0 data Hop Ha0 Hne Hr Ha
                 (proj1 Hh) Hfit).
      fold ndims. destruct (Z.ltb_spec MAX_DIMS ndims); [|lia].
      unfold m', warned, fail_fold, EVAL_WARN_. cbv [bind get_state put_state].
      cbn [st wd mark_failed set_failed flags].
      destruct (has_flag _ EVAL_WARN); reflexivity.
    + unfold m', warned. destruct (has_flag _ EVAL_WARN); reflexivity.
    + intros Hw. unfold m', warned.
      change (flags (st (mark_failed true (wrap_prologue r data m))))
        with (flags (st m)). rewrite Hw. reflexivity.
  - intros Hfit Hfew Hlen Hdims m'.
    split; [|split; [|split]]; try reflexivity.
    + rewrite (eval_op_wrap_prologue m op o ra v0 data Hop Ha0 Hne Hr Ha
                 (proj1 Hh) Hfit).
      fold ndims. destruct (Z.ltb_spec MAX_DIMS ndims); [lia|].
      set (m4 := wrap_prologue (op_result o) data m).
      unfold ua_set_int, arena_offset. cbv [bind ret].
      rewrite (set_field_ok m4) by
        (try reflexivity; unfold off_ndims, C.sizeof_uarray_t in *; lia).
      set (m5 := write_cell _ _ m4).
      rewrite <- Hlen, Nat2Z.id.
      assert (Hr5 : reg m5 (op_result o)
                    = Some (VALUE VALUE_UARRAY (S_pointer (arena (halloc (st m)))))).
      { unfold m5, m4, wrap_prologue.
        change (reg (write_cell ?a ?b (write_cell ?c ?d ?x)) ?y) with (reg x y).
        eapply reg_write_reg_eq. exact Hr. }
      rewrite (wrap_dims_stores op o (op_result o) _ (halloc (st m)) dims 0 m5
                 Hop Hr5 eq_refl eq_refl (proj1 Hh) Hfit); try lia.
      * unfold m', m5, m4, wrap_prologue, descriptor_fields, store_fields.
        fold r h. rewrite Hlen. destruct m as [s w]. destruct w. reflexivity.
      * eapply triples_at_frame
          with (m := write_reg (op_result o)
                       (VALUE VALUE_UARRAY (S_pointer (arena (halloc (st m))))) m);
          [reflexivity|].
        eapply triples_at_write_reg; eauto.
    + unfold m', wrap_prologue.
      change (reg (MACHINE (st (write_cell ?a ?b ?x)) ?w) ?y) with (reg x y).
      eapply reg_write_reg_eq. exact Hr.
  - intros Hfull m'. split; [|split; [|split]].
    + eapply eval_op_wrap_refused; eauto.
    + reflexivity.
    + unfold m', refused. cbn [write_reg wd].
      destruct (has_flag _ EVAL_WARN); reflexivity.
    + intros Hw. unfold m', refused. cbn [write_reg wd]. rewrite Hw. reflexivity.
Qed.

Lemma wrap_builds_or_fails_witness :
  let m := Sample.wrap_machine 1 0 EVAL_WARN in
  let m' := MACHINE (st (wrap_prologue 1 (arena 0) m))
              (set_mem (store_fields
                          (descriptor_fields 0 (arena 0) [(1, 8, RANGE_TO)])
                          (mem (wd m))) (wd m)) in
  eval_op_wrap 0 m = Done tt m'
  /\ reg m' 1 = Some (VALUE VALUE_UARRAY (S_pointer (arena 0)))
  /\ failed (st m') = failed (st m)
  /\ halloc (st m') = 0 + C.sizeof_uarray_t.
Proof.
  intros m.
  pose proof (wrap_builds_or_fails m 0
                (Sample.op VCODE_OP_WRAP 1 [0; 2; 3; 4]) 0 zero_value (arena 0)
                [(1, 8, RANGE_TO)] eq_refl eq_refl
                ltac:(cbn; rewrite !elem_of_cons, elem_of_nil; lia)
                eq_refl eq_refl ltac:(split; vm_compute; discriminate))
    as (_ & H & _).
  apply H.
  - vm_compute. discriminate.
  - vm_compute. discriminate.
  - reflexivity.
  - cbn. repeat split; reflexivity.
Defined.

(** The claim as stated fails when the arena cannot hold the descriptor
    (4000 bytes are allocated): a wrap with 5 dimension triples under
    the warn flag fails the fold, but the one warning written is the
    heap one, not the "N dimensional" one; and a wrap with one triple
    builds no descriptor. *)
Lemma wrap_without_room_counterexample :
  (let m := Sample.wrap_machine 5 4000 EVAL_WARN in
   exists m',
     eval_op_wrap 0 m = Done tt m'
     /\ failed (st m') = true
     /\ log (wd m') = [exhaustion_warning m C.sizeof_uarray_t]
     /\ dims_warning m 5 ∉ log (wd m'))
  /\ (let m := Sample.wrap_machine 1 4000 0 in
      exists m',
        eval_op_wrap 0 m = Done tt m'
        /\ failed (st m') = true
        /\ reg m' 1 = Some (VALUE VALUE_UARRAY (S_pointer NULL))
        /\ mem (wd m') = mem (wd m)).
Proof.
  split; cbv zeta.
  - eexists. split; [vm_compute; reflexivity|].
    split; [reflexivity|]. split; [reflexivity|].
    intros H. apply list_elem_of_singleton in H. discriminate H.
  - eexists. split; [vm_compute; reflexivity|].
    split; [reflexivity|]. split; reflexivity.
Qed.

(** ** The heap high-water mark (C5) *)

(** *** The invariant through the monad *)

Section Preserves.

Variable Inv : machine -> Prop.

Lemma preserves_ret {A} (post : A -> Prop) a : post a -> preserves Inv post (ret a).
Proof. intros H m Hm. cbn. auto. Qed.

Lemma preserves_bind {A B} (mid : A -> Prop) (post : B -> Prop)
  (c : M A) (k : A -> M B) :
  preserves Inv mid c -> (forall a, mid a -> preserves Inv post (k a)) ->
  preserves Inv post (bind c k).
Proof.
  intros Hc Hk m Hm. unfold bind. specialize (Hc m Hm).
  destruct (c m) as [a m'| | |]; auto.
  destruct Hc as [Hb Ha]. apply (Hk a Ha m' Hb).
Qed.

Lemma preserves_weaken {A} (p q : A -> Prop) c :
  preserves Inv p c -> (forall a, p a -> q a) -> preserves Inv q c.
Proof.
  intros Hc Hpq m Hm. specialize (Hc m Hm). destruct (c m); auto.
  destruct Hc; auto.
Qed.

Lemma preserves_any {A} (p : A -> Prop) c : preserves Inv p c -> preserves Inv any c.
Proof. intros H. eapply preserves_weaken; [exact H|]. unfold any. auto. Qed.

Lemma preserves_undefined {A} (post : A -> Prop) why :
  preserves Inv post (undefined why).
Proof. intros m Hm. exact I. Qed.

Lemma preserves_die {A} (post : A -> Prop) ch loc fmt args :
  preserves Inv post (die ch loc fmt args).
Proof. intros m Hm. exact Hm. Qed.

Lemma preserves_of_option {A} why (o : option A) :
  preserves Inv any (of_option why o).
Proof. destruct o; intros m Hm; cbn; unfold any; auto. Qed.

Lemma preserves_c_assert e expr : preserves Inv any (@c_assert machine e expr).
Proof. destruct e; intros m Hm; cbn; unfold any; auto. Qed.

Lemma preserves_get_world : preserves Inv any get_world.
Proof. intros m Hm. cbn. unfold any; auto. Qed.

End Preserves.

Lemma keeps_get_state : keeps heap_bounded get_state.
Proof. intros m Hm. cbn. auto. Qed.

Lemma keeps_put_state s : heap_bounded s -> keeps any (put_state s).
Proof. intros H m Hm. cbn. unfold any. auto. Qed.

Lemma keeps_put_world w : keeps any (put_world w).
Proof. intros m Hm. cbn. unfold any; auto. Qed.

Lemma heap_bounded_set_context c s : heap_bounded s -> heap_bounded (set_context c s).
Proof. auto. Qed.
Lemma heap_bounded_set_failed b s : heap_bounded s -> heap_bounded (set_failed b s).
Proof. auto. Qed.
Lemma heap_bounded_set_result r s : heap_bounded s -> heap_bounded (set_result r s).
Proof. auto. Qed.

Create HintDb invariant.
#[local] Hint Resolve preserves_undefined preserves_die preserves_of_option
  preserves_c_assert preserves_get_world keeps_get_state keeps_put_state
  keeps_put_world heap_bounded_set_context heap_bounded_set_failed
  heap_bounded_set_result : invariant.

Ltac head_of t := lazymatch t with ?f _ => head_of f | _ => t end.

(** One step through a computation: a bind (the state read by
    [get_state] and the state a nested evaluation hands back come with
    what is known of them), a return, a branch, or a part already shown
    to preserve the invariant. *)
Ltac preserves_step :=
  lazymatch goal with
  | |- preserves _ _ (bind get_state _) =>
      eapply preserves_bind; [ solve [eauto with invariant] | intros ? ? ]
  | |- preserves _ _ (bind (run_nested _ _) _) =>
      eapply preserves_bind; [ solve [eauto with invariant] | intros ? ? ]
  | |- preserves _ _ (bind _ _) =>
      eapply (preserves_bind _ any); [ | intros ? ? ]
  | |- preserves _ _ (ret _) =>
      apply preserves_ret; first [ exact I | assumption ]
  | |- preserves _ _ (let _ := _ in _) => cbv zeta
  | |- preserves _ _ (if ?b then _ else _) => destruct b
  | |- preserves _ _ (match ?x with _ => _ end) => destruct x
  | |- preserves _ any _ =>
      first [ solve [eauto with invariant]
            | eapply preserves_any; solve [eauto with invariant] ]
  | |- preserves _ _ _ => solve [eauto with invariant]
  end.

Ltac preserves_auto := repeat preserves_step.

(** A computation built from invariant-keeping parts: unfold its head
    and walk its binds and branches. *)
Ltac preserves_unfold :=
  lazymatch goal with
  | |- preserves _ _ ?c => let h := head_of c in unfold h
  end;
  preserves_auto.

Lemma keeps_emit ch loc fmt args : keeps any (emit ch loc fmt args).
Proof. intros m Hm. cbn. unfold any; auto. Qed.
Lemma keeps_emit_notef fmt args : keeps any (emit_notef fmt args).
Proof. intros m Hm. cbn. unfold any; auto. Qed.
Lemma keeps_vcode_dump : keeps any vcode_dump.
Proof. intros m Hm. cbn. unfold any; auto. Qed.
#[local] Hint Resolve keeps_emit keeps_emit_notef keeps_vcode_dump : invariant.

Lemma keeps_fail_fold : keeps any fail_fold.
Proof. unfold fail_fold. preserves_auto. Qed.
#[local] Hint Resolve keeps_fail_fold : invariant.

Lemma keeps_EVAL_WARN t fmt args : keeps any (EVAL_WARN_ t fmt args).
Proof. unfold EVAL_WARN_. preserves_auto. Qed.
#[local] Hint Resolve keeps_EVAL_WARN : invariant.

(** [eval_alloc] keeps the mark within the arena whatever the request:
    the new mark is a [size_t] that passed the test. *)
Lemma eval_alloc_bounded n s w :
  heap_bounded s -> heap_bounded (snd (fst (eval_alloc n s w))).
Proof.
  intros Hs. unfold eval_alloc.
  destruct (Z.ltb_spec EVAL_HEAP (C.size_t (halloc s + n))); cbn; [exact Hs|].
  unfold heap_bounded; cbn.
  pose proof (Z.mod_pos_bound (halloc s + n) (2 ^ 64)).
  unfold C.size_t in *. lia.
Qed.

Lemma keeps_alloc n : keeps any (alloc n).
Proof.
  intros m Hm. unfold alloc.
  pose proof (eval_alloc_bounded n (st m) (wd m) Hm) as Hb.
  destruct (eval_alloc n (st m) (wd m)) as [[p s] w].
  split; [exact Hb | exact I].
Qed.
#[local] Hint Resolve keeps_alloc : invariant.

Lemma keeps_get_field off : keeps any (get_field off).
Proof. intros m Hm. unfold get_field. destruct (_ !! _); cbn; unfold any; auto. Qed.
Lemma keeps_set_field off f : keeps any (set_field off f).
Proof. intros m Hm. unfold set_field. destruct (_ && _); cbn; unfold any; auto. Qed.
#[local] Hint Resolve keeps_get_field keeps_set_field : invariant.

Lemma keeps_get_scalar off : keeps any (get_scalar off).
Proof. unfold get_scalar. preserves_auto. Qed.
#[local] Hint Resolve keeps_get_scalar : invariant.
Lemma keeps_arena_offset p : keeps any (arena_offset p).
Proof. unfold arena_offset. preserves_auto. Qed.
#[local] Hint Resolve keeps_arena_offset : invariant.
Lemma keeps_get_kind p : keeps any (get_kind p).
Proof. unfold get_kind. preserves_auto. Qed.
Lemma keeps_get_payload p : keeps any (get_payload p).
Proof. unfold get_payload. preserves_auto. Qed.
Lemma keeps_update_slot p f : keeps any (update_slot p f).
Proof. unfold update_slot. preserves_auto. Qed.
#[local] Hint Resolve keeps_get_kind keeps_get_payload keeps_update_slot : invariant.

Lemma keeps_set_kind p k : keeps any (set_kind p k).
Proof. preserves_unfold. Qed.
Lemma keeps_set_payload p s : keeps any (set_payload p s).
Proof. preserves_unfold. Qed.
#[local] Hint Resolve keeps_set_kind keeps_set_payload : invariant.
Lemma keeps_get_integer p : keeps any (get_integer p).
Proof. preserves_unfold. Qed.
Lemma keeps_get_real p : keeps any (get_real p).
Proof. preserves_unfold. Qed.
Lemma keeps_get_pointer p : keeps any (get_pointer p).
Proof. preserves_unfold. Qed.
Lemma keeps_set_integer p z : keeps any (set_integer p z).
Proof. preserves_unfold. Qed.
Lemma keeps_set_real p z : keeps any (set_real p z).
Proof. preserves_unfold. Qed.
Lemma keeps_set_pointer p z : keeps any (set_pointer p z).
Proof. preserves_unfold. Qed.
Lemma keeps_load p : keeps any (load p).
Proof. preserves_unfold. Qed.
Lemma keeps_store p v : keeps any (store p v).
Proof. preserves_unfold. Qed.
Lemma keeps_ptr_add p i : keeps any (ptr_add p i).
Proof. preserves_unfold. Qed.
Lemma keeps_ua_get_int u f : keeps any (ua_get_int u f).
Proof. preserves_unfold. Qed.
Lemma keeps_ua_set_int u f z : keeps any (ua_set_int u f z).
Proof. preserves_unfold. Qed.
Lemma keeps_ua_get_data u : keeps any (ua_get_data u).
Proof. preserves_unfold. Qed.
Lemma keeps_ua_set_data u p : keeps any (ua_set_data u p).
Proof. preserves_unfold. Qed.
#[local] Hint Resolve keeps_get_integer keeps_get_real keeps_get_pointer
  keeps_set_integer keeps_set_real keeps_set_pointer keeps_load keeps_store
  keeps_ptr_add keeps_ua_get_int keeps_ua_set_int keeps_ua_get_data
  keeps_ua_set_data : invariant.

Lemma heap_bounded_nested_state c s :
  heap_bounded s -> heap_bounded (nested_state c s).
Proof. auto. Qed.
Lemma heap_bounded_set_heap h s' s :
  heap_bounded s' -> heap_bounded (set_heap h (halloc s') s).
Proof. auto. Qed.
#[local] Hint Resolve heap_bounded_nested_state heap_bounded_set_heap : invariant.

(** *** The vcode queries, comparison and messages *)

Lemma keeps_cur_unit : keeps any cur_unit.
Proof. preserves_unfold. Qed.
#[local] Hint Resolve keeps_cur_unit : invariant.

Lemma keeps_vcode_op op : keeps any (vcode_op op).
Proof. preserves_unfold. Qed.
#[local] Hint Resolve keeps_vcode_op : invariant.

Lemma keeps_vcode_count_ops : keeps any vcode_count_ops.
Proof. preserves_unfold. Qed.
#[local] Hint Resolve keeps_vcode_count_ops : invariant.

Lemma keeps_vcode_get_op op : keeps any (vcode_get_op op).
Proof. preserves_unfold. Qed.
#[local] Hint Resolve keeps_vcode_get_op : invariant.

Lemma keeps_vcode_get_result op : keeps any (vcode_get_result op).
Proof. preserves_unfold. Qed.
#[local] Hint Resolve keeps_vcode_get_result : invariant.

Lemma keeps_vcode_count_args op : keeps any (vcode_count_args op).
Proof. preserves_unfold. Qed.
#[local] Hint Resolve keeps_vcode_count_args : invariant.

Lemma keeps_vcode_get_arg op i : keeps any (vcode_get_arg op i).
Proof. preserves_unfold. Qed.
#[local] Hint Resolve keeps_vcode_get_arg : invariant.

Lemma keeps_vcode_get_value op : keeps any (vcode_get_value op).
Proof. preserves_unfold. Qed.
#[local] Hint Resolve keeps_vcode_get_value : invariant.

Lemma keeps_vcode_get_real op : keeps any (vcode_get_real op).
Proof. preserves_unfold. Qed.
#[local] Hint Resolve keeps_vcode_get_real : invariant.

Lemma keeps_vcode_get_cmp op : keeps any (vcode_get_cmp op).
Proof. preserves_unfold. Qed.
#[local] Hint Resolve keeps_vcode_get_cmp : invariant.

Lemma keeps_vcode_get_type op : keeps any (vcode_get_type op).
Proof. preserves_unfold. Qed.
#[local] Hint Resolve keeps_vcode_get_type : invariant.

Lemma keeps_vcode_get_target op i : keeps any (vcode_get_target op i).
Proof. preserves_unfold. Qed.
#[local] Hint Resolve keeps_vcode_get_target : invariant.

Lemma keeps_vcode_get_func op : keeps any (vcode_get_func op).
Proof. preserves_unfold. Qed.
#[local] Hint Resolve keeps_vcode_get_func : invariant.

Lemma keeps_vcode_get_bookmark op : keeps any (vcode_get_bookmark op).
Proof. preserves_unfold. Qed.
#[local] Hint Resolve keeps_vcode_get_bookmark : invariant.

Lemma keeps_vcode_get_subkind op : keeps any (vcode_get_subkind op).
Proof. preserves_unfold. Qed.
#[local] Hint Resolve keeps_vcode_get_subkind : invariant.

Lemma keeps_vcode_get_address op : keeps any (vcode_get_address op).
Proof. preserves_unfold. Qed.
#[local] Hint Resolve keeps_vcode_get_address : invariant.

Lemma keeps_vcode_get_dim op : keeps any (vcode_get_dim op).
Proof. preserves_unfold. Qed.
#[local] Hint Resolve keeps_vcode_get_dim : invariant.

Lemma keeps_vcode_count_regs : keeps any vcode_count_regs.
Proof. preserves_unfold. Qed.
#[local] Hint Resolve keeps_vcode_count_regs : invariant.

Lemma keeps_vcode_count_vars : keeps any vcode_count_vars.
Proof. preserves_unfold. Qed.
#[local] Hint Resolve keeps_vcode_count_vars : invariant.

Lemma keeps_vcode_unit_depth : keeps any vcode_unit_depth.
Proof. preserves_unfold. Qed.
#[local] Hint Resolve keeps_vcode_unit_depth : invariant.

Lemma keeps_vcode_unit_kind : keeps any vcode_unit_kind.
Proof. preserves_unfold. Qed.
#[local] Hint Resolve keeps_vcode_unit_kind : invariant.

Lemma keeps_vcode_unit_context : keeps any vcode_unit_context.
Proof. preserves_unfold. Qed.
#[local] Hint Resolve keeps_vcode_unit_context : invariant.

Lemma keeps_vcode_find_unit name : keeps any (vcode_find_unit name).
Proof. preserves_unfold. Qed.
#[local] Hint Resolve keeps_vcode_find_unit : invariant.

Lemma keeps_vcode_select_unit u : keeps any (vcode_select_unit u).
Proof. preserves_unfold. Qed.
#[local] Hint Resolve keeps_vcode_select_unit : invariant.

Lemma keeps_vcode_select_block b : keeps any (vcode_select_block b).
Proof. preserves_unfold. Qed.
#[local] Hint Resolve keeps_vcode_select_block : invariant.

Lemma keeps_vcode_state_save : keeps any vcode_state_save.
Proof. preserves_unfold. Qed.
#[local] Hint Resolve keeps_vcode_state_save : invariant.

Lemma keeps_vcode_state_restore v : keeps any (vcode_state_restore v).
Proof. preserves_unfold. Qed.
#[local] Hint Resolve keeps_vcode_state_restore : invariant.

Lemma keeps_ptr_diff p q : keeps any (ptr_diff p q).
Proof. preserves_unfold. Qed.
#[local] Hint Resolve keeps_ptr_diff : invariant.

Lemma keeps_eval_value_cmp lhs rhs : keeps any (eval_value_cmp lhs rhs).
Proof. preserves_unfold. Qed.
#[local] Hint Resolve keeps_eval_value_cmp : invariant.

Lemma keeps_read_chars n : forall i text, keeps any (read_chars n i text).
Proof. induction n as [|n IH]; intros; cbn [read_chars]; preserves_auto. Qed.
#[local] Hint Resolve keeps_read_chars : invariant.

Lemma keeps_eval_message text length severity loc prefix :
  keeps any (eval_message text length severity loc prefix).
Proof. preserves_unfold. Qed.
#[local] Hint Resolve keeps_eval_message : invariant.

Lemma keeps_eval_get_reg reg : keeps any (eval_get_reg reg).
Proof. preserves_unfold. Qed.
#[local] Hint Resolve keeps_eval_get_reg : invariant.

Lemma keeps_invalid_value_type {A} (post : A -> Prop) func :
  keeps post (invalid_value_type func).
Proof. apply preserves_die. Qed.
#[local] Hint Resolve keeps_invalid_value_type : invariant.

Lemma keeps_division_by_zero {A} (post : A -> Prop) : keeps post division_by_zero.
Proof.
  unfold division_by_zero. eapply preserves_bind; [apply keeps_get_state|].
  intros s _. apply preserves_die.
Qed.
#[local] Hint Resolve keeps_division_by_zero : invariant.

(** *** Constants, logic and arithmetic *)

Lemma keeps_eval_op_const op : keeps any (eval_op_const op).
Proof. preserves_unfold. Qed.
#[local] Hint Resolve keeps_eval_op_const : invariant.

Lemma keeps_eval_op_const_real op : keeps any (eval_op_const_real op).
Proof. preserves_unfold. Qed.
#[local] Hint Resolve keeps_eval_op_const_real : invariant.

Lemma keeps_eval_op_return op : keeps any (eval_op_return op).
Proof. preserves_unfold. Qed.
#[local] Hint Resolve keeps_eval_op_return : invariant.

Lemma keeps_dst_src op : keeps any (dst_src op).
Proof. preserves_unfold. Qed.
#[local] Hint Resolve keeps_dst_src : invariant.

Lemma keeps_dst_lhs_rhs op : keeps any (dst_lhs_rhs op).
Proof. preserves_unfold. Qed.
#[local] Hint Resolve keeps_dst_lhs_rhs : invariant.

Lemma keeps_eval_op_not op : keeps any (eval_op_not op).
Proof. preserves_unfold. Qed.
#[local] Hint Resolve keeps_eval_op_not : invariant.

Lemma keeps_int_binop dst lhs rhs f : keeps any (int_binop dst lhs rhs f).
Proof. preserves_unfold. Qed.
#[local] Hint Resolve keeps_int_binop : invariant.

Lemma keeps_real_binop dst lhs rhs f : keeps any (real_binop dst lhs rhs f).
Proof. preserves_unfold. Qed.
#[local] Hint Resolve keeps_real_binop : invariant.

Lemma keeps_eval_op_add op : keeps any (eval_op_add op).
Proof. preserves_unfold. Qed.
#[local] Hint Resolve keeps_eval_op_add : invariant.

Lemma keeps_eval_op_sub op : keeps any (eval_op_sub op).
Proof. preserves_unfold. Qed.
#[local] Hint Resolve keeps_eval_op_sub : invariant.

Lemma keeps_eval_op_mul op : keeps any (eval_op_mul op).
Proof. preserves_unfold. Qed.
#[local] Hint Resolve keeps_eval_op_mul : invariant.

Lemma keeps_int_divop dst lhs rhs f : keeps any (int_divop dst lhs rhs f).
Proof. preserves_unfold. Qed.
#[local] Hint Resolve keeps_int_divop : invariant.

Lemma keeps_eval_op_div op : keeps any (eval_op_div op).
Proof. preserves_unfold. Qed.
#[local] Hint Resolve keeps_eval_op_div : invariant.

Lemma keeps_eval_op_mod op : keeps any (eval_op_mod op).
Proof. preserves_unfold. Qed.
#[local] Hint Resolve keeps_eval_op_mod : invariant.

Lemma keeps_eval_op_rem op : keeps any (eval_op_rem op).
Proof. preserves_unfold. Qed.
#[local] Hint Resolve keeps_eval_op_rem : invariant.

(** *** Fresh contexts

    [eval_new_context] allocates the constrained arrays among the
    variables of the unit. *)

Lemma new_var_bounded var sw :
  state_bounded sw ->
  match new_var var sw with
  | Done _ sw' => state_bounded sw'
  | _ => True
  end.
Proof.
  intros H. unfold new_var. destruct sw as [[s|] w]; [|destruct H].
  destruct (vtype_kind (vcode_var_type var)); cbn [fst snd];
    try exact H; try exact I.
  pose proof (eval_alloc_bounded
                (C.size_t (C.sizeof_value_t * vtype_size (vcode_var_type var)))
                s w H) as Hb.
  destruct (eval_alloc _ s w) as [[p s'] w']. exact Hb.
Qed.

Lemma new_vars_bounded vs : forall sw,
  state_bounded sw ->
  match new_vars vs sw with
  | Done _ sw' => state_bounded sw'
  | _ => True
  end.
Proof.
  induction vs as [|var rest IH]; intros sw H; cbn [new_vars].
  - exact H.
  - unfold bind at 1. pose proof (new_var_bounded var sw H) as Hv.
    destruct (new_var var sw) as [v sw'| | |]; try exact I.
    unfold bind. specialize (IH sw' Hv).
    destruct (new_vars rest sw') as [r sw''| | |]; try exact I. exact IH.
Qed.

Lemma keeps_new_context : keeps any new_context.
Proof.
  intros m Hm. unfold new_context, eval_new_context. cbn [fst snd].
  destruct (vs_unit (selection (wd m))) as [u|]; [|exact I].
  unfold bind.
  pose proof (new_vars_bounded (unit_vars u) (Some (st m), wd m) Hm) as Hv.
  destruct (new_vars (unit_vars u) (Some (st m), wd m))
    as [vs [[s|] w]|d [o w]| |[o w]]; cbn; try exact I; try exact Hm.
  split; [exact Hv | exact I].
Qed.
#[local] Hint Resolve keeps_new_context : invariant.

(** *** The remaining handlers and the dispatch

    [rec] stands for [eval_vcode] in the handlers that re-enter it. *)

Section Invariant.

Variable X : collaborators.
Variable rec : M unit.
Hypothesis keeps_rec : keeps any rec.

(** A nested evaluation runs on a copy of the high-water mark and hands
    its final state back. *)
Lemma keeps_run_nested new :
  heap_bounded new -> keeps heap_bounded (run_nested rec new).
Proof. intros Hnew. unfold run_nested. preserves_auto. Qed.
#[local] Hint Resolve keeps_run_nested : invariant.

Lemma keeps_eval_op_exp op : keeps any (eval_op_exp X op).
Proof. preserves_unfold. Qed.
#[local] Hint Resolve keeps_eval_op_exp : invariant.

Lemma keeps_eval_op_cmp op : keeps any (eval_op_cmp op).
Proof. preserves_unfold. Qed.
#[local] Hint Resolve keeps_eval_op_cmp : invariant.

Lemma keeps_eval_op_cast op : keeps any (eval_op_cast op).
Proof. preserves_unfold. Qed.
#[local] Hint Resolve keeps_eval_op_cast : invariant.

Lemma keeps_eval_op_neg op : keeps any (eval_op_neg op).
Proof. preserves_unfold. Qed.
#[local] Hint Resolve keeps_eval_op_neg : invariant.

Lemma keeps_eval_op_abs op : keeps any (eval_op_abs op).
Proof. preserves_unfold. Qed.
#[local] Hint Resolve keeps_eval_op_abs : invariant.

Lemma keeps_vcode_read file : keeps any (vcode_read file).
Proof. preserves_unfold. Qed.
#[local] Hint Resolve keeps_vcode_read : invariant.

Lemma keeps_eval_load_vcode unit_ : keeps any (eval_load_vcode unit_).
Proof. preserves_unfold. Qed.
#[local] Hint Resolve keeps_eval_load_vcode : invariant.

Lemma keeps_eval_get_var_walk n :
  forall up, keeps any (eval_get_var_walk rec n up).
Proof. induction n as [|n IH]; intros; cbn [eval_get_var_walk]; preserves_auto. Qed.
#[local] Hint Resolve keeps_eval_get_var_walk : invariant.

Lemma keeps_eval_get_var var : keeps any (eval_get_var rec var).
Proof. preserves_unfold. Qed.
#[local] Hint Resolve keeps_eval_get_var : invariant.

Lemma keeps_fcall_params n : forall op i, keeps any (fcall_params op n i).
Proof. induction n as [|n IH]; intros; cbn [fcall_params]; preserves_auto. Qed.
#[local] Hint Resolve keeps_fcall_params : invariant.

Lemma keeps_bind_params params : forall i c, keeps any (bind_params params i c).
Proof. induction params as [|p rest IH]; intros; cbn [bind_params]; preserves_auto. Qed.
#[local] Hint Resolve keeps_bind_params : invariant.

Lemma keeps_fcall_from_library op func_name :
  keeps any (fcall_from_library op func_name).
Proof. preserves_unfold. Qed.
#[local] Hint Resolve keeps_fcall_from_library : invariant.

Lemma keeps_eval_op_fcall op : keeps any (eval_op_fcall rec op).
Proof. preserves_unfold. Qed.
#[local] Hint Resolve keeps_eval_op_fcall : invariant.

Lemma keeps_eval_op_bounds op : keeps any (eval_op_bounds op).
Proof. preserves_unfold. Qed.
#[local] Hint Resolve keeps_eval_op_bounds : invariant.

Lemma keeps_eval_op_dynamic_bounds op : keeps any (eval_op_dynamic_bounds op).
Proof. preserves_unfold. Qed.
#[local] Hint Resolve keeps_eval_op_dynamic_bounds : invariant.

Lemma keeps_eval_op_index_check op : keeps any (eval_op_index_check op).
Proof. preserves_unfold. Qed.
#[local] Hint Resolve keeps_eval_op_index_check : invariant.

Lemma keeps_const_array_fill n :
  forall op i dst, keeps any (const_array_fill op n i dst).
Proof. induction n as [|n IH]; intros; cbn [const_array_fill]; preserves_auto. Qed.
#[local] Hint Resolve keeps_const_array_fill : invariant.

Lemma keeps_eval_op_const_array op : keeps any (eval_op_const_array op).
Proof. preserves_unfold. Qed.
#[local] Hint Resolve keeps_eval_op_const_array : invariant.

Lemma keeps_check_dim i : keeps any (check_dim i).
Proof. preserves_unfold. Qed.
#[local] Hint Resolve keeps_check_dim : invariant.

Lemma keeps_wrap_dims n : forall op i dst, keeps any (wrap_dims op n i dst).
Proof. induction n as [|n IH]; intros; cbn [wrap_dims]; preserves_auto. Qed.
#[local] Hint Resolve keeps_wrap_dims : invariant.

Lemma keeps_eval_op_wrap op : keeps any (eval_op_wrap op).
Proof. preserves_unfold. Qed.
#[local] Hint Resolve keeps_eval_op_wrap : invariant.

Lemma keeps_eval_op_store op : keeps any (eval_op_store rec op).
Proof. preserves_unfold. Qed.
#[local] Hint Resolve keeps_eval_op_store : invariant.

Lemma keeps_eval_op_load op : keeps any (eval_op_load rec op).
Proof. preserves_unfold. Qed.
#[local] Hint Resolve keeps_eval_op_load : invariant.

Lemma keeps_eval_op_unwrap op : keeps any (eval_op_unwrap op).
Proof. preserves_unfold. Qed.
#[local] Hint Resolve keeps_eval_op_unwrap : invariant.

Lemma keeps_eval_op_uarray_len op : keeps any (eval_op_uarray_len op).
Proof. preserves_unfold. Qed.
#[local] Hint Resolve keeps_eval_op_uarray_len : invariant.

Lemma keeps_eval_op_uarray_dir op : keeps any (eval_op_uarray_dir op).
Proof. preserves_unfold. Qed.
#[local] Hint Resolve keeps_eval_op_uarray_dir : invariant.

Lemma keeps_memcmp_loop n :
  forall i dst lhs rhs, keeps any (memcmp_loop n i dst lhs rhs).
Proof. induction n as [|n IH]; intros; cbn [memcmp_loop]; preserves_auto. Qed.
#[local] Hint Resolve keeps_memcmp_loop : invariant.

Lemma keeps_eval_op_memcmp op : keeps any (eval_op_memcmp op).
Proof. preserves_unfold. Qed.
#[local] Hint Resolve keeps_eval_op_memcmp : invariant.

Lemma keeps_eval_op_and op : keeps any (eval_op_and op).
Proof. preserves_unfold. Qed.
#[local] Hint Resolve keeps_eval_op_and : invariant.

Lemma keeps_eval_op_or op : keeps any (eval_op_or op).
Proof. preserves_unfold. Qed.
#[local] Hint Resolve keeps_eval_op_or : invariant.

Lemma keeps_eval_op_jump op : keeps any (eval_op_jump rec op).
Proof. preserves_unfold. Qed.
#[local] Hint Resolve keeps_eval_op_jump : invariant.

Lemma keeps_eval_op_cond op : keeps any (eval_op_cond rec op).
Proof. preserves_unfold. Qed.
#[local] Hint Resolve keeps_eval_op_cond : invariant.

Lemma keeps_case_target n :
  forall op i test target, keeps any (case_target op n i test target).
Proof. induction n as [|n IH]; intros; cbn [case_target]; preserves_auto. Qed.
#[local] Hint Resolve keeps_case_target : invariant.

Lemma keeps_eval_op_case op : keeps any (eval_op_case rec op).
Proof. preserves_unfold. Qed.
#[local] Hint Resolve keeps_eval_op_case : invariant.

Lemma keeps_eval_op_undefined op : keeps any (eval_op_undefined op).
Proof. preserves_unfold. Qed.
#[local] Hint Resolve keeps_eval_op_undefined : invariant.

Lemma keeps_eval_op_nested_fcall op : keeps any (eval_op_nested_fcall op).
Proof. preserves_unfold. Qed.
#[local] Hint Resolve keeps_eval_op_nested_fcall : invariant.

Lemma keeps_eval_op_index op : keeps any (eval_op_index rec op).
Proof. preserves_unfold. Qed.
#[local] Hint Resolve keeps_eval_op_index : invariant.

Lemma keeps_eval_op_load_indirect op : keeps any (eval_op_load_indirect op).
Proof. preserves_unfold. Qed.
#[local] Hint Resolve keeps_eval_op_load_indirect : invariant.

Lemma keeps_eval_op_store_indirect op : keeps any (eval_op_store_indirect op).
Proof. preserves_unfold. Qed.
#[local] Hint Resolve keeps_eval_op_store_indirect : invariant.

Lemma keeps_copy_loop n : forall i dst src, keeps any (copy_loop n i dst src).
Proof. induction n as [|n IH]; intros; cbn [copy_loop]; preserves_auto. Qed.
#[local] Hint Resolve keeps_copy_loop : invariant.

Lemma keeps_eval_op_copy op : keeps any (eval_op_copy op).
Proof. preserves_unfold. Qed.
#[local] Hint Resolve keeps_eval_op_copy : invariant.

Lemma keeps_eval_op_select op : keeps any (eval_op_select op).
Proof. preserves_unfold. Qed.
#[local] Hint Resolve keeps_eval_op_select : invariant.

Lemma keeps_eval_op_alloca op : keeps any (eval_op_alloca op).
Proof. preserves_unfold. Qed.
#[local] Hint Resolve keeps_eval_op_alloca : invariant.

Lemma keeps_eval_op_uarray_left op : keeps any (eval_op_uarray_left op).
Proof. preserves_unfold. Qed.
#[local] Hint Resolve keeps_eval_op_uarray_left : invariant.

Lemma keeps_eval_op_uarray_right op : keeps any (eval_op_uarray_right op).
Proof. preserves_unfold. Qed.
#[local] Hint Resolve keeps_eval_op_uarray_right : invariant.

Lemma keeps_eval_op_report op : keeps any (eval_op_report op).
Proof. preserves_unfold. Qed.
#[local] Hint Resolve keeps_eval_op_report : invariant.

Lemma keeps_eval_op_assert op : keeps any (eval_op_assert op).
Proof. preserves_unfold. Qed.
#[local] Hint Resolve keeps_eval_op_assert : invariant.

Lemma keeps_buf_char text i : keeps any (buf_char text i).
Proof. preserves_unfold. Qed.
#[local] Hint Resolve keeps_buf_char : invariant.

Lemma keeps_image_fill n :
  forall text i dst, keeps any (image_fill text n i dst).
Proof. induction n as [|n IH]; intros; cbn [image_fill]; preserves_auto. Qed.
#[local] Hint Resolve keeps_image_fill : invariant.

Lemma keeps_eval_op_image op : keeps any (eval_op_image X op).
Proof. preserves_unfold. Qed.
#[local] Hint Resolve keeps_eval_op_image : invariant.

Lemma keeps_eval_dispatch i : keeps any (eval_dispatch X rec i).
Proof. preserves_unfold. Qed.
#[local] Hint Resolve keeps_eval_dispatch : invariant.

Lemma keeps_eval_vcode_loop n :
  forall i nops, keeps any (eval_vcode_loop X rec n i nops).
Proof. induction n as [|n IH]; intros; cbn [eval_vcode_loop]; preserves_auto. Qed.
#[local] Hint Resolve keeps_eval_vcode_loop : invariant.

Lemma keeps_eval_vcode_body : keeps any (eval_vcode_body X rec).
Proof. preserves_unfold. Qed.
#[local] Hint Resolve keeps_eval_vcode_body : invariant.

End Invariant.

Lemma keeps_eval_vcode X fuel : keeps any (eval_vcode X fuel).
Proof.
  induction fuel as [|n IH]; cbn [eval_vcode].
  - intros m Hm. exact Hm.
  - apply keeps_eval_vcode_body. exact IH.
Qed.

Lemma keeps_ends_bounded {A} (post : A -> Prop) (c : M A) m :
  keeps post c -> bounded m -> ends_bounded (c m).
Proof.
  intros Hc Hm. specialize (Hc m Hm). unfold ends_bounded.
  destruct (c m); try exact Hc. exact (proj1 Hc).
Qed.

Lemma alloc_cases n m :
  alloc n m
  = if EVAL_HEAP <? requested n m
    then Done NULL (refused n m)
    else Done (arena (halloc (st m))) (advanced n m).
Proof.
  unfold alloc, eval_alloc, refused, advanced, requested, exhaustion_warning.
  destruct (EVAL_HEAP <? C.size_t (halloc (st m) + n)).
  - destruct (has_flag (flags (st m)) EVAL_WARN); reflexivity.
  - destruct (heap (st m)); reflexivity.
Qed.



(** ** The image of a scalar (C9) *)

(** *** No handler step of the image op writes a register's tag *)

Lemma update_ancestor_regs up f : forall c c',
  (forall a, regs (f a) = regs a) ->
  update_ancestor up f c = Some c' -> regs c' = regs c.
Proof.
  destruct up as [|n]; intros c c' Hf H; cbn in H.
  - injection H as <-. apply Hf.
  - destruct (parent c) as [p|]; [|discriminate].
    destruct (update_ancestor n f p); [|discriminate].
    injection H as <-. reflexivity.
Qed.

Lemma slot_store_tags p v v' c c' :
  slot_value p c = Some v -> kind v' = kind v ->
  slot_store p v' c = Some c' ->
  map kind (regs c') = map kind (regs c).
Proof.
  intros Hv Hk Hs. destruct p as [|off|r|up i]; cbn in Hs; try discriminate.
  - injection Hs as <-. cbn [regs]. unfold update.
    cbn in Hv. unfold index in Hv.
    destruct (r <? 0); [discriminate|].
    change (map kind) with (fmap (M:=list) kind).
    rewrite list_fmap_insert. apply list_insert_id.
    rewrite list_lookup_fmap, Hv. cbn. congruence.
  - f_equal. eapply update_ancestor_regs; [|exact Hs]. reflexivity.
Qed.

Section Tags.

Variable m0 : machine.

Local Notation "'tagged'" := (preserves (same_tags m0)).

Lemma tagged_get_state :
  tagged (fun s => tags_of s = tags_of (st m0)) get_state.
Proof. intros m Hm. cbn. auto. Qed.

Lemma tagged_put_state s :
  tags_of s = tags_of (st m0) -> tagged any (put_state s).
Proof. intros H m Hm. cbn. unfold any. auto. Qed.

Lemma tagged_put_world w : tagged any (put_world w).
Proof. intros m Hm. cbn. unfold any; auto. Qed.

Lemma tagged_emit ch loc fmt args : tagged any (emit ch loc fmt args).
Proof. intros m Hm. cbn. unfold any; auto. Qed.

Lemma tags_set_failed b s :
  tags_of s = tags_of (st m0) -> tags_of (set_failed b s) = tags_of (st m0).
Proof. auto. Qed.

#[local] Hint Resolve tagged_get_state tagged_put_state tagged_put_world
  tagged_emit tags_set_failed : invariant.

Lemma tagged_fail_fold : tagged any fail_fold.
Proof. preserves_unfold. Qed.

Lemma tagged_alloc n : tagged non_slot (alloc n).
Proof.
  intros m Hm. unfold alloc, eval_alloc.
  destruct (_ <? _); cbn; split; auto; exact I.
Qed.

Lemma tagged_get_field off : tagged any (get_field off).
Proof. intros m Hm. unfold get_field. destruct (_ !! _); cbn; unfold any; auto. Qed.
Lemma tagged_set_field off f : tagged any (set_field off f).
Proof. intros m Hm. unfold set_field. destruct (_ && _); cbn; unfold any; auto. Qed.
#[local] Hint Resolve tagged_fail_fold tagged_alloc tagged_get_field
  tagged_set_field : invariant.

Lemma tagged_get_scalar off : tagged any (get_scalar off).
Proof. preserves_unfold. Qed.
Lemma tagged_arena_offset p : tagged any (arena_offset p).
Proof. preserves_unfold. Qed.
#[local] Hint Resolve tagged_get_scalar tagged_arena_offset : invariant.
Lemma tagged_get_payload p : tagged any (get_payload p).
Proof. preserves_unfold. Qed.
#[local] Hint Resolve tagged_get_payload : invariant.

Lemma tagged_update_slot p f :
  (forall v, kind (f v) = kind v) -> tagged any (update_slot p f).
Proof.
  intros Hf m Hm. unfold update_slot. cbv [bind get_state of_option].
  destruct (slot_value p (context (st m))) as [v|] eqn:Hv; [|exact I].
  cbn. destruct (slot_store p (f v) (context (st m))) as [c|] eqn:Hs; [|exact I].
  cbn. split; [|exact I]. unfold same_tags, tags_of in *. cbn.
  rewrite <- Hm. eapply slot_store_tags; eauto.
Qed.

Lemma tagged_set_payload p s : tagged any (set_payload p s).
Proof.
  unfold set_payload. destruct p; auto with invariant;
    apply tagged_update_slot; reflexivity.
Qed.
#[local] Hint Resolve tagged_set_payload : invariant.

(** A tag is stored through a pointer into the arena. *)
Lemma tagged_set_kind p k : non_slot p -> tagged any (set_kind p k).
Proof. intros Hp. destruct p; try destruct Hp; cbn; auto with invariant. Qed.

Lemma tagged_get_integer p : tagged any (get_integer p).
Proof. preserves_unfold. Qed.
Lemma tagged_get_real p : tagged any (get_real p).
Proof. preserves_unfold. Qed.
Lemma tagged_get_pointer p : tagged any (get_pointer p).
Proof. preserves_unfold. Qed.
Lemma tagged_set_integer p z : tagged any (set_integer p z).
Proof. preserves_unfold. Qed.
Lemma tagged_set_pointer p q : tagged any (set_pointer p q).
Proof. preserves_unfold. Qed.
Lemma tagged_ptr_add p i : tagged non_slot (ptr_add p i).
Proof.
  unfold ptr_add. destruct p; try apply preserves_undefined.
  - destruct (i =? 0); [apply preserves_ret; exact I | apply preserves_undefined].
  - apply preserves_ret. exact I.
Qed.
#[local] Hint Resolve tagged_get_integer tagged_get_real tagged_get_pointer
  tagged_set_integer tagged_set_pointer tagged_ptr_add : invariant.
Lemma tagged_ua_set_int u f z : tagged any (ua_set_int u f z).
Proof. preserves_unfold. Qed.
Lemma tagged_ua_get_data u : tagged any (ua_get_data u).
Proof. preserves_unfold. Qed.
Lemma tagged_ua_set_data u p : tagged any (ua_set_data u p).
Proof. preserves_unfold. Qed.
Lemma tagged_vcode_op op : tagged any (vcode_op op).
Proof. preserves_unfold. Qed.
#[local] Hint Resolve tagged_ua_set_int tagged_ua_get_data tagged_ua_set_data
  tagged_vcode_op : invariant.
Lemma tagged_vcode_get_arg op i : tagged any (vcode_get_arg op i).
Proof. preserves_unfold. Qed.
Lemma tagged_vcode_get_bookmark op : tagged any (vcode_get_bookmark op).
Proof. preserves_unfold. Qed.
Lemma tagged_vcode_get_result op : tagged any (vcode_get_result op).
Proof. preserves_unfold. Qed.
Lemma tagged_eval_get_reg r : tagged any (eval_get_reg r).
Proof. preserves_unfold. Qed.
Lemma tagged_buf_char text i : tagged any (buf_char text i).
Proof. preserves_unfold. Qed.
#[local] Hint Resolve tagged_vcode_get_arg tagged_vcode_get_bookmark
  tagged_vcode_get_result tagged_eval_get_reg tagged_buf_char : invariant.

Lemma tagged_image_fill text n : forall i dst, tagged any (image_fill text n i dst).
Proof.
  induction n as [|n IH]; intros i dst; cbn [image_fill].
  - apply preserves_ret. exact I.
  - eapply (preserves_bind _ any); [auto with invariant|]. intros u _.
    eapply (preserves_bind _ any); [auto with invariant|]. intros data _.
    eapply preserves_bind; [apply tagged_ptr_add|]. intros ch Hch.
    eapply (preserves_bind _ any); [apply tagged_set_kind, Hch|]. intros _ _.
    preserves_auto.
Qed.
#[local] Hint Resolve tagged_image_fill : invariant.

Lemma tagged_eval_op_image X op : tagged any (eval_op_image X op).
Proof. preserves_unfold. Qed.

End Tags.

Lemma reg_tag_tags m m' r :
  tags_of (st m') = tags_of (st m) -> reg_tag m' r = reg_tag m r.
Proof.
  intros H. unfold reg_tag, reg, index. destruct (r <? 0); [reflexivity|].
  unfold tags_of in H. change (map kind) with (fmap (M:=list) kind) in H.
  change (option_map kind) with (fmap (M:=option) kind).
  rewrite <- !list_lookup_fmap, H. reflexivity.
Qed.

(** C9 on the code.  [eval_op_image] never stores a tag in a register:
    on every machine on which it returns, each register, the result
    register among them, has the tag it had before.  So the image op of
    the Integer 40 into a fresh register builds what the claim describes
    in the arena: a descriptor with one dimension, left bound 1, right
    bound 2, ascending, whose data are the Integer cells '4' and '0';
    but the result register is still tagged [VALUE_INVALID], not
    [VALUE_UARRAY], and an op that checks the tag of its operand, as
    [eval_op_uarray_left] does, stops the process on its assertion. *)
Theorem image_result_is_not_tagged :
  (forall X op m m',
     eval_op_image X op m = Done tt m' ->
     forall r, reg_tag m' r = reg_tag m r)
  /\ (let X := Sample.X None in
      let m := Sample.image_machine in
      exists m',
        eval_op_image X 0 m = Done tt m'
        /\ reg m 1 = Some (VALUE VALUE_INVALID (S_integer 0))
        /\ reg m' 1 = Some (VALUE VALUE_INVALID (S_pointer (arena 0)))
        /\ failed (st m') = false
        /\ halloc (st m') = C.sizeof_uarray_t + 2 * C.sizeof_value_t
        /\ mem (wd m')
           = store_fields
               (descriptor_fields 0 (arena 112) [(1, 2, RANGE_TO)]
                ++ [(112, F_kind VALUE_INTEGER); (120, F_scalar (S_integer 52));
                    (128, F_kind VALUE_INTEGER); (136, F_scalar (S_integer 48))])
               ∅
        /\ eval_op_uarray_left 1 m'
           = Fatal (DIAG assert_fail None "array->kind == VALUE_UARRAY" []) m').
Proof.
  split.
  - intros X op m m' H r. apply reg_tag_tags.
    pose proof (tagged_eval_op_image m X op m eq_refl) as Hp.
    rewrite H in Hp. exact (proj1 Hp).
  - cbv zeta. eexists. split; [vm_compute; reflexivity|].
    repeat split; vm_compute; reflexivity.
Qed.

(** * Further properties *)

(** ** Division by zero *)

Lemma int_divop_by_zero m r ra rb va vb f :
  reg m ra = Some va -> reg m rb = Some vb ->
  as_integer (payload vb) = Some 0 ->
  int_divop (reg_slot r) (reg_slot ra) (reg_slot rb) f m
  = Fatal (division_by_zero_at m) m.
Proof.
  intros Ha Hb Hz. unfold int_divop.
  step (get_integer_reg _ _ _ 0 Hb Hz). reflexivity.
Qed.

(** An integer division, modulus or remainder by zero ends the process
    with "division by zero" reported at the call being folded; no
    register is written and [failed] is not set. *)
Theorem integer_division_by_zero_is_fatal (m : machine) (op : Z) (o : op_t)
  (ra rb a : Z) :
  op_at (wd m) op = Some o ->
  index 0 (op_args o) = Some ra ->
  index 1 (op_args o) = Some rb ->
  reg m ra = Some (Integer a) ->
  reg m rb = Some (Integer 0) ->
  eval_op_div op m = Fatal (division_by_zero_at m) m
  /\ eval_op_mod op m = Fatal (division_by_zero_at m) m
  /\ eval_op_rem op m = Fatal (division_by_zero_at m) m.
Proof.
  intros Hop Ha0 Ha1 Ha Hb. repeat split.
  - unfold eval_op_div. step (dst_lhs_rhs_at _ _ _ _ _ Hop Ha0 Ha1).
    step (get_kind_reg _ _ _ Ha).
    apply (int_divop_by_zero _ _ _ _ _ _ _ Ha Hb eq_refl).
  - unfold eval_op_mod. step (dst_lhs_rhs_at _ _ _ _ _ Hop Ha0 Ha1).
    step (get_kind_reg _ _ _ Ha).
    apply (int_divop_by_zero _ _ _ _ _ _ _ Ha Hb eq_refl).
  - unfold eval_op_rem. step (dst_lhs_rhs_at _ _ _ _ _ Hop Ha0 Ha1).
    step (get_kind_reg _ _ _ Ha).
    apply (int_divop_by_zero _ _ _ _ _ _ _ Ha Hb eq_refl).
Qed.

Lemma integer_division_by_zero_is_fatal_witness :
  let m := Sample.machine_of
             [Sample.op VCODE_OP_DIV 2 [0; 1]] [Integer 7; Integer 0; zero_value]
             0 in
  eval_op_div 0 m = Fatal (division_by_zero_at m) m
  /\ eval_op_mod 0 m = Fatal (division_by_zero_at m) m
  /\ eval_op_rem 0 m = Fatal (division_by_zero_at m) m.
Proof.
  intros m.
  apply (integer_division_by_zero_is_fatal m 0
           (Sample.op VCODE_OP_DIV 2 [0; 1]) 0 1 7); reflexivity.
Defined.

(** ** Comparison of Integers that are close *)

Lemma int_sub_close a b :
  - 2 ^ 31 <= a - b < 2 ^ 31 -> C.int (C.sub a b) = a - b.
Proof.
  intros H. unfold C.sub. rewrite int_of_int64.
  apply wrap_unique; [lia | exact H | reflexivity].
Qed.

Lemma eval_op_cmp_integers m op o ra rb v0 a b :
  op_at (wd m) op = Some o ->
  index 0 (op_args o) = Some ra ->
  index 1 (op_args o) = Some rb ->
  reg m (op_result o) = Some v0 ->
  reg m ra = Some (Integer a) ->
  reg m rb = Some (Integer b) ->
  forall r, compares (op_cmp o) (C.int (C.sub a b)) 0 = Some r ->
  eval_op_cmp op m = Done tt (write_reg (op_result o) (Integer (C.of_bool r)) m).
Proof.
  intros Hop Ha0 Ha1 Hr Ha Hb r Hc. unfold eval_op_cmp.
  step (dst_lhs_rhs_at _ _ _ _ _ Hop Ha0 Ha1).
  step (set_kind_reg _ _ _ VALUE_INTEGER Hr).
  set (m1 := write_reg _ _ m).
  assert (Hop1 : op_at (wd m1) op = Some o) by exact Hop.
  step (vcode_get_cmp_at _ _ _ Hop1).
  pose proof (reg_after_integer_tag _ _ _ _ _ Hr Ha) as Ha'.
  pose proof (reg_after_integer_tag _ _ _ _ _ Hr Hb) as Hb'.
  fold m1 in Ha', Hb'.
  pose proof (eval_value_cmp_integers _ _ _ _ _
                (holds_reg _ _ _ Ha') (holds_reg _ _ _ Hb')) as Hcmp.
  assert (Hset : forall z, set_integer (reg_slot (op_result o)) z m1
                           = Done tt (write_reg (op_result o) (Integer z) m)).
  { intros z. unfold set_integer.
    rewrite (set_payload_reg m1 _ _ _ (reg_write_reg_eq _ _ _ _ Hr)).
    unfold m1. rewrite write_reg_twice. reflexivity. }
  destruct (op_cmp o); cbn [compares] in Hc; try discriminate;
    injection Hc as <-; step Hcmp; rewrite Hset; try reflexivity.
Qed.

Lemma compares_difference c a b : compares c (a - b) 0 = compares c a b.
Proof.
  assert (He : (a - b =? 0) = (a =? b))
    by (destruct (Z.eqb_spec (a - b) 0), (Z.eqb_spec a b); try reflexivity; lia).
  destruct c; cbn [compares]; try reflexivity; apply (f_equal Some).
  - exact He.
  - rewrite He. reflexivity.
  - destruct (Z.ltb_spec (a - b) 0), (Z.ltb_spec a b); try reflexivity; lia.
  - destruct (Z.leb_spec (a - b) 0), (Z.leb_spec a b); try reflexivity; lia.
  - destruct (Z.ltb_spec 0 (a - b)), (Z.ltb_spec b a); try reflexivity; lia.
  - destruct (Z.leb_spec 0 (a - b)), (Z.leb_spec b a); try reflexivity; lia.
Qed.

(** For two Integers whose difference fits the 32-bit [int] that
    [eval_value_cmp] returns, the cmp op writes the truth value of the
    comparison, for each of the six comparison kinds. *)
Theorem cmp_of_close_integers (m : machine) (op : Z) (o : op_t)
  (ra rb a b : Z) (v0 : value_t) (r : bool) :
  op_at (wd m) op = Some o ->
  index 0 (op_args o) = Some ra ->
  index 1 (op_args o) = Some rb ->
  reg m (op_result o) = Some v0 ->
  reg m ra = Some (Integer a) ->
  reg m rb = Some (Integer b) ->
  - 2 ^ 31 <= a - b < 2 ^ 31 ->
  compares (op_cmp o) a b = Some r ->
  eval_op_cmp op m = Done tt (write_reg (op_result o) (Integer (C.of_bool r)) m).
Proof.
  intros Hop Ha0 Ha1 Hr Ha Hb Hclose Hc.
  apply (eval_op_cmp_integers m op o ra rb v0 a b); try assumption.
  rewrite (int_sub_close _ _ Hclose), compares_difference. exact Hc.
Qed.

Lemma cmp_of_close_integers_witness :
  let m := Sample.machine_of
             [Sample.with_cmp VCODE_CMP_LT (Sample.op VCODE_OP_CMP 2 [0; 1])]
             [Integer (-3); Integer 4; zero_value] 0 in
  eval_op_cmp 0 m = Done tt (write_reg 2 (Integer 1) m).
Proof.
  intros m.
  apply (cmp_of_close_integers m 0
           (Sample.with_cmp VCODE_CMP_LT (Sample.op VCODE_OP_CMP 2 [0; 1]))
           0 1 (-3) 4 zero_value true); try reflexivity. lia.
Defined.

(** ** Bounds checks *)

Lemma vcode_get_subkind_at m op o :
  op_at (wd m) op = Some o -> vcode_get_subkind op m = Done (op_subkind o) m.
Proof. intros H. unfold vcode_get_subkind. step (vcode_op_at _ _ _ H). reflexivity. Qed.



(** ** Index checks *)

(** An index check of the range [l .. h] against the limits
    [mn .. mx]: a null range passes; otherwise the fold fails when [l]
    is below [mn] or [h] above [mx].  The failure is silent: whatever
    the flags, no diagnostic is written and no error is counted. *)
Theorem index_check_fails_silently (m : machine) (op : Z) (o : op_t)
  (l h mn mx : Z) :
  op_at (wd m) op = Some o ->
  arg_integer m o 0 = Some l ->
  arg_integer m o 1 = Some h ->
  index_limits m o = Some (mn, mx) ->
  let out := (l <=? h) && ((l <? mn) || (mx <? h)) in
  eval_op_index_check op m = Done tt (if out then mark_failed true m else m)
  /\ wd (if out then mark_failed true m else m) = wd m.
Proof.
  intros Hop Hl Hh Hlim out. split; [|destruct out; reflexivity].
  destruct (arg_integer_inv _ _ _ _ Hl) as (rl & vl & Hil & Hrl & Hzl).
  destruct (arg_integer_inv _ _ _ _ Hh) as (rh & vh & Hih & Hrh & Hzh).
  unfold eval_op_index_check, eval_get_reg.
  step (vcode_get_arg_at _ _ _ _ _ Hop Hil). cbv [bind ret].
  rewrite (vcode_get_arg_at _ _ _ _ _ Hop Hih).
  rewrite (vcode_count_args_at _ _ _ Hop).
  unfold index_limits in Hlim.
  assert (Hend :
    (do h0 <- get_integer (reg_slot rh);
     do l0 <- get_integer (reg_slot rl);
     if h0 <? l0 then ret tt
     else if l0 <? mn then fail_fold
     else if mx <? h0 then fail_fold else ret tt) m
    = Done tt (if out then mark_failed true m else m)).
  { step (get_integer_reg _ _ _ _ Hrh Hzh).
    step (get_integer_reg _ _ _ _ Hrl Hzl).
    unfold out. rewrite (Z.leb_antisym h l).
    destruct (h <? l); [reflexivity|]. cbn [negb andb].
    destruct (l <? mn); [reflexivity|]. cbn [orb].
    destruct (mx <? h); reflexivity. }
  destruct (Z.of_nat (length (op_args o)) =? 2).
  - injection Hlim as <- <-.
    rewrite (vcode_get_type_at _ _ _ Hop). exact Hend.
  - destruct (arg_integer m o 2) as [mn'|] eqn:H2; [|discriminate].
    destruct (arg_integer m o 3) as [mx'|] eqn:H3; [|discriminate].
    injection Hlim as -> ->.
    destruct (arg_integer_inv _ _ _ _ H2) as (r2 & v2 & Hi2 & Hr2 & Hz2).
    destruct (arg_integer_inv _ _ _ _ H3) as (r3 & v3 & Hi3 & Hr3 & Hz3).
    rewrite (vcode_get_arg_at _ _ _ _ _ Hop Hi2).
    rewrite (get_integer_reg _ _ _ _ Hr2 Hz2).
    rewrite (vcode_get_arg_at _ _ _ _ _ Hop Hi3).
    rewrite (get_integer_reg _ _ _ _ Hr3 Hz3).
    exact Hend.
Qed.

Lemma index_check_fails_silently_witness :
  let o := Sample.op VCODE_OP_INDEX_CHECK (-1) [0; 1; 2; 3] in
  let m := Sample.machine_of [o]
             [Integer 0; Integer 3; Integer 1; Integer 8]
             (Z.lor EVAL_BOUNDS EVAL_WARN) in
  eval_op_index_check 0 m = Done tt (mark_failed true m)
  /\ wd (mark_failed true m) = wd m.
Proof.
  intros o m.
  exact (index_check_fails_silently m 0 o 0 3 1 8
           eq_refl eq_refl eq_refl eq_refl).
Defined.

(** ** Reports *)

(** A report op with the report flag writes its message through the
    function of the severity and leaves [failed] as it is, whatever the
    severity; without the flag it writes nothing and fails the fold. *)
Theorem report_needs_the_report_flag (m : machine) (op : Z) (o : op_t)
  (rs rx rl sev len : Z) (p : value_ptr) (cs : list Z) :
  op_at (wd m) op = Some o ->
  op_args o = [rs; rx; rl] ->
  reg m rs = Some (Integer sev) ->
  reg m rx = Some (Pointer p) ->
  reg m rl = Some (Integer len) ->
  SEVERITY_NOTE <= sev <= SEVERITY_FAILURE ->
  (0 < len -> read_chars (Z.to_nat len) 0 (reg_slot rx) m = Done cs m) ->
  let m' :=
    if has_flag (flags (st m)) EVAL_REPORT
    then logged (report_message (tree_loc (op_bookmark o)) sev len cs) m
    else mark_failed true m in
  eval_op_report op m = Done tt m'
  /\ (has_flag (flags (st m)) EVAL_REPORT = true ->
      failed (st m') = failed (st m))
  /\ (has_flag (flags (st m)) EVAL_REPORT = false ->
      failed (st m') = true /\ wd m' = wd m).
Proof.
  intros Hop Hargs Hs Hx Hl Hsev Hread m'.
  assert (Ha0 : index 0 (op_args o) = Some rs) by (rewrite Hargs; reflexivity).
  assert (Ha1 : index 1 (op_args o) = Some rx) by (rewrite Hargs; reflexivity).
  assert (Ha2 : index 2 (op_args o) = Some rl) by (rewrite Hargs; reflexivity).
  split; [|split].
  - unfold eval_op_report, eval_get_reg.
    step (vcode_get_arg_at _ _ _ _ _ Hop Ha1). cbv [bind ret].
    rewrite (vcode_get_arg_at _ _ _ _ _ Hop Ha2).
    rewrite (vcode_get_arg_at _ _ _ _ _ Hop Ha0).
    cbv [get_state]. unfold m'.
    destruct (has_flag (flags (st m)) EVAL_REPORT); [|reflexivity].
    rewrite (vcode_get_bookmark_at _ _ _ Hop).
    apply (eval_message_emits m _ _ _ _ _ p sev len cs
             (holds_reg _ _ _ Hx) (holds_reg _ _ _ Hl) (holds_reg _ _ _ Hs)
             Hsev Hread).
  - intros Hfl. unfold m'. rewrite Hfl. reflexivity.
  - intros Hfl. unfold m'. rewrite Hfl. split; reflexivity.
Qed.

Lemma report_needs_the_report_flag_witness :
  let m := Sample.report_machine EVAL_REPORT in
  eval_op_report 0 m
  = Done tt
      (logged (Emit (DIAG note_at (Some Sample.here) "%s %s: %s"
                       [A_str "Report"; A_str "Note"; A_str "no"])) m)
  /\ eval_op_report 0 (Sample.report_machine 0)
     = Done tt (mark_failed true (Sample.report_machine 0)).
Proof.
  intros m. split.
  - refine (proj1 (report_needs_the_report_flag m 0
                     (Sample.op VCODE_OP_REPORT (-1) [0; 1; 2]) 0 1 2
                     SEVERITY_NOTE 2 (arena 0) [110; 111]
                     eq_refl eq_refl eq_refl eq_refl eq_refl _ _)).
    + unfold SEVERITY_NOTE, SEVERITY_FAILURE. lia.
    + intros _. reflexivity.
  - refine (proj1 (report_needs_the_report_flag (Sample.report_machine 0) 0
                     (Sample.op VCODE_OP_REPORT (-1) [0; 1; 2]) 0 1 2
                     SEVERITY_NOTE 2 (arena 0) [110; 111]
                     eq_refl eq_refl eq_refl eq_refl eq_refl _ _)).
    + unfold SEVERITY_NOTE, SEVERITY_FAILURE. lia.
    + intros _. reflexivity.
Defined.

(** ** The first op that fails the fold ends the evaluation *)

Lemma eval_vcode_loop_failed X rec n i nops m :
  failed (st m) = true -> eval_vcode_loop X rec n i nops m = Done tt m.
Proof.
  intros Hf. destruct n as [|n]; [reflexivity|].
  cbn [eval_vcode_loop]. cbv [bind get_state]. rewrite Hf.
  rewrite andb_false_r. reflexivity.
Qed.

Lemma eval_op_undefined_fails m op :
  eval_op_undefined op m
  = Done tt (mark_failed true (warned (undefined_warning m) m)).
Proof.
  unfold eval_op_undefined, EVAL_WARN_, fail_fold, warned, undefined_warning.
  cbv [bind get_state put_state ret emit logged mark_failed].
  destruct (has_flag (flags (st m)) EVAL_WARN); reflexivity.
Qed.

(** A frame on a block whose first op is [undefined]: the op fails the
    fold and nothing after it is dispatched. *)
Lemma eval_vcode_body_undefined X rec m o rest :
  selected_block (wd m) = Some (o :: rest) ->
  op_kind o = VCODE_OP_UNDEFINED ->
  failed (st m) = false ->
  eval_vcode_body X rec m
  = Done tt (mark_failed true (warned (undefined_warning m) m)).
Proof.
  intros Hb Hk Hf. unfold eval_vcode_body.
  step (vcode_count_ops_at _ _ Hb).
  pose proof (op_at_head _ _ _ Hb) as Hop.
  cbn [length]. rewrite Nat2Z.id. cbn [eval_vcode_loop].
  cbv [bind get_state]. rewrite Hf.
  replace (0 <? Z.of_nat (S (length rest))) with true
    by (symmetry; apply Z.ltb_lt; lia).
  cbn [andb negb]. unfold eval_dispatch. cbv [bind].
  rewrite (vcode_get_op_at _ _ _ Hop), Hk.
  rewrite eval_op_undefined_fails. cbv [ret].
  apply eval_vcode_loop_failed. reflexivity.
Qed.



(** ** Allocations do not overlap *)

(** Two requests served one after the other get regions of the arena
    that do not overlap: the second starts where the first ends, and
    both lie within the [EVAL_HEAP] bytes. *)
Theorem successive_allocations_do_not_overlap (m m1 m2 : machine)
  (n1 n2 p1 p2 : Z) :
  bounded m ->
  0 <= n1 < 2 ^ 63 -> 0 <= n2 < 2 ^ 63 ->
  alloc n1 m = Done (arena p1) m1 ->
  alloc n2 m1 = Done (arena p2) m2 ->
  0 <= p1 /\ p1 + n1 = p2 /\ p2 + n2 <= EVAL_HEAP
  /\ halloc (st m2) = p2 + n2
  /\ failed (st m2) = failed (st m) /\ wd m2 = wd m.
Proof.
  intros Hm Hn1 Hn2 H1 H2. destruct Hm as [H0 Hmax].
  pose proof EVAL_HEAP_value as HE.
  rewrite alloc_cases in H1.
  assert (Hr1 : requested n1 m = halloc (st m) + n1)
    by (apply size_t_small; lia).
  rewrite Hr1 in H1.
  destruct (Z.ltb_spec EVAL_HEAP (halloc (st m) + n1)) as [|Hfit1];
    [discriminate|].
  injection H1 as <- <-.
  assert (Hh1 : halloc (st (advanced n1 m)) = halloc (st m) + n1) by exact Hr1.
  rewrite alloc_cases in H2.
  assert (Hr2 : requested n2 (advanced n1 m) = halloc (st m) + n1 + n2).
  { unfold requested at 1. rewrite Hh1. apply size_t_small. lia. }
  rewrite Hr2, Hh1 in H2.
  destruct (Z.ltb_spec EVAL_HEAP (halloc (st m) + n1 + n2)) as [|Hfit2];
    [discriminate|].
  injection H2 as <- <-.
  split; [exact H0|]. split; [reflexivity|]. split; [exact Hfit2|].
  split; [exact Hr2|]. split; reflexivity.
Qed.

Lemma successive_allocations_do_not_overlap_witness :
  let m := Sample.wrap_machine 1 4000 0 in
  exists m1 m2,
    alloc 32 m = Done (arena 4000) m1
    /\ alloc 64 m1 = Done (arena 4032) m2
    /\ halloc (st m2) = 4096.
Proof.
  intros m. eexists. eexists.
  assert (H1 : alloc 32 m = Done (arena 4000) (advanced 32 m)) by reflexivity.
  assert (H2 : alloc 64 (advanced 32 m) = Done (arena 4032) (advanced 64 (advanced 32 m)))
    by reflexivity.
  split; [exact H1|]. split; [exact H2|].
  assert (Hb : bounded m).
  { unfold bounded, heap_bounded. cbn. rewrite EVAL_HEAP_value. lia. }
  exact (proj1 (proj2 (proj2 (proj2
           (successive_allocations_do_not_overlap m _ _ 32 64 4000 4032 Hb
              ltac:(lia) ltac:(lia) H1 H2))))).
Defined.

(** ** Values in registers and in the arena *)

Lemma load_reg m r v : reg m r = Some v -> load (reg_slot r) m = Done v m.
Proof.
  intros H. unfold load. step (get_kind_reg _ _ _ H).
  step (get_payload_reg _ _ _ H). destruct v; reflexivity.
Qed.

Lemma store_reg m r v v0 :
  reg m r = Some v0 -> store (reg_slot r) v m = Done tt (write_reg r v m).
Proof.
  intros H. unfold store. step (set_kind_reg _ _ _ (kind v) H).
  rewrite (set_payload_reg _ _ _ _ (reg_write_reg_eq _ _ _ _ H)).
  rewrite write_reg_twice. destruct v; reflexivity.
Qed.

Lemma store_arena m p v :
  heap (st m) = true -> 0 <= p -> p + C.sizeof_value_t <= EVAL_HEAP ->
  store (arena p) v m = Done tt (write_value p v m).
Proof.
  intros Hh H0 Hfit. unfold C.sizeof_value_t in Hfit.
  unfold store, set_kind, set_payload.
  step (set_field_ok m p (F_kind (kind v)) Hh H0 ltac:(lia)).
  apply set_field_ok; [exact Hh | unfold off_payload; lia | unfold off_payload; lia].
Qed.

Lemma holds_write_value m p v : holds (write_value p v m) (arena p) v.
Proof.
  apply holds_cell; unfold cell, write_value, write_cell; cbn.
  - rewrite lookup_insert_ne by (unfold off_payload; lia).
    apply lookup_insert_eq.
  - apply lookup_insert_eq.
Qed.

Lemma holds_load m p v : holds m p v -> load p m = Done v m.
Proof.
  intros [Hk Hp]. unfold load. step Hk. step Hp. destruct v; reflexivity.
Qed.

(** What is stored through a pointer into the arena is what a load
    through the same pointer reads back, tag and payload. *)
Theorem store_indirect_then_load_indirect (m : machine) (op1 op2 : Z)
  (o1 o2 : op_t) (rv rp p : Z) (v v0 : value_t) :
  op_at (wd m) op1 = Some o1 ->
  op_at (wd m) op2 = Some o2 ->
  index 0 (op_args o1) = Some rv ->
  index 1 (op_args o1) = Some rp ->
  index 0 (op_args o2) = Some rp ->
  reg m rv = Some v ->
  reg m rp = Some (Pointer (arena p)) ->
  reg m (op_result o2) = Some v0 ->
  heap (st m) = true -> 0 <= p -> p + C.sizeof_value_t <= EVAL_HEAP ->
  let m1 := write_value p v m in
  eval_op_store_indirect op1 m = Done tt m1
  /\ eval_op_load_indirect op2 m1 = Done tt (write_reg (op_result o2) v m1).
Proof.
  intros Hop1 Hop2 Hv0 Hp1 Hp2 Hv Hp Hd Hh H0 Hfit m1. split.
  - unfold eval_op_store_indirect, eval_get_reg.
    step (vcode_get_arg_at _ _ _ _ _ Hop1 Hp1). cbv [bind ret].
    rewrite (vcode_get_arg_at _ _ _ _ _ Hop1 Hv0).
    rewrite (get_kind_reg _ _ _ Hp). cbn [kind Pointer kind_eqb c_assert ret].
    rewrite (get_pointer_reg _ _ _ (arena p) Hp eq_refl).
    rewrite (load_reg _ _ _ Hv).
    apply store_arena; assumption.
  - assert (Hop2' : op_at (wd m1) op2 = Some o2) by exact Hop2.
    assert (Hp' : reg m1 rp = Some (Pointer (arena p))) by exact Hp.
    assert (Hd' : reg m1 (op_result o2) = Some v0) by exact Hd.
    unfold eval_op_load_indirect.
    step (dst_src_at _ _ _ _ Hop2' Hp2).
    step (get_kind_reg _ _ _ Hp'). cbv [kind_eqb c_assert bind ret].
    rewrite (get_pointer_reg _ _ _ (arena p) Hp' eq_refl).
    rewrite (holds_load m1 _ _ (holds_write_value m p v)).
    apply (store_reg _ _ _ _ Hd').
Qed.

Lemma store_indirect_then_load_indirect_witness :
  let m := Sample.indirect_machine in
  let m1 := write_value 16 (Integer 7) m in
  eval_op_store_indirect 0 m = Done tt m1
  /\ eval_op_load_indirect 1 m1 = Done tt (write_reg 2 (Integer 7) m1).
Proof.
  intros m m1.
  refine (store_indirect_then_load_indirect m 0 1
            (Sample.op VCODE_OP_STORE_INDIRECT (-1) [0; 1])
            (Sample.op VCODE_OP_LOAD_INDIRECT 2 [1])
            0 1 16 (Integer 7) zero_value
            eq_refl eq_refl eq_refl eq_refl eq_refl eq_refl eq_refl eq_refl
            eq_refl _ _).
  - lia.
  - unfold C.sizeof_value_t. rewrite EVAL_HEAP_value. lia.
Defined.

(** ** Variables *)

Lemma vcode_get_address_at m op o :
  op_at (wd m) op = Some o -> vcode_get_address op m = Done (op_address o) m.
Proof. intros H. unfold vcode_get_address. step (vcode_op_at _ _ _ H). reflexivity. Qed.

Lemma op_at_unit w op o : op_at w op = Some o -> exists u, vs_unit (selection w) = Some u.
Proof.
  unfold op_at, selected_block. destruct (vs_unit (selection w)) as [u|]; [eauto|discriminate].
Qed.

Lemma get_kind_var m i v :
  var m i = Some v -> get_kind (var_slot 0 i) m = Done (kind v) m.
Proof.
  unfold var, get_kind. intros H.
  cbv [bind get_state of_option slot_value ancestor ret]. rewrite H. reflexivity.
Qed.

Lemma get_payload_var m i v :
  var m i = Some v -> get_payload (var_slot 0 i) m = Done (payload v) m.
Proof.
  unfold var, get_payload. intros H.
  cbv [bind get_state of_option slot_value ancestor ret]. rewrite H. reflexivity.
Qed.

Lemma load_var m i v : var m i = Some v -> load (var_slot 0 i) m = Done v m.
Proof.
  intros H. unfold load. step (get_kind_var _ _ _ H).
  step (get_payload_var _ _ _ H). destruct v; reflexivity.
Qed.

Lemma var_write_var m i v v0 : var m i = Some v0 -> var (write_var i v m) i = Some v.
Proof. unfold var, write_var. cbn. apply index_update_eq. Qed.

Lemma update_var m i f v0 :
  var m i = Some v0 ->
  update_slot (var_slot 0 i) f m = Done tt (write_var i (f v0) m).
Proof.
  unfold var, update_slot. intros H.
  cbv [bind get_state of_option slot_value slot_store ancestor update_ancestor
       ret put_state]. rewrite H. reflexivity.
Qed.

Lemma write_var_twice m i v v' :
  write_var i v' (write_var i v m) = write_var i v' m.
Proof.
  unfold write_var. cbn. unfold set_context. cbn.
  rewrite update_update. reflexivity.
Qed.

Lemma store_var m i v v0 :
  var m i = Some v0 -> store (var_slot 0 i) v m = Done tt (write_var i v m).
Proof.
  intros H. unfold store, set_kind, set_payload.
  step (update_var m i (fun v1 => VALUE (kind v) (payload v1)) v0 H).
  rewrite (update_var _ i _ _ (var_write_var _ _ _ _ H)).
  rewrite write_var_twice. destruct v; reflexivity.
Qed.

(** A variable declared at the depth of the selected unit, or deeper,
    is a variable of the current context. *)
Lemma eval_get_var_local rec m u a :
  vs_unit (selection (wd m)) = Some u ->
  vcode_var_extern a = false ->
  (unit_depth u <= vcode_var_context a)%nat ->
  eval_get_var rec a m = Done (var_slot 0 (vcode_var_index a)) m.
Proof.
  intros Hu He Hd. unfold eval_get_var. rewrite He.
  unfold vcode_unit_depth, cur_unit. cbv [bind get_world of_option ret].
  rewrite Hu. replace (unit_depth u - vcode_var_context a)%nat with O by lia.
  reflexivity.
Qed.

Lemma eval_get_var_extern rec m a :
  vcode_var_extern a = true ->
  eval_get_var rec a m = Done NULL (mark_failed true m).
Proof. intros He. unfold eval_get_var. rewrite He. reflexivity. Qed.

(** What a store op puts in a variable of the current unit is what a
    load op of the same variable reads back into its result register. *)
Theorem store_then_load_of_a_variable (rec : M unit) (m : machine)
  (op1 op2 : Z) (o1 o2 : op_t) (u : vcode_unit_t) (a : vcode_var_t) (rs : Z)
  (v v0 vd : value_t) :
  op_at (wd m) op1 = Some o1 ->
  op_at (wd m) op2 = Some o2 ->
  vs_unit (selection (wd m)) = Some u ->
  op_address o1 = a -> op_address o2 = a ->
  vcode_var_extern a = false ->
  (unit_depth u <= vcode_var_context a)%nat ->
  index 0 (op_args o1) = Some rs ->
  reg m rs = Some v ->
  var m (vcode_var_index a) = Some v0 ->
  reg m (op_result o2) = Some vd ->
  let m1 := write_var (vcode_var_index a) v m in
  eval_op_store rec op1 m = Done tt m1
  /\ eval_op_load rec op2 m1 = Done tt (write_reg (op_result o2) v m1).
Proof.
  intros Hop1 Hop2 Hu Ha1 Ha2 He Hd Hs Hv Hv0 Hvd m1. split.
  - unfold eval_op_store, eval_get_reg.
    step (vcode_get_arg_at _ _ _ _ _ Hop1 Hs). cbv [bind ret].
    rewrite (vcode_get_address_at _ _ _ Hop1), Ha1.
    rewrite (eval_get_var_local rec m u a Hu He Hd). cbn [is_null].
    rewrite (load_reg _ _ _ Hv). apply (store_var _ _ _ _ Hv0).
  - assert (Hop2' : op_at (wd m1) op2 = Some o2) by exact Hop2.
    assert (Hu' : vs_unit (selection (wd m1)) = Some u) by exact Hu.
    assert (Hvd' : reg m1 (op_result o2) = Some vd) by exact Hvd.
    assert (Hv1 : var m1 (vcode_var_index a) = Some v).
    { apply (var_write_var _ _ _ _ Hv0). }
    unfold eval_op_load, eval_get_reg.
    step (vcode_get_result_at _ _ _ Hop2'). cbv [bind ret].
    rewrite (vcode_get_address_at _ _ _ Hop2'), Ha2.
    rewrite (eval_get_var_local rec m1 u a Hu' He Hd). cbn [is_null].
    rewrite (load_var _ _ _ Hv1). apply (store_reg _ _ _ _ Hvd').
Qed.

Lemma store_then_load_of_a_variable_witness :
  let m := Sample.var_machine in
  let m1 := write_var 0 (Integer 7) m in
  eval_op_store (ret tt) 0 m = Done tt m1
  /\ eval_op_load (ret tt) 1 m1 = Done tt (write_reg 1 (Integer 7) m1).
Proof.
  intros m m1.
  refine (store_then_load_of_a_variable (ret tt) m 0 1
            (Sample.with_address (Sample.int_var 0) (Sample.op VCODE_OP_STORE (-1) [0]))
            (Sample.with_address (Sample.int_var 0) (Sample.op VCODE_OP_LOAD 1 []))
            Sample.var_unit (Sample.int_var 0) 0 (Integer 7) (Integer 0)
            zero_value eq_refl eq_refl eq_refl eq_refl eq_refl eq_refl _
            eq_refl eq_refl eq_refl eq_refl).
  cbn. lia.
Defined.

(** A load, a store or an index op on an external variable fails the
    fold: nothing is read or written through the null pointer that
    [eval_get_var] returns, and no diagnostic is written. *)
Theorem external_variable_fails_the_fold (rec : M unit) (m : machine)
  (op : Z) (o : op_t) (rs : Z) :
  op_at (wd m) op = Some o ->
  index 0 (op_args o) = Some rs ->
  vcode_var_extern (op_address o) = true ->
  eval_op_load rec op m = Done tt (mark_failed true m)
  /\ eval_op_store rec op m = Done tt (mark_failed true m)
  /\ eval_op_index rec op m = Done tt (mark_failed true m).
Proof.
  intros Hop Hs He.
  assert (Hg : forall m', eval_get_var rec (op_address o) m'
                          = Done NULL (mark_failed true m'))
    by (intros m'; apply eval_get_var_extern, He).
  repeat split.
  - unfold eval_op_load, eval_get_reg.
    step (vcode_get_result_at _ _ _ Hop). cbv [bind ret].
    rewrite (vcode_get_address_at _ _ _ Hop). cbv beta iota.
    rewrite Hg. reflexivity.
  - unfold eval_op_store, eval_get_reg.
    step (vcode_get_arg_at _ _ _ _ _ Hop Hs). cbv [bind ret].
    rewrite (vcode_get_address_at _ _ _ Hop). cbv beta iota.
    rewrite Hg. reflexivity.
  - unfold eval_op_index.
    step (vcode_get_address_at _ _ _ Hop). cbv [bind]. rewrite Hg. reflexivity.
Qed.

Lemma external_variable_fails_the_fold_witness :
  let m := Sample.var_machine in
  eval_op_load (ret tt) 2 m = Done tt (mark_failed true m)
  /\ eval_op_store (ret tt) 2 m = Done tt (mark_failed true m)
  /\ eval_op_index (ret tt) 2 m = Done tt (mark_failed true m).
Proof.
  intros m.
  exact (external_variable_fails_the_fold (ret tt) m 2
           (Sample.with_address Sample.extern_var (Sample.op VCODE_OP_LOAD 1 [0]))
           0 eq_refl eq_refl eq_refl).
Defined.

(** ** Fresh contexts *)

Lemma new_vars_initial vs : forall sw ivs,
  mapM initial_value vs = Some ivs -> new_vars vs sw = Done ivs sw.
Proof.
  induction vs as [|v rest IH]; intros sw ivs H.
  - injection H as <-. reflexivity.
  - cbn [mapM] in H. unfold mbind, option_bind in H.
    destruct (initial_value v) as [iv|] eqn:Hv; [|discriminate].
    cbn in H. destruct (mapM initial_value rest) as [irest|] eqn:Hr; [|discriminate].
    injection H as <-. cbn [new_vars].
    assert (Hnv : new_var v sw = Done iv sw).
    { unfold new_var. unfold initial_value in Hv.
      destruct (vtype_kind (vcode_var_type v)); try discriminate;
        injection Hv as <-; reflexivity. }
    unfold bind at 1. rewrite Hnv. unfold bind. rewrite (IH sw irest eq_refl).
    reflexivity.
Qed.

Lemma eval_new_context_initial (o : option eval_state_t) (w : world)
  (u : vcode_unit_t) (ivs : list value_t) :
  vs_unit (selection w) = Some u ->
  mapM initial_value (unit_vars u) = Some ivs ->
  eval_new_context (o, w)
  = Done (CONTEXT None (replicate (unit_nregs u) zero_value) ivs) (o, w).
Proof.
  intros Hu Hv. unfold eval_new_context. cbn [fst snd]. rewrite Hu.
  unfold bind. rewrite (new_vars_initial _ _ _ Hv). reflexivity.
Qed.

(** For a unit none of whose variables is a constrained array (each is
    an integer, a real or an unconstrained array), [eval_new_context]
    asks for no memory: it returns a context without parent, with
    [nregs] zeroed registers and every variable at its initial value,
    and leaves the state and the world as they are, also when the state
    pointer is null as in the root call of [eval]. *)
Theorem new_context_without_arrays (o : option eval_state_t) (w : world)
  (u : vcode_unit_t) (ivs : list value_t) :
  vs_unit (selection w) = Some u ->
  mapM initial_value (unit_vars u) = Some ivs ->
  eval_new_context (o, w)
  = Done (CONTEXT None (replicate (unit_nregs u) zero_value) ivs) (o, w)
  /\ length ivs = length (unit_vars u).
Proof.
  intros Hu Hv. split.
  - apply eval_new_context_initial; assumption.
  - symmetry. eapply length_mapM. exact Hv.
Qed.

Lemma new_context_without_arrays_witness :
  eval_new_context
    (None, select_unit (Some Sample.var_unit) (Sample.world0 []))
  = Done (CONTEXT None [zero_value; zero_value] [Integer 0])
      (None, select_unit (Some Sample.var_unit) (Sample.world0 []))
  /\ length [Integer 0] = length (unit_vars Sample.var_unit).
Proof.
  exact (new_context_without_arrays None
           (select_unit (Some Sample.var_unit) (Sample.world0 []))
           Sample.var_unit [Integer 0] eq_refl eq_refl).
Defined.

(** ** The length of a dimension *)

Lemma ua_get_int_cell m u f z :
  cell m (f u) = Some (F_scalar (S_integer z)) ->
  ua_get_int (arena u) f m = Done z m.
Proof.
  unfold cell, ua_get_int, get_scalar, get_field. intros H.
  cbv [arena_offset bind ret]. rewrite H. reflexivity.
Qed.

Lemma check_dim_ok dim m : 0 <= dim < MAX_DIMS -> check_dim dim m = Done tt m.
Proof.
  intros H. unfold check_dim.
  destruct (Z.leb_spec 0 dim); [|lia].
  destruct (Z.ltb_spec dim MAX_DIMS); [|lia]. reflexivity.
Qed.

Lemma vcode_get_dim_at m op o :
  op_at (wd m) op = Some o -> vcode_get_dim op m = Done (op_dim o) m.
Proof. intros H. unfold vcode_get_dim. step (vcode_op_at _ _ _ H). reflexivity. Qed.

(** The length op of a dimension whose bounds are within 2^61 in magnitude: the
    result is the number of elements of the range in its direction, and
    0, never a negative number, when the range is null. *)
Theorem uarray_len_counts_the_range (m : machine) (op : Z) (o : op_t)
  (ra u left right dir : Z) (v v0 : value_t) :
  op_at (wd m) op = Some o ->
  index 0 (op_args o) = Some ra ->
  reg m ra = Some v ->
  as_pointer (payload v) = Some (arena u) ->
  reg m (op_result o) = Some v0 ->
  0 <= op_dim o < MAX_DIMS ->
  dimension_at m u (op_dim o) left right dir ->
  - 2 ^ 61 <= left <= 2 ^ 61 -> - 2 ^ 61 <= right <= 2 ^ 61 ->
  eval_op_uarray_len op m
  = Done tt (write_reg (op_result o) (Integer (range_length left right dir)) m)
  /\ 0 <= range_length left right dir.
Proof.
  intros Hop Ha0 Ha Hp Hr Hd (Hl & Hrg & Hdir) Hbl Hbr.
  split; [|unfold range_length; lia].
  unfold eval_op_uarray_len.
  step (dst_src_at _ _ _ _ Hop Ha0).
  step (vcode_get_dim_at _ _ _ Hop).
  step (check_dim_ok _ m Hd).
  step (get_pointer_reg _ _ _ _ Ha Hp).
  step (ua_get_int_cell m u (fun p => off_left p (op_dim o)) left Hl).
  step (ua_get_int_cell m u (fun p => off_right p (op_dim o)) right Hrg).
  step (ua_get_int_cell m u (fun p => off_dir p (op_dim o)) dir Hdir).
  step (set_kind_reg _ _ _ VALUE_INTEGER Hr). unfold set_integer.
  rewrite (set_payload_reg _ _ _ _ (reg_write_reg_eq _ _ _ _ Hr)).
  rewrite write_reg_twice. cbn [kind].
  assert (Hlen : Z.max
                   (C.add (if dir =? RANGE_TO then C.sub right left
                           else C.sub left right) 1) 0
                 = range_length left right dir).
  { unfold range_length, C.add, C.sub.
    assert (Hs : forall z, - 2 ^ 63 <= z < 2 ^ 63 -> C.int64 z = z)
      by (intros z Hz; apply int64_small, in_int64_bounds, Hz).
    destruct (dir =? RANGE_TO); rewrite (Hs (_ - _)) by lia;
      rewrite Hs by lia; lia. }
  rewrite Hlen. reflexivity.
Qed.

Lemma uarray_len_counts_the_range_witness :
  let m := Sample.len_machine in
  eval_op_uarray_len 0 m = Done tt (write_reg 1 (Integer 0) m)
  /\ 0 <= range_length 5 8 RANGE_DOWNTO.
Proof.
  intros m.
  refine (uarray_len_counts_the_range m 0
            (Sample.op VCODE_OP_UARRAY_LEN 1 [0]) 0 0 5 8 RANGE_DOWNTO
            (VALUE VALUE_UARRAY (S_pointer (arena 0))) zero_value
            eq_refl eq_refl eq_refl eq_refl eq_refl _ _ _ _).
  - unfold MAX_DIMS. cbn. lia.
  - repeat split.
  - lia.
  - lia.
Defined.

(** ** Comparing two buffers *)

Lemma integers_at_frame m m' p xs : forall i,
  mem (wd m') = mem (wd m) -> integers_at m p i xs -> integers_at m' p i xs.
Proof.
  induction xs as [|x rest IH]; intros i Hm; [trivial|].
  cbn [integers_at]. intros [Hx Hrest]. split.
  - eapply holds_arena_frame; eauto.
  - apply IH; assumption.
Qed.

(** The loop of [eval_op_memcmp] over two buffers of Integers, when the
    result register already holds 1. *)
Lemma memcmp_loop_integers rd rl rr pl pr (xs : list Z) :
  forall (ys : list Z) (i : Z) (m : machine),
    length ys = length xs ->
    rd <> rl -> rd <> rr ->
    reg m rd = Some (Integer 1) ->
    reg m rl = Some (Pointer (arena pl)) ->
    reg m rr = Some (Pointer (arena pr)) ->
    integers_at m pl i xs -> integers_at m pr i ys ->
    memcmp_loop (length xs) i (reg_slot rd) (reg_slot rl) (reg_slot rr) m
    = Done tt (if same_integers xs ys then m
               else write_reg rd (Integer 0) m).
Proof.
  induction xs as [|x rest IH]; intros ys i m Hlen Hnl Hnr Hd Hl Hr Hxs Hys.
  - reflexivity.
  - destruct ys as [|y ys']; [discriminate|].
    cbn [length memcmp_loop same_integers].
    destruct Hxs as [Hx Hxs]. destruct Hys as [Hy Hys].
    cbv [bind].
    rewrite (get_pointer_reg _ _ _ (arena pl) Hl eq_refl). cbn [ptr_add ret].
    rewrite (get_pointer_reg _ _ _ (arena pr) Hr eq_refl). cbn [ptr_add ret].
    rewrite (eval_value_cmp_integers _ _ _ _ _ Hx Hy).
    destruct (C.int (C.sub x y) =? 0); cbn [negb andb].
    + apply IH; try assumption. injection Hlen as ->. reflexivity.
    + unfold set_integer. rewrite (set_payload_reg _ _ _ _ Hd). reflexivity.
Qed.

Lemma same_integers_refl xs : same_integers xs xs = true.
Proof.
  induction xs as [|x rest IH]; [reflexivity|]. cbn [same_integers].
  rewrite IH. unfold C.sub. rewrite Z.sub_diag. reflexivity.
Qed.

(** The memcmp op over two buffers of [n] Integers writes 1 when every
    pair of cells compares equal and 0 otherwise, whatever was in the
    result register; it writes 1 for two buffers with the same contents,
    and for any two buffers when the length is zero. *)
Theorem memcmp_of_integer_buffers (m : machine) (op : Z) (o : op_t)
  (rl rr rn pl pr : Z) (v0 : value_t) (xs ys : list Z) :
  op_at (wd m) op = Some o ->
  op_args o = [rl; rr; rn] ->
  op_result o <> rl -> op_result o <> rr -> op_result o <> rn ->
  reg m (op_result o) = Some v0 ->
  reg m rl = Some (Pointer (arena pl)) ->
  reg m rr = Some (Pointer (arena pr)) ->
  reg m rn = Some (Integer (Z.of_nat (length xs))) ->
  length ys = length xs ->
  integers_at m pl 0 xs -> integers_at m pr 0 ys ->
  eval_op_memcmp op m
  = Done tt (write_reg (op_result o)
               (Integer (C.of_bool (same_integers xs ys))) m)
  /\ (xs = ys -> same_integers xs ys = true)
  /\ (xs = [] -> same_integers xs ys = true).
Proof.
  intros Hop Hargs Hnl Hnr Hnn Hr Hl Hrr Hn Hlen Hxs Hys.
  split; [|split; [intros <-; apply same_integers_refl | intros ->; reflexivity]].
  unfold eval_op_memcmp.
  assert (Ha0 : index 0 (op_args o) = Some rl) by (rewrite Hargs; reflexivity).
  assert (Ha1 : index 1 (op_args o) = Some rr) by (rewrite Hargs; reflexivity).
  assert (Ha2 : index 2 (op_args o) = Some rn) by (rewrite Hargs; reflexivity).
  step (dst_lhs_rhs_at _ _ _ _ _ Hop Ha0 Ha1).
  step (vcode_get_arg_at _ _ _ _ _ Hop Ha2). unfold eval_get_reg. cbv [bind ret].
  rewrite (set_kind_reg _ _ _ VALUE_INTEGER Hr). unfold set_integer.
  rewrite (set_payload_reg _ _ _ _ (reg_write_reg_eq _ _ _ _ Hr)).
  rewrite write_reg_twice. cbn [kind].
  set (m2 := write_reg _ _ m).
  assert (Hd2 : reg m2 (op_result o) = Some (Integer 1))
    by (apply (reg_write_reg_eq _ _ _ _ Hr)).
  assert (Hl2 : reg m2 rl = Some (Pointer (arena pl)))
    by (unfold m2; rewrite (reg_write_reg_ne _ _ _ _ _ Hr Hnl); exact Hl).
  assert (Hr2 : reg m2 rr = Some (Pointer (arena pr)))
    by (unfold m2; rewrite (reg_write_reg_ne _ _ _ _ _ Hr Hnr); exact Hrr).
  assert (Hn2 : reg m2 rn = Some (Integer (Z.of_nat (length xs))))
    by (unfold m2; rewrite (reg_write_reg_ne _ _ _ _ _ Hr Hnn); exact Hn).
  rewrite (get_kind_reg _ _ _ Hl2). cbn [kind Pointer kind_eqb c_assert ret].
  rewrite (get_kind_reg _ _ _ Hr2). cbn [kind Pointer kind_eqb c_assert ret].
  rewrite (get_integer_reg _ _ _ _ Hn2 eq_refl). rewrite Nat2Z.id.
  rewrite (memcmp_loop_integers (op_result o) rl rr pl pr xs ys 0 m2 Hlen Hnl Hnr
             Hd2 Hl2 Hr2
             (integers_at_frame m m2 pl xs 0 eq_refl Hxs)
             (integers_at_frame m m2 pr ys 0 eq_refl Hys)).
  destruct (same_integers xs ys); [reflexivity|].
  unfold m2. rewrite write_reg_twice. reflexivity.
Qed.

Lemma memcmp_of_integer_buffers_witness :
  let m := Sample.memcmp_machine in
  eval_op_memcmp 0 m = Done tt (write_reg 3 (Integer 1) m).
Proof.
  intros m.
  refine (proj1 (memcmp_of_integer_buffers m 0
                   (Sample.op VCODE_OP_MEMCMP 3 [0; 1; 2]) 0 1 2 0 48 zero_value
                   [1; 2; 3] [1; 2; 3] eq_refl eq_refl _ _ _ eq_refl eq_refl
                   eq_refl eq_refl eq_refl _ _)).
  - intros H; discriminate H.
  - intros H; discriminate H.
  - intros H; discriminate H.
  - cbn [integers_at]. repeat split; reflexivity.
  - cbn [integers_at]. repeat split; reflexivity.
Defined.

(** ** The pre-flight check *)

(** Induction on a tree through the declaration it refers to, its value
    and its parameters. *)
Lemma tree_t_induction (P : tree_t -> Prop) :
  (forall t,
     (forall d, tree_ref t = Some d -> P d) ->
     (forall v, tree_value t = Some v -> P v) ->
     Forall P (tree_params t) ->
     P t) ->
  forall t, P t.
Proof.
  intros step. fix IH 1. intros [k l i ty f r v ps]. apply step; cbn.
  - destruct r as [d|]; [|discriminate]. intros d' H. injection H as <-. apply IH.
  - destruct v as [d|]; [|discriminate]. intros d' H. injection H as <-. apply IH.
  - induction ps as [|p rest IHps]; constructor; [apply IH | exact IHps].
Qed.

Lemma eval_possible_unfold X t fl :
  eval_possible X t fl
  = match tree_kind t with
    | T_FCALL =>
        match tree_ref t with
        | None => missing_item "ref"
        | Some decl =>
            if has_flag (tree_flags decl) TREE_F_IMPURE then ret false
            else
              (fix params (ps : list tree_t) : ST world bool :=
                 match ps with
                 | [] => ret true
                 | param :: rest =>
                     match tree_value param with
                     | None => missing_item "value"
                     | Some p =>
                         let fcall := is_fcall p in
                         if has_flag fl EVAL_FOLDING && fcall
                            && type_is_scalar X (tree_type p)
                         then ret false
                         else if fcall && negb (has_flag fl EVAL_FCALL)
                         then ret false
                         else
                           do ok <- eval_possible X p fl;
                           if negb ok then ret false else params rest
                     end
                 end) (tree_params t)
        end
    | T_LITERAL => ret true
    | T_TYPE_CONV =>
        match tree_params t with
        | [] => missing_item "param"
        | param :: _ =>
            match tree_value param with
            | None => missing_item "value"
            | Some p => eval_possible X p fl
            end
        end
    | T_REF =>
        match tree_ref t with
        | None => missing_item "ref"
        | Some decl =>
            match tree_kind decl with
            | T_UNIT_DECL | T_ENUM_LIT => ret true
            | T_CONST_DECL =>
                match tree_value decl with
                | None => missing_item "value"
                | Some v => eval_possible X v fl
                end
            | _ => ret false
            end
        end
    | _ =>
        fun w =>
          Done false
            (if has_flag fl EVAL_WARN
             then add_event (diag_event warn_at (tree_loc t)
                               "expression prevents constant folding" []) w
             else w)
    end.
Proof. destruct t; reflexivity. Qed.

Lemma eval_possible_checks_quietly X :
  forall t,
    checks_quietly X t
    /\ (forall v, tree_value t = Some v -> checks_quietly X v).
Proof.
  apply tree_t_induction. intros t IHref IHval IHps.
  split; [|intros v Hv; exact (proj1 (IHval v Hv))].
  intros fl w. rewrite eval_possible_unfold.
  assert (Hdefault :
    at_most_one_warning fl w false
      (if has_flag fl EVAL_WARN
       then add_event (diag_event warn_at (tree_loc t)
                         "expression prevents constant folding" []) w
       else w)).
  { destruct (has_flag fl EVAL_WARN) eqn:Hw; [right|left; reflexivity].
    split; [reflexivity|]. split; [exact Hw|]. exists (tree_loc t). reflexivity. }
  destruct (tree_kind t); try exact Hdefault.
  - (* a call: the reference, then each parameter *)
    destruct (tree_ref t) as [decl|]; [|reflexivity].
    destruct (has_flag (tree_flags decl) TREE_F_IMPURE); [left; reflexivity|].
    induction IHps as [|param rest Hparam _ IHrest]; [left; reflexivity|].
    destruct (tree_value param) as [p|] eqn:Hv; [|reflexivity].
    cbv zeta.
    destruct (has_flag fl EVAL_FOLDING && is_fcall p
              && type_is_scalar X (tree_type p)); [left; reflexivity|].
    destruct (is_fcall p && negb (has_flag fl EVAL_FCALL)); [left; reflexivity|].
    unfold bind. pose proof (proj2 Hparam p eq_refl fl w) as Hp.
    destruct (eval_possible X p fl w) as [ok w'| | |]; try exact Hp.
    destruct ok; cbn [negb].
    + destruct Hp as [->|(Hf & _)]; [exact IHrest | discriminate].
    + exact Hp.
  - (* a literal *)
    left. reflexivity.
  - (* a type conversion *)
    destruct IHps as [|param rest Hparam _]; [reflexivity|].
    destruct (tree_value param) as [p|] eqn:Hv; [|reflexivity].
    exact (proj2 Hparam p eq_refl fl w).
  - (* a reference *)
    destruct (tree_ref t) as [decl|] eqn:Hr; [|reflexivity].
    destruct (tree_kind decl); try (left; reflexivity).
    destruct (tree_value decl) as [v|] eqn:Hv; [|reflexivity].
    exact (proj2 (IHref decl eq_refl) v Hv fl w).
Qed.

(** [eval_possible] always answers, or stops on a node that lacks an
    item it reads, and then the world is as it was.  When it answers
    yes it has written nothing; when it answers no it has written at
    most one warning, "expression prevents constant folding", and only
    under the warn flag. *)
Theorem eval_possible_warns_at_most_once (X : collaborators) (t : tree_t)
  (fl : eval_flags_t) (w : world) :
  match eval_possible X t fl w with
  | Done b w' =>
      at_most_one_warning fl w b w'
      /\ (b = true -> w' = w)
      /\ (has_flag fl EVAL_WARN = false -> w' = w)
  | Fatal _ w' => w' = w
  | Undefined _ | OutOfFuel _ => False
  end.
Proof.
  pose proof (proj1 (eval_possible_checks_quietly X t) fl w) as H.
  destruct (eval_possible X t fl w) as [b w'| | |]; try exact H.
  split; [exact H|]. split.
  - intros ->. destruct H as [->|(Hf & _)]; [reflexivity | discriminate].
  - intros Hw. destruct H as [->|(_ & Hw' & _)]; [reflexivity|].
    rewrite Hw in Hw'. discriminate.
Qed.

(** ** What the public entry returns *)

Lemma eval_finish_result X fcall fl s w t w' :
  eval_finish X fcall fl s w = Done t w' ->
  (t = fcall /\ failed s = true)
  \/ (failed s = false /\ literal_of X fcall t).
Proof.
  unfold eval_finish. destruct (failed s); [intros H; injection H as <- _; auto|].
  intros H. right. split; [reflexivity|].
  destruct (result s =? -1); [discriminate|].
  destruct (index (result s) (regs (context s))) as [r|]; [|discriminate].
  cbv zeta in H.
  match type of H with
  | match ?n with _ => _ end = _ => destruct n as [wn|]; [|discriminate]
  end.
  destruct (kind r); try discriminate.
  - destruct (as_real (payload r)) as [x|]; [|discriminate].
    injection H as <- _. right. right. exists x. reflexivity.
  - destruct (as_integer (payload r)) as [n|]; [|discriminate].
    destruct (type_is_enum X (tree_type fcall)) eqn:He;
      injection H as <- _; [left | right; left]; exists n; auto.
Qed.

(** Whatever the thunk does, a node that [eval] returns is the call
    node it was given or a literal built from that call: an enumeration
    literal or an integer literal, as the type of the call is an
    enumeration or not, or a real literal.  It is a literal only for a
    call of scalar type. *)
Theorem eval_returns_the_call_or_a_literal (X : collaborators) (fuel : nat)
  (fcall : tree_t) (fl : eval_flags_t) (w w' : world) (t : tree_t) :
  eval X fuel fcall fl w = Done t w' ->
  t = fcall
  \/ (tree_kind fcall = T_FCALL
      /\ type_is_scalar X (tree_type fcall) = true
      /\ literal_of X fcall t).
Proof.
  unfold eval, is_fcall. destruct (tree_kind fcall) eqn:Hk; try discriminate.
  cbv [c_assert bind ret].
  destruct (type_is_scalar X (tree_type fcall)) eqn:Hs; cbn [negb];
    [|intros H; injection H as <- _; auto].
  destruct (eval_possible X fcall fl w) as [ok w1| | |]; try discriminate.
  destruct ok; cbn [negb]; [|intros H; injection H as <- _; auto].
  cbv zeta.
  destruct (lower_thunk X fcall) as [thunk|]; [|intros H; injection H as <- _; auto].
  match goal with
  | |- match ?n with _ => _ end = _ -> _ =>
      destruct n as [c [o wc]|d [o wc]| |[o wc]]; try discriminate
  end.
  match goal with
  | |- match ?n with _ => _ end = _ -> _ =>
      destruct n as [[] mf| | |]; try discriminate
  end.
  intros H. apply eval_finish_result in H.
  destruct H as [[-> _]|[_ H]]; auto.
Qed.

Lemma eval_returns_the_call_or_a_literal_witness :
  let X := Sample.X (Some Sample.add1_thunk) in
  let t := Sample.literal "6" Sample.integer_type in
  t = Sample.add1_call
  \/ (tree_kind Sample.add1_call = T_FCALL
      /\ type_is_scalar X (tree_type Sample.add1_call) = true
      /\ literal_of X Sample.add1_call t).
Proof.
  intros X t.
  refine (eval_returns_the_call_or_a_literal X 3 Sample.add1_call EVAL_FCALL
            (Sample.world0 [Sample.add1]) _ t _).
  vm_compute. reflexivity.
Defined.

(** ** Folding a constant *)

(** One iteration of the loop of [eval_vcode]. *)
Lemma eval_vcode_loop_step X rec n i nops m b m' :
  failed (st m) = false -> i < nops ->
  eval_dispatch X rec i m = Done b m' ->
  eval_vcode_loop X rec (S n) i nops m
  = if b then Done tt m' else eval_vcode_loop X rec n (i + 1) nops m'.
Proof.
  intros Hf Hi Hd. cbn [eval_vcode_loop]. cbv [bind get_state]. rewrite Hf.
  destruct (Z.ltb_spec i nops); [|lia]. cbn [andb negb].
  rewrite Hd. destruct b; reflexivity.
Qed.

Lemma eval_op_const_reg m op o v0 :
  op_at (wd m) op = Some o ->
  reg m (op_result o) = Some v0 ->
  eval_op_const op m = Done tt (write_reg (op_result o) (Integer (op_value o)) m).
Proof.
  intros Hop Hr. unfold eval_op_const, eval_get_reg.
  step (vcode_get_result_at _ _ _ Hop). cbv [bind ret].
  rewrite (set_kind_reg _ _ _ VALUE_INTEGER Hr).
  set (m1 := write_reg _ _ m).
  assert (Hop' : op_at (wd m1) op = Some o) by exact Hop.
  unfold vcode_get_value. cbv [bind ret]. rewrite (vcode_op_at _ _ _ Hop').
  unfold set_integer.
  rewrite (set_payload_reg m1 _ _ _ (reg_write_reg_eq _ _ _ _ Hr)).
  unfold m1. rewrite write_reg_twice. reflexivity.
Qed.

Lemma eval_op_return_reg m op o r :
  op_at (wd m) op = Some o ->
  op_args o = [r] ->
  eval_op_return op m = Done tt (MACHINE (set_result r (st m)) (wd m)).
Proof.
  intros Hop Ha. unfold eval_op_return.
  step (vcode_count_args_at _ _ _ Hop). rewrite Ha. cbn [length].
  change (0 <? Z.of_nat 1) with true. cbv iota.
  assert (Hi : index 0 (op_args o) = Some r) by (rewrite Ha; reflexivity).
  step (vcode_get_arg_at _ _ _ _ _ Hop Hi). reflexivity.
Qed.

(** One frame of [eval_vcode] on a block that loads a constant into a
    register and returns it. *)
Lemma eval_vcode_body_const_return X rec m o1 o2 v0 :
  selected_block (wd m) = Some [o1; o2] ->
  op_kind o1 = VCODE_OP_CONST ->
  op_kind o2 = VCODE_OP_RETURN ->
  op_args o2 = [op_result o1] ->
  reg m (op_result o1) = Some v0 ->
  failed (st m) = false ->
  eval_vcode_body X rec m
  = Done tt
      (MACHINE
         (set_result (op_result o1)
            (st (write_reg (op_result o1) (Integer (op_value o1)) m)))
         (wd m)).
Proof.
  intros Hb Hk1 Hk2 Ha Hr Hf. unfold eval_vcode_body.
  step (vcode_count_ops_at _ _ Hb).
  assert (Hop0 : op_at (wd m) 0 = Some o1) by (unfold op_at; rewrite Hb; reflexivity).
  assert (Hop1 : op_at (wd m) 1 = Some o2) by (unfold op_at; rewrite Hb; reflexivity).
  change (Z.to_nat (Z.of_nat (length [o1; o2]))) with 2%nat.
  set (m1 := write_reg (op_result o1) (Integer (op_value o1)) m).
  assert (Hd0 : eval_dispatch X rec 0 m = Done false m1).
  { unfold eval_dispatch. step (vcode_get_op_at _ _ _ Hop0). rewrite Hk1.
    step (eval_op_const_reg _ _ _ _ Hop0 Hr). reflexivity. }
  assert (Hd1 : eval_dispatch X rec 1 m1
                = Done true (MACHINE (set_result (op_result o1) (st m1)) (wd m))).
  { assert (Hop1' : op_at (wd m1) 1 = Some o2) by exact Hop1.
    unfold eval_dispatch. step (vcode_get_op_at _ _ _ Hop1'). rewrite Hk2.
    step (eval_op_return_reg _ _ _ _ Hop1' Ha). reflexivity. }
  assert (H0 : 0 < Z.of_nat (length [o1; o2])) by (cbn; lia).
  assert (H1 : 0 + 1 < Z.of_nat (length [o1; o2])) by (cbn; lia).
  rewrite (eval_vcode_loop_step X rec _ 0 _ m false m1 Hf H0 Hd0).
  cbv iota.
  rewrite (eval_vcode_loop_step X rec _ (0 + 1) _ m1 true _ Hf H1 Hd1).
  reflexivity.
Qed.



(** ** [fold_tree_fn] *)



(** ** Diagnostics are never retracted *)

Lemma extends_log_refl w : extends_log w w.
Proof. exists []. reflexivity. Qed.

Lemma extends_log_trans w1 w2 w3 :
  extends_log w1 w2 -> extends_log w2 w3 -> extends_log w1 w3.
Proof.
  intros [l1 H1] [l2 H2]. exists (l2 ++ l1)%list. rewrite H2, H1. apply app_assoc.
Qed.

Lemma extends_log_add_event w0 e w :
  extends_log w0 w -> extends_log w0 (add_event e w).
Proof. intros [l H]. exists (e :: l). cbn. rewrite H. reflexivity. Qed.

Lemma extends_log_same w0 w w' :
  log w' = log w -> extends_log w0 w -> extends_log w0 w'.
Proof. intros He [l H]. exists l. rewrite He. exact H. Qed.

Lemma new_vars_keep_log w0 vs : forall sw,
  extends_log w0 (snd sw) -> keeps_log snd w0 (new_vars vs sw).
Proof.
  induction vs as [|var rest IH]; intros sw Hsw; cbn [new_vars]; [exact Hsw|].
  unfold bind at 1.
  assert (Hv : keeps_log snd w0 (new_var var sw)).
  { unfold new_var. destruct sw as [[s|] w]; cbn [fst snd] in *;
      destruct (vtype_kind (vcode_var_type var)); cbn [keeps_log snd];
      try exact Hsw; try exact I.
    unfold eval_alloc. destruct (_ <? _); cbn [keeps_log snd]; [|exact Hsw].
    destruct (has_flag _ _); [apply extends_log_add_event|]; exact Hsw. }
  destruct (new_var var sw) as [v sw'| | |]; try exact Hv.
  unfold bind. specialize (IH sw' Hv).
  destruct (new_vars rest sw'); exact IH.
Qed.

Section Log.

Variable m0 : machine.

Local Notation "'logs'" := (preserves (log_kept m0)).

Lemma logs_get_world : logs (extends_log (wd m0)) get_world.
Proof. intros m Hm. cbn. auto. Qed.

Lemma logs_put_world w : extends_log (wd m0) w -> logs any (put_world w).
Proof. intros H m Hm. cbn. unfold any. auto. Qed.

Lemma logs_get_state : logs any get_state.
Proof. intros m Hm. cbn. unfold any. auto. Qed.

Lemma logs_put_state s : logs any (put_state s).
Proof. intros m Hm. cbn. unfold any. auto. Qed.

Lemma logs_emit ch loc fmt args : logs any (emit ch loc fmt args).
Proof.
  intros m Hm. cbn. split; [|exact I]. apply extends_log_add_event, Hm.
Qed.

Lemma logs_emit_notef fmt args : logs any (emit_notef fmt args).
Proof.
  intros m Hm. cbn. split; [|exact I]. apply extends_log_add_event, Hm.
Qed.

Lemma logs_vcode_dump : logs any vcode_dump.
Proof.
  intros m Hm. cbn. split; [|exact I]. apply extends_log_add_event, Hm.
Qed.

Lemma logs_alloc n : logs any (alloc n).
Proof.
  intros m Hm. unfold alloc, eval_alloc.
  destruct (_ <? _); cbn; (split; [|exact I]); [|exact Hm].
  destruct (has_flag _ _); [apply extends_log_add_event|]; exact Hm.
Qed.

Lemma logs_get_field off : logs any (get_field off).
Proof. intros m Hm. unfold get_field. destruct (_ !! _); cbn; unfold any; auto. Qed.

Lemma logs_set_field off f : logs any (set_field off f).
Proof. intros m Hm. unfold set_field. destruct (_ && _); cbn; unfold any; auto. Qed.

Lemma logs_new_context : logs any new_context.
Proof.
  intros m Hm. unfold new_context, eval_new_context. cbn [fst snd].
  destruct (vs_unit (selection (wd m))) as [u|]; [|exact I].
  unfold bind.
  pose proof (new_vars_keep_log (wd m0) (unit_vars u) (Some (st m), wd m) Hm)
    as Hvars.
  destruct (new_vars (unit_vars u) (Some (st m), wd m))
    as [vs [[s|] w]|d [o w]| |[o w]]; cbn in *; try exact I; try exact Hvars.
  split; [exact Hvars | exact I].
Qed.

Create HintDb log_db.

Lemma extends_select_unit u w :
  extends_log (wd m0) w -> extends_log (wd m0) (select_unit u w).
Proof. apply extends_log_same. reflexivity. Qed.
Lemma extends_select_block b w :
  extends_log (wd m0) w -> extends_log (wd m0) (select_block b w).
Proof. apply extends_log_same. reflexivity. Qed.
Lemma extends_set_selection v n w :
  extends_log (wd m0) w -> extends_log (wd m0) (set_selection v n w).
Proof. apply extends_log_same. reflexivity. Qed.
Lemma extends_set_units us w :
  extends_log (wd m0) w -> extends_log (wd m0) (set_units us w).
Proof. apply extends_log_same. reflexivity. Qed.
Lemma extends_incr_errors w :
  extends_log (wd m0) w -> extends_log (wd m0) (incr_errors w).
Proof. apply extends_log_same. reflexivity. Qed.

#[local] Hint Resolve preserves_undefined preserves_die preserves_of_option
  preserves_c_assert logs_get_world logs_put_world logs_get_state
  logs_put_state logs_emit logs_emit_notef logs_vcode_dump logs_alloc
  logs_get_field logs_set_field logs_new_context extends_select_unit
  extends_select_block extends_set_selection extends_set_units
  extends_incr_errors : log_db.

(** A step through a computation as [preserves_step] makes it, with what
    is known of the world that [get_world] reads; a part that is not
    known to keep the log is unfolded. *)
Ltac logs_step :=
  lazymatch goal with
  | |- preserves _ _ (bind get_world _) =>
      eapply preserves_bind; [ apply logs_get_world | intros ? ? ]
  | |- preserves _ _ (bind _ _) =>
      eapply (preserves_bind _ any); [ | intros ? ? ]
  | |- preserves _ _ (ret _) => apply preserves_ret; exact I
  | |- preserves _ _ (let _ := _ in _) => cbv zeta
  | |- preserves _ _ (if ?b then _ else _) => destruct b
  | |- preserves _ _ (match ?x with _ => _ end) => destruct x
  | |- preserves _ any ?c =>
      first [ solve [eauto with log_db]
            | eapply preserves_any; solve [eauto with log_db]
            | let h := head_of c in unfold h ]
  end.

Ltac logs_auto := repeat logs_step.

Variable X : collaborators.
Variable rec : M unit.
Hypothesis logs_rec : logs any rec.
#[local] Hint Resolve logs_rec : log_db.

Lemma logs_read_chars n : forall i text, logs any (read_chars n i text).
Proof. induction n as [|n IH]; intros; cbn [read_chars]; logs_auto. Qed.
#[local] Hint Resolve logs_read_chars : log_db.

Lemma logs_eval_get_var_walk n : forall up, logs any (eval_get_var_walk rec n up).
Proof. induction n as [|n IH]; intros; cbn [eval_get_var_walk]; logs_auto. Qed.
#[local] Hint Resolve logs_eval_get_var_walk : log_db.

Lemma logs_fcall_params n : forall op i, logs any (fcall_params op n i).
Proof. induction n as [|n IH]; intros; cbn [fcall_params]; logs_auto. Qed.
#[local] Hint Resolve logs_fcall_params : log_db.

Lemma logs_bind_params params : forall i c, logs any (bind_params params i c).
Proof. induction params as [|p rest IH]; intros; cbn [bind_params]; logs_auto. Qed.
#[local] Hint Resolve logs_bind_params : log_db.

Lemma logs_const_array_fill n :
  forall op i dst, logs any (const_array_fill op n i dst).
Proof. induction n as [|n IH]; intros; cbn [const_array_fill]; logs_auto. Qed.
#[local] Hint Resolve logs_const_array_fill : log_db.

Lemma logs_wrap_dims n : forall op i dst, logs any (wrap_dims op n i dst).
Proof. induction n as [|n IH]; intros; cbn [wrap_dims]; logs_auto. Qed.
#[local] Hint Resolve logs_wrap_dims : log_db.

Lemma logs_memcmp_loop n :
  forall i dst lhs rhs, logs any (memcmp_loop n i dst lhs rhs).
Proof. induction n as [|n IH]; intros; cbn [memcmp_loop]; logs_auto. Qed.
#[local] Hint Resolve logs_memcmp_loop : log_db.

Lemma logs_case_target n :
  forall op i test target, logs any (case_target op n i test target).
Proof. induction n as [|n IH]; intros; cbn [case_target]; logs_auto. Qed.
#[local] Hint Resolve logs_case_target : log_db.

Lemma logs_copy_loop n : forall i dst src, logs any (copy_loop n i dst src).
Proof. induction n as [|n IH]; intros; cbn [copy_loop]; logs_auto. Qed.
#[local] Hint Resolve logs_copy_loop : log_db.

Lemma logs_image_fill n : forall text i dst, logs any (image_fill text n i dst).
Proof. induction n as [|n IH]; intros; cbn [image_fill]; logs_auto. Qed.
#[local] Hint Resolve logs_image_fill : log_db.

Lemma logs_eval_dispatch i : logs any (eval_dispatch X rec i).
Proof. unfold eval_dispatch. logs_auto. Qed.
#[local] Hint Resolve logs_eval_dispatch : log_db.

Lemma logs_eval_vcode_loop n : forall i nops, logs any (eval_vcode_loop X rec n i nops).
Proof. induction n as [|n IH]; intros; cbn [eval_vcode_loop]; logs_auto. Qed.
#[local] Hint Resolve logs_eval_vcode_loop : log_db.

Lemma logs_eval_vcode_body : logs any (eval_vcode_body X rec).
Proof. unfold eval_vcode_body. logs_auto. Qed.

End Log.

Lemma logs_eval_vcode m0 X fuel : preserves (log_kept m0) any (eval_vcode X fuel).
Proof.
  induction fuel as [|n IH]; cbn [eval_vcode].
  - intros m Hm. exact Hm.
  - apply logs_eval_vcode_body. exact IH.
Qed.

Lemma eval_vcode_keeps_log X fuel m w0 :
  extends_log w0 (wd m) -> keeps_log wd w0 (eval_vcode X fuel m).
Proof.
  intros H.
  pose proof (logs_eval_vcode (MACHINE (st m) w0) X fuel m H) as Hp.
  unfold keeps_log. destruct (eval_vcode X fuel m); try exact Hp. exact (proj1 Hp).
Qed.

Lemma eval_finish_keeps_log X fcall fl s w0 w :
  extends_log w0 w -> keeps_log id w0 (eval_finish X fcall fl s w).
Proof.
  intros H. unfold eval_finish.
  assert (H1 : extends_log w0 (set_mem ∅ w))
    by (eapply extends_log_same; [|exact H]; reflexivity).
  assert (Hn : forall e, extends_log w0 (add_event e (set_mem ∅ w)))
    by (intros e; apply extends_log_add_event, H1).
  destruct (failed s); [exact H1|].
  destruct (result s =? -1); [exact H1|].
  destruct (index (result s) (regs (context s))) as [[k p]|]; [|exact I].
  cbv zeta. cbn [kind payload].
  destruct (has_flag fl EVAL_VERBOSE), k; cbn [kind_eqb];
    destruct (as_integer p), (as_real p);
    try destruct (type_is_enum X (tree_type fcall));
    cbn [keeps_log id]; try exact I; try exact H1; apply Hn.
Qed.


(** ** A call to a function without code *)

Lemma fcall_params_regs op o m : forall (args pre : list Z),
  op_at (wd m) op = Some o ->
  op_args o = (pre ++ args)%list ->
  fcall_params op (length args) (Z.of_nat (length pre)) m
  = Done (map reg_slot args) m.
Proof.
  induction args as [|a rest IH]; intros pre Hop Hargs; [reflexivity|].
  cbn [length fcall_params map].
  assert (Hia : index (Z.of_nat (length pre)) (op_args o) = Some a).
  { unfold index. destruct (Z.ltb_spec (Z.of_nat (length pre)) 0); [lia|].
    rewrite Nat2Z.id, Hargs. apply list_lookup_middle. reflexivity. }
  step (vcode_get_arg_at _ _ _ _ _ Hop Hia). unfold eval_get_reg. cbv [bind ret].
  replace (Z.of_nat (length pre) + 1) with (Z.of_nat (length (pre ++ [a])))
    by (rewrite length_app; cbn; lia).
  rewrite (IH (pre ++ [a])%list Hop); [reflexivity|].
  rewrite Hargs, <- app_assoc. reflexivity.
Qed.

Lemma vcode_get_func_at m op o :
  op_at (wd m) op = Some o -> vcode_get_func op m = Done (op_func o) m.
Proof. intros H. unfold vcode_get_func. step (vcode_op_at _ _ _ H). reflexivity. Qed.

Lemma fcall_from_library_none m op o :
  op_at (wd m) op = Some o ->
  match library_of (op_func o) with
  | Some lib => libs (wd m) !! lib = None
  | None => True
  end ->
  fcall_from_library op (op_func o) m = Done None m.
Proof.
  intros Hop Hlib. unfold fcall_from_library.
  step (vcode_get_func_at _ _ _ Hop). cbv zeta. cbv [bind get_world].
  unfold library_of in Hlib. cbv zeta in Hlib.
  destruct (String.eqb _ _); cbn [negb]; [reflexivity|].
  destruct (libs (wd m) !! _) as [lib|] eqn:E; [|reflexivity].
  discriminate Hlib.
Qed.

(** A call to a function whose code is not among the known units, and
    whose name has no library prefix or names a library that is not
    found, fails the fold: the warning is written under the warn flag,
    [failed] is set, and the registers, the arena and the selection are
    left as they were. *)
Theorem call_to_unknown_function_fails_the_fold (rec : M unit) (m : machine)
  (op : Z) (o : op_t) :
  op_at (wd m) op = Some o ->
  units (wd m) !! op_func o = None ->
  match library_of (op_func o) with
  | Some lib => libs (wd m) !! lib = None
  | None => True
  end ->
  eval_op_fcall rec op m
  = Done tt (mark_failed true (warned (fcall_warning m (op_func o)) m)).
Proof.
  intros Hop Hu Hlib. unfold eval_op_fcall.
  unfold vcode_state_save at 1. cbv [bind get_world ret].
  rewrite (vcode_get_func_at _ _ _ Hop).
  unfold vcode_find_unit at 1. cbv [bind get_world ret]. rewrite Hu.
  rewrite (vcode_count_args_at _ _ _ Hop), Nat2Z.id.
  pose proof (fcall_params_regs op o m (op_args o) [] Hop eq_refl) as Hp.
  change (Z.of_nat (length [])) with 0 in Hp. rewrite Hp.
  rewrite (fcall_from_library_none _ _ _ Hop Hlib).
  cbv [get_state]. unfold EVAL_WARN_, fail_fold, vcode_state_restore.
  cbv [bind get_state get_world put_state put_world emit ret].
  unfold mark_failed, warned, fcall_warning, logged.
  destruct m as [s [sel n us ls h l e v]].
  destruct (has_flag _ EVAL_WARN); reflexivity.
Qed.

Lemma call_to_unknown_function_fails_the_fold_witness :
  let m := Sample.unknown_call_machine EVAL_WARN in
  eval_op_fcall (ret tt) 0 m
  = Done tt (mark_failed true (warned (fcall_warning m "WORK.PACK.F") m)).
Proof.
  intros m.
  exact (call_to_unknown_function_fails_the_fold (ret tt) m 0
           (Sample.with_func "WORK.PACK.F" (Sample.op VCODE_OP_FCALL 1 [0]))
           eq_refl eq_refl eq_refl).
Defined.

(** ** Calls *)

Lemma new_context_initial m u ivs :
  vs_unit (selection (wd m)) = Some u ->
  mapM initial_value (unit_vars u) = Some ivs ->
  new_context m
  = Done (CONTEXT None (replicate (unit_nregs u) zero_value) ivs) m.
Proof.
  intros Hu Hv. unfold new_context.
  rewrite (eval_new_context_initial (Some (st m)) (wd m) u ivs Hu Hv).
  destruct m; reflexivity.
Qed.

Lemma bind_params_regs m : forall (args : list Z) (vals pre old rest : list value_t)
  (p : option context_t) (vs : list value_t),
  Forall2 (fun a v => reg m a = Some v) args vals ->
  length old = length args ->
  bind_params (map reg_slot args) (Z.of_nat (length pre))
    (CONTEXT p (pre ++ old ++ rest) vs) m
  = Done (CONTEXT p (pre ++ vals ++ rest) vs) m.
Proof.
  induction args as [|a args IH]; intros vals pre old rest p vs Hv Hlen.
  - inversion Hv; subst. destruct old; [|discriminate]. reflexivity.
  - inversion Hv as [|a' v args' vals' Ha Hrest]; subst.
    destruct old as [|o old]; [discriminate|]. injection Hlen as Hlen.
    cbn [map bind_params].
    step (load_reg _ _ _ Ha). cbn [regs parent vars].
    assert (Hi : index (Z.of_nat (length pre)) (pre ++ (o :: old) ++ rest) = Some o).
    { unfold index. destruct (Z.ltb_spec (Z.of_nat (length pre)) 0); [lia|].
      rewrite Nat2Z.id. apply list_lookup_middle. reflexivity. }
    rewrite Hi. cbv [of_option bind ret].
    assert (Hu : update (Z.of_nat (length pre)) v (pre ++ (o :: old) ++ rest)
                 = ((pre ++ [v]) ++ old ++ rest)%list).
    { unfold update. rewrite Nat2Z.id.
      rewrite insert_app_r_alt by lia. rewrite Nat.sub_diag. cbn.
      rewrite <- app_assoc. reflexivity. }
    rewrite Hu.
    replace (Z.of_nat (length pre) + 1) with (Z.of_nat (length (pre ++ [v])))
      by (rewrite length_app; cbn; lia).
    rewrite (IH vals' (pre ++ [v])%list old rest p vs Hrest Hlen).
    rewrite <- app_assoc. reflexivity.
Qed.

(** [eval_op_fcall] up to the return of the callee, for a function whose
    code is known and whose variables need no memory: the callee runs on
    [callee_machine] and the caller gets its state back. *)
Lemma eval_op_fcall_calls rec m op o u vals ivs mc :
  op_at (wd m) op = Some o ->
  units (wd m) !! op_func o = Some u ->
  Forall2 (fun a v => reg m a = Some v) (op_args o) vals ->
  mapM initial_value (unit_vars u) = Some ivs ->
  (length (op_args o) <= unit_nregs u)%nat ->
  rec (callee_machine u vals ivs m) = Done tt mc ->
  eval_op_fcall rec op m
  = (if failed (st mc) then fail_fold
     else
       c_assert (negb (result (st mc) =? -1)) "new.result != -1" ;;
       do r <- vcode_get_result op;
       do dst <- eval_get_reg r;
       do v <- of_option "callee has no such register"
                 (index (result (st mc)) (regs (context (st mc))));
       store dst v ;;
       do state <- get_state;
       if has_flag (flags state) EVAL_VERBOSE then
         do name <- vcode_get_func op;
         let nest := tree_ident (fcall state) in
         if kind_eqb (kind v) VALUE_INTEGER then
           do n <- of_option "union read through another member"
                     (as_integer (payload v));
           emit_notef "%s (in %s) returned %li" [A_str name; A_str nest; A_int n]
         else
           do x <- of_option "union read through another member"
                     (as_real (payload v));
           emit_notef "%s (in %s) returned %lf" [A_str name; A_str nest; A_real x]
       else ret tt) (returned_to m mc).
Proof.
  intros Hop Hu Hvals Hivs Hn Hrec. unfold eval_op_fcall.
  unfold vcode_state_save at 1. cbv [bind get_world ret].
  rewrite (vcode_get_func_at _ _ _ Hop).
  unfold vcode_find_unit at 1. cbv [bind get_world ret]. rewrite Hu.
  rewrite (vcode_count_args_at _ _ _ Hop), Nat2Z.id.
  pose proof (fcall_params_regs op o m (op_args o) [] Hop eq_refl) as Hp.
  change (Z.of_nat (length [])) with 0 in Hp. rewrite Hp.
  unfold vcode_select_unit, vcode_select_block. cbv [bind get_world put_world ret].
  cbn [st wd].
  set (m1 := MACHINE (st m) (select_block 0 (select_unit (Some u) (wd m)))).
  rewrite (new_context_initial m1 u ivs eq_refl Hivs).
  assert (Hvals1 : Forall2 (fun a v => reg m1 a = Some v) (op_args o) vals)
    by exact Hvals.
  assert (Hlen : length vals = length (op_args o))
    by (symmetry; eapply Forall2_length; exact Hvals).
  pose proof (bind_params_regs m1 (op_args o) vals []
                (replicate (length (op_args o)) zero_value)
                (replicate (unit_nregs u - length vals) zero_value)
                None ivs Hvals1 (length_replicate _ _)) as Hb.
  cbn [app length] in Hb. change (Z.of_nat 0) with 0 in Hb.
  rewrite <- replicate_add in Hb.
  replace (length (op_args o) + (unit_nregs u - length vals))%nat
    with (unit_nregs u) in Hb by lia.
  rewrite Hb. cbv [get_state]. unfold run_nested.
  cbv [bind get_state put_state ret]. subst m1. cbn [st wd].
  change (MACHINE (nested_state (CONTEXT None
            (vals ++ replicate (unit_nregs u - length vals) zero_value) ivs)
            (st m)) (select_block 0 (select_unit (Some u) (wd m))))
    with (callee_machine u vals ivs m).
  rewrite Hrec. cbn [st wd].
  unfold vcode_state_restore. cbv [bind get_world put_world get_state put_state ret].
  cbn [st wd]. reflexivity.
Qed.

(** A call to a function whose code is known passes its arguments by
    value: the callee starts on a fresh context holding copies of the
    argument registers, with [failed] cleared, no result, the bounds
    flag set and the caller's arena.  When the callee returns, the
    caller has its registers and its selection back and the arena of
    the callee; if the callee failed the caller fails, otherwise the
    register the callee returned is copied to the result register of
    the call. *)
Theorem call_passes_values_and_returns_one (rec : M unit) (m mc : machine)
  (op : Z) (o : op_t) (u : vcode_unit_t) (vals ivs : list value_t)
  (v0 : value_t) :
  op_at (wd m) op = Some o ->
  units (wd m) !! op_func o = Some u ->
  Forall2 (fun a v => reg m a = Some v) (op_args o) vals ->
  mapM initial_value (unit_vars u) = Some ivs ->
  (length (op_args o) <= unit_nregs u)%nat ->
  reg m (op_result o) = Some v0 ->
  has_flag (flags (st m)) EVAL_VERBOSE = false ->
  rec (callee_machine u vals ivs m) = Done tt mc ->
  (failed (st mc) = true ->
   eval_op_fcall rec op m = Done tt (mark_failed true (returned_to m mc)))
  /\ (failed (st mc) = false ->
      forall v,
        result (st mc) <> -1 ->
        index (result (st mc)) (regs (context (st mc))) = Some v ->
        eval_op_fcall rec op m
        = Done tt (write_reg (op_result o) v (returned_to m mc))).
Proof.
  intros Hop Hu Hvals Hivs Hn Hr Hverb Hrec.
  rewrite (eval_op_fcall_calls rec m op o u vals ivs mc Hop Hu Hvals Hivs Hn Hrec).
  split; intros Hf; rewrite Hf; [reflexivity|].
  intros v Hres Hv.
  destruct (Z.eqb_spec (result (st mc)) (-1)); [contradiction|].
  cbn [negb c_assert]. cbv [bind ret].
  assert (Hop' : op_at (wd (returned_to m mc)) op = Some o).
  { unfold op_at, selected_block, returned_to. cbn. exact Hop. }
  rewrite (vcode_get_result_at _ _ _ Hop'). unfold eval_get_reg. cbv [ret].
  rewrite Hv. cbv [of_option ret].
  assert (Hr' : reg (returned_to m mc) (op_result o) = Some v0) by exact Hr.
  rewrite (store_reg _ _ _ _ Hr'). cbv [get_state]. cbn [st write_reg flags set_context].
  unfold returned_to. cbn [st set_heap flags]. rewrite Hverb. reflexivity.
Qed.

Lemma call_passes_values_and_returns_one_witness :
  let m := Sample.call_machine in
  let rec := eval_vcode (Sample.X None) 1 in
  exists mc,
    rec (callee_machine Sample.add1 [Integer 5] [] m) = Done tt mc
    /\ eval_op_fcall rec 1 m
       = Done tt (write_reg 1 (Integer 6) (returned_to m mc)).
Proof.
  cbv zeta. eexists. split; [vm_compute; reflexivity|].
  match goal with
  | |- context [returned_to _ ?mc] =>
      refine (proj2 (call_passes_values_and_returns_one
                       (eval_vcode (Sample.X None) 1) Sample.call_machine mc 1
                       (Sample.with_func "ADD1" (Sample.op VCODE_OP_FCALL 1 [0]))
                       Sample.add1 [Integer 5] [] zero_value
                       eq_refl eq_refl _ eq_refl _ eq_refl eq_refl _)
                eq_refl (Integer 6) _ eq_refl)
  end.
  - repeat constructor.
  - cbn. lia.
  - vm_compute. reflexivity.
  - vm_compute. discriminate.
Defined.

(** ** The bounds a wrap records are the bounds read back *)

Lemma store_fields_app fs gs h :
  store_fields (fs ++ gs) h = store_fields gs (store_fields fs h).
Proof. unfold store_fields. apply foldl_app. Qed.

Lemma store_fields_other fs : forall h k,
  k ∉ map fst fs -> store_fields fs h !! k = h !! k.
Proof.
  induction fs as [|[k' f] rest IH]; intros h k Hk; [reflexivity|].
  cbn [store_fields foldl fst snd]. cbn [map fst] in Hk.
  apply not_elem_of_cons in Hk as [Hne Hk].
  change (foldl _ ?h0 rest) with (store_fields rest h0).
  rewrite (IH _ _ Hk). apply lookup_insert_ne. congruence.
Qed.

(** The offsets of the fields of the dimensions from [i] on are at or
    above that of the left bound of dimension [i]. *)
Lemma dim_fields_offsets h dims : forall i k,
  k ∈ map fst (dim_fields h i dims) -> h + 24 * i <= k.
Proof.
  induction dims as [|[[l r] d] rest IH]; intros i k Hk; [inversion Hk|].
  cbn [dim_fields map fst] in Hk. unfold off_left, off_right, off_dir in Hk.
  rewrite !elem_of_cons in Hk.
  destruct Hk as [-> | [-> | [-> | Hk]]]; try lia.
  apply IH in Hk. lia.
Qed.

(** The fields of dimension [j] after the dimensions are stored. *)
Lemma dim_fields_lookup h dims : forall i mem0 j l r d,
  0 <= i ->
  dims !! j = Some (l, r, d) ->
  let mem1 := store_fields (dim_fields h i dims) mem0 in
  let dim := i + Z.of_nat j in
  mem1 !! off_left h dim = Some (F_scalar (S_integer l))
  /\ mem1 !! off_right h dim = Some (F_scalar (S_integer r))
  /\ mem1 !! off_dir h dim = Some (F_scalar (S_integer (C.uint d))).
Proof.
  induction dims as [|[[l0 r0] d0] rest IH]; intros i mem0 j l r d Hi Hj;
    [discriminate|].
  destruct j as [|j].
  - injection Hj as -> -> ->. cbv zeta. rewrite Z.add_0_r.
    cbn [dim_fields store_fields foldl fst snd].
    change (foldl _ ?h0 (dim_fields h (i + 1) rest))
      with (store_fields (dim_fields h (i + 1) rest) h0).
    assert (Hout : forall k, k < h + 24 * (i + 1) ->
                     k ∉ map fst (dim_fields h (i + 1) rest)).
    { intros k Hk Hin. apply dim_fields_offsets in Hin. lia. }
    rewrite !store_fields_other by (apply Hout; unfold off_left, off_right, off_dir; lia).
    unfold off_left, off_right, off_dir.
    repeat split.
    + rewrite lookup_insert_ne by lia. rewrite lookup_insert_ne by lia.
      apply lookup_insert_eq.
    + rewrite lookup_insert_ne by lia. apply lookup_insert_eq.
    + apply lookup_insert_eq.
  - cbn [lookup] in Hj. cbv zeta.
    cbn [dim_fields store_fields foldl fst snd].
    change (foldl _ ?h0 (dim_fields h (i + 1) rest))
      with (store_fields (dim_fields h (i + 1) rest) h0).
    replace (i + Z.of_nat (S j)) with (i + 1 + Z.of_nat j) by lia.
    apply IH; [lia | exact Hj].
Qed.

Lemma descriptor_lookup h data dims mem0 j l r d :
  dims !! j = Some (l, r, d) ->
  let mem1 := store_fields (descriptor_fields h data dims) mem0 in
  mem1 !! off_left h (Z.of_nat j) = Some (F_scalar (S_integer l))
  /\ mem1 !! off_right h (Z.of_nat j) = Some (F_scalar (S_integer r))
  /\ mem1 !! off_dir h (Z.of_nat j) = Some (F_scalar (S_integer (C.uint d))).
Proof.
  intros Hj. unfold descriptor_fields.
  cbn [store_fields foldl fst snd].
  change (foldl _ ?h0 (dim_fields h 0 dims))
    with (store_fields (dim_fields h 0 dims) h0).
  apply (dim_fields_lookup h dims 0 _ j l r d ltac:(lia) Hj).
Qed.

(** [eval_op_wrap] when the arena has room and the dimensions are at
    most [MAX_DIMS]. *)
Lemma eval_op_wrap_records m op o ra v0 data dims :
  op_at (wd m) op = Some o ->
  index 0 (op_args o) = Some ra ->
  op_result o ∉ op_args o ->
  reg m (op_result o) = Some v0 ->
  reg m ra = Some (Pointer data) ->
  0 <= halloc (st m) ->
  halloc (st m) + C.sizeof_uarray_t <= EVAL_HEAP ->
  Z.of_nat (length dims) = Z.quot (Z.of_nat (length (op_args o)) - 1) 3 ->
  Z.of_nat (length dims) <= MAX_DIMS ->
  triples_at m o 0 dims ->
  eval_op_wrap op m = Done tt (wrapped (op_result o) data dims m).
Proof.
  intros Hop Ha0 Hfresh Hr Ha Hh Hfit Hlen Hfew Hdims.
  assert (Hne : op_result o <> ra).
  { intros E. apply Hfresh. rewrite E. eapply index_elem_of; eauto. }
  rewrite (eval_op_wrap_prologue m op o ra v0 data Hop Ha0 Hne Hr Ha Hh Hfit).
  rewrite <- Hlen. destruct (Z.ltb_spec MAX_DIMS (Z.of_nat (length dims))); [lia|].
  set (m4 := wrap_prologue (op_result o) data m).
  unfold ua_set_int, arena_offset. cbv [bind ret].
  rewrite (set_field_ok m4) by
    (try reflexivity; unfold off_ndims, C.sizeof_uarray_t in *; lia).
  set (m5 := write_cell _ _ m4).
  rewrite Nat2Z.id.
  assert (Hr5 : reg m5 (op_result o)
                = Some (VALUE VALUE_UARRAY (S_pointer (arena (halloc (st m)))))).
  { unfold m5, m4, wrap_prologue.
    change (reg (write_cell ?a ?b (write_cell ?c ?d ?x)) ?y) with (reg x y).
    eapply reg_write_reg_eq. exact Hr. }
  rewrite (wrap_dims_stores op o (op_result o) _ (halloc (st m)) dims 0 m5
             Hop Hr5 eq_refl eq_refl Hh Hfit); try lia.
  - unfold wrapped, m5, m4, wrap_prologue, descriptor_fields, store_fields.
    destruct m as [s w]. destruct w. reflexivity.
  - eapply triples_at_frame
      with (m := write_reg (op_result o)
                   (VALUE VALUE_UARRAY (S_pointer (arena (halloc (st m))))) m);
      [reflexivity|].
    eapply triples_at_write_reg; eauto.
Qed.

(** The register [ra] still leads to the descriptor at [u] after a tag
    is stored in the register [r]. *)
Lemma pointer_after_tag m r ra k v v0 u :
  reg m r = Some v0 -> reg m ra = Some v ->
  as_pointer (payload v) = Some (arena u) ->
  get_pointer (reg_slot ra) (write_reg r (VALUE k (payload v0)) m)
  = Done (arena u) (write_reg r (VALUE k (payload v0)) m).
Proof.
  intros Hr Ha Hp. destruct (Z.eq_dec r ra) as [->|Hne].
  - rewrite Hr in Ha. injection Ha as ->.
    eapply get_pointer_reg; [eapply reg_write_reg_eq; exact Hr | exact Hp].
  - eapply get_pointer_reg; [|exact Hp].
    rewrite (reg_write_reg_ne _ _ _ _ _ Hr Hne). exact Ha.
Qed.

(** A read of one bound of dimension [op_dim] of an unconstrained array:
    [field] is the offset of the bound in the descriptor. *)
Lemma read_bound m op o ra u v v0 z (field : Z -> Z -> Z) :
  op_at (wd m) op = Some o ->
  index 0 (op_args o) = Some ra ->
  reg m ra = Some v ->
  as_pointer (payload v) = Some (arena u) ->
  reg m (op_result o) = Some v0 ->
  0 <= op_dim o < MAX_DIMS ->
  cell m (field u (op_dim o)) = Some (F_scalar (S_integer z)) ->
  let m1 := write_reg (op_result o) (VALUE VALUE_INTEGER (payload v0)) m in
  (set_kind (reg_slot (op_result o)) VALUE_INTEGER ;;
   do u' <- get_pointer (reg_slot ra);
   do dim <- vcode_get_dim op;
   check_dim dim ;;
   do b <- ua_get_int u' (fun p => field p dim);
   set_integer (reg_slot (op_result o)) b) m
  = Done tt (write_reg (op_result o) (Integer z) m).
Proof.
  intros Hop Ha0 Ha Hp Hr Hd Hc m1.
  step (set_kind_reg _ _ _ VALUE_INTEGER Hr). fold m1.
  step (pointer_after_tag m _ _ VALUE_INTEGER _ _ _ Hr Ha Hp). fold m1.
  assert (Hop1 : op_at (wd m1) op = Some o) by exact Hop.
  step (vcode_get_dim_at _ _ _ Hop1).
  step (check_dim_ok _ m1 Hd).
  assert (Hc1 : cell m1 (field u (op_dim o)) = Some (F_scalar (S_integer z)))
    by exact Hc.
  step (ua_get_int_cell m1 u (fun p => field p (op_dim o)) z Hc1).
  unfold set_integer.
  rewrite (set_payload_reg m1 _ _ _ (reg_write_reg_eq _ _ _ _ Hr)).
  unfold m1. rewrite write_reg_twice. reflexivity.
Qed.

(** The bounds that a wrap op records for dimension [j] are the bounds
    that the left, right and direction ops read back from its result:
    the left and right bounds as they were in the argument registers,
    the direction reduced to the 32 bits of its field. *)
Theorem wrap_then_read_the_bounds (m : machine) (op1 op2 : Z) (o1 o2 : op_t)
  (ra : Z) (v0 vd : value_t) (data : value_ptr) (dims : list (Z * Z * Z))
  (j : nat) (l r d : Z) :
  op_at (wd m) op1 = Some o1 ->
  op_at (wd m) op2 = Some o2 ->
  index 0 (op_args o1) = Some ra ->
  op_result o1 ∉ op_args o1 ->
  reg m (op_result o1) = Some v0 ->
  reg m ra = Some (Pointer data) ->
  0 <= halloc (st m) ->
  halloc (st m) + C.sizeof_uarray_t <= EVAL_HEAP ->
  Z.of_nat (length dims) = Z.quot (Z.of_nat (length (op_args o1)) - 1) 3 ->
  Z.of_nat (length dims) <= MAX_DIMS ->
  triples_at m o1 0 dims ->
  index 0 (op_args o2) = Some (op_result o1) ->
  reg m (op_result o2) = Some vd ->
  op_dim o2 = Z.of_nat j ->
  dims !! j = Some (l, r, d) ->
  let m1 := wrapped (op_result o1) data dims m in
  eval_op_wrap op1 m = Done tt m1
  /\ eval_op_uarray_left op2 m1 = Done tt (write_reg (op_result o2) (Integer l) m1)
  /\ eval_op_uarray_right op2 m1 = Done tt (write_reg (op_result o2) (Integer r) m1)
  /\ eval_op_uarray_dir op2 m1
     = Done tt (write_reg (op_result o2) (Integer (C.uint d)) m1).
Proof.
  intros Hop1 Hop2 Ha0 Hfresh Hr Ha Hh Hfit Hlen Hfew Hdims Hb0 Hrd Hdim Hj m1.
  split; [apply (eval_op_wrap_records m op1 o1 ra v0 data dims); assumption|].
  assert (Hop2' : op_at (wd m1) op2 = Some o2) by exact Hop2.
  assert (Hr1 : reg m1 (op_result o1)
                = Some (VALUE VALUE_UARRAY (S_pointer (arena (halloc (st m)))))).
  { unfold m1, wrapped, wrap_prologue.
    change (reg (MACHINE (st (write_cell ?a ?b ?x)) ?w) ?y) with (reg x y).
    eapply reg_write_reg_eq. exact Hr. }
  assert (Hrd1 : exists vd', reg m1 (op_result o2) = Some vd').
  { unfold m1, wrapped, wrap_prologue.
    change (reg (MACHINE (st (write_cell ?a ?b ?x)) ?w) ?y) with (reg x y).
    destruct (Z.eq_dec (op_result o1) (op_result o2)) as [E|Hne].
    - rewrite <- E. eexists. eapply reg_write_reg_eq. exact Hr.
    - exists vd.
      rewrite (reg_write_reg_ne (allocated C.sizeof_uarray_t m) _ _ _ v0 Hr Hne).
      exact Hrd. }
  destruct Hrd1 as [vd' Hrd1].
  assert (Hd : 0 <= op_dim o2 < MAX_DIMS).
  { apply lookup_lt_Some in Hj. lia. }
  destruct (descriptor_lookup (halloc (st m)) data dims (mem (wd m)) j l r d Hj)
    as (Hl & Hrg & Hdr).
  rewrite <- Hdim in Hl, Hrg, Hdr.
  split; [|split].
  - unfold eval_op_uarray_left, eval_get_reg.
    step (vcode_get_arg_at _ _ _ _ _ Hop2' Hb0). cbv [bind ret].
    rewrite (vcode_get_result_at _ _ _ Hop2').
    rewrite (get_kind_reg _ _ _ Hr1). cbn [kind kind_eqb c_assert ret].
    exact (read_bound m1 op2 o2 (op_result o1) (halloc (st m)) _ vd' l off_left
             Hop2' Hb0 Hr1 eq_refl Hrd1 Hd Hl).
  - unfold eval_op_uarray_right, eval_get_reg.
    step (vcode_get_arg_at _ _ _ _ _ Hop2' Hb0). cbv [bind ret].
    rewrite (vcode_get_result_at _ _ _ Hop2').
    rewrite (get_kind_reg _ _ _ Hr1). cbn [kind kind_eqb c_assert ret].
    exact (read_bound m1 op2 o2 (op_result o1) (halloc (st m)) _ vd' r off_right
             Hop2' Hb0 Hr1 eq_refl Hrd1 Hd Hrg).
  - unfold eval_op_uarray_dir.
    step (dst_src_at _ _ _ _ Hop2' Hb0).
    step (vcode_get_dim_at _ _ _ Hop2').
    step (check_dim_ok _ m1 Hd).
    step (get_pointer_reg _ _ _ _ Hr1 eq_refl).
    step (ua_get_int_cell m1 (halloc (st m)) (fun p => off_dir p (op_dim o2))
            (C.uint d) Hdr).
    step (set_kind_reg _ _ _ VALUE_INTEGER Hrd1). unfold set_integer.
    rewrite (set_payload_reg _ _ _ _ (reg_write_reg_eq _ _ _ _ Hrd1)).
    rewrite write_reg_twice. reflexivity.
Qed.

Lemma wrap_then_read_the_bounds_witness :
  let m := Sample.bounds_machine in
  let m1 := wrapped 1 (arena 0) [(1, 8, RANGE_TO)] m in
  eval_op_wrap 0 m = Done tt m1
  /\ eval_op_uarray_left 1 m1 = Done tt (write_reg 5 (Integer 1) m1)
  /\ eval_op_uarray_right 1 m1 = Done tt (write_reg 5 (Integer 8) m1)
  /\ eval_op_uarray_dir 1 m1 = Done tt (write_reg 5 (Integer 0) m1).
Proof.
  intros m m1.
  refine (wrap_then_read_the_bounds m 0 1
            (Sample.op VCODE_OP_WRAP 1 [0; 2; 3; 4])
            (Sample.op VCODE_OP_UARRAY_LEFT 5 [1])
            0 zero_value zero_value (arena 0) [(1, 8, RANGE_TO)] 0 1 8 RANGE_TO
            eq_refl eq_refl eq_refl _ eq_refl eq_refl _ _ eq_refl _ _ eq_refl
            eq_refl eq_refl eq_refl).
  - cbn. rewrite !elem_of_cons, elem_of_nil. lia.
  - cbn. lia.
  - cbn. rewrite EVAL_HEAP_value. unfold C.sizeof_uarray_t. lia.
  - cbn. unfold MAX_DIMS. lia.
  - cbn [triples_at]. repeat split; reflexivity.
Defined.

(** The offsets of the fields of the dimensions are below that of the
    left bound of the dimension after the last. *)
Lemma dim_fields_below h dims : forall i k,
  k ∈ map fst (dim_fields h i dims) ->
  k < h + 24 * (i + Z.of_nat (length dims)).
Proof.
  induction dims as [|[[l r] d] rest IH]; intros i k Hk; [inversion Hk|].
  cbn [dim_fields map fst] in Hk. unfold off_left, off_right, off_dir in Hk.
  cbn [length]. rewrite !elem_of_cons in Hk.
  destruct Hk as [-> | [-> | [-> | Hk]]]; try lia.
  apply IH in Hk. lia.
Qed.

Lemma descriptor_data h data dims mem0 :
  Z.of_nat (length dims) <= MAX_DIMS ->
  store_fields (descriptor_fields h data dims) mem0 !! off_data h
  = Some (F_scalar (S_pointer data)).
Proof.
  intros Hfew. unfold descriptor_fields.
  cbn [store_fields foldl fst snd].
  change (foldl _ ?h0 (dim_fields h 0 dims))
    with (store_fields (dim_fields h 0 dims) h0).
  rewrite store_fields_other.
  - unfold off_data, off_ndims. rewrite lookup_insert_ne by lia.
    apply lookup_insert_eq.
  - intros Hin. apply dim_fields_below in Hin.
    unfold off_data, MAX_DIMS in *. lia.
Qed.

(** An unwrap of the result of a wrap gives back the pointer that was
    wrapped. *)
Theorem wrap_then_unwrap (m : machine) (op1 op2 : Z) (o1 o2 : op_t)
  (ra : Z) (v0 vd : value_t) (data : value_ptr) (dims : list (Z * Z * Z)) :
  op_at (wd m) op1 = Some o1 ->
  op_at (wd m) op2 = Some o2 ->
  index 0 (op_args o1) = Some ra ->
  op_result o1 ∉ op_args o1 ->
  reg m (op_result o1) = Some v0 ->
  reg m ra = Some (Pointer data) ->
  0 <= halloc (st m) ->
  halloc (st m) + C.sizeof_uarray_t <= EVAL_HEAP ->
  Z.of_nat (length dims) = Z.quot (Z.of_nat (length (op_args o1)) - 1) 3 ->
  Z.of_nat (length dims) <= MAX_DIMS ->
  triples_at m o1 0 dims ->
  index 0 (op_args o2) = Some (op_result o1) ->
  reg m (op_result o2) = Some vd ->
  let m1 := wrapped (op_result o1) data dims m in
  eval_op_wrap op1 m = Done tt m1
  /\ eval_op_unwrap op2 m1
     = Done tt (write_reg (op_result o2) (Pointer data) m1).
Proof.
  intros Hop1 Hop2 Ha0 Hfresh Hr Ha Hh Hfit Hlen Hfew Hdims Hb0 Hrd m1.
  split; [apply (eval_op_wrap_records m op1 o1 ra v0 data dims); assumption|].
  assert (Hop2' : op_at (wd m1) op2 = Some o2) by exact Hop2.
  assert (Hr1 : reg m1 (op_result o1)
                = Some (VALUE VALUE_UARRAY (S_pointer (arena (halloc (st m)))))).
  { unfold m1, wrapped, wrap_prologue.
    change (reg (MACHINE (st (write_cell ?a ?b ?x)) ?w) ?y) with (reg x y).
    eapply reg_write_reg_eq. exact Hr. }
  assert (Hrd1 : exists vd', reg m1 (op_result o2) = Some vd').
  { unfold m1, wrapped, wrap_prologue.
    change (reg (MACHINE (st (write_cell ?a ?b ?x)) ?w) ?y) with (reg x y).
    destruct (Z.eq_dec (op_result o1) (op_result o2)) as [E|Hne].
    - rewrite <- E. eexists. eapply reg_write_reg_eq. exact Hr.
    - exists vd.
      rewrite (reg_write_reg_ne (allocated C.sizeof_uarray_t m) _ _ _ v0 Hr Hne).
      exact Hrd. }
  destruct Hrd1 as [vd' Hrd1].
  unfold eval_op_unwrap.
  step (dst_src_at _ _ _ _ Hop2' Hb0).
  step (set_kind_reg _ _ _ VALUE_POINTER Hrd1).
  step (pointer_after_tag m1 _ _ VALUE_POINTER _ _ (halloc (st m)) Hrd1 Hr1 eq_refl).
  unfold ua_get_data, get_scalar, get_field. cbv [arena_offset bind ret].
  change (mem (wd (write_reg ?r ?v m1))) with (mem (wd m1)).
  unfold m1 at 1, wrapped. cbn [wd mem set_mem].
  rewrite (descriptor_data _ _ _ _ Hfew). cbv [of_option as_pointer ret].
  fold (wrapped (op_result o1) data dims m). fold m1.
  unfold set_pointer.
  rewrite (set_payload_reg _ _ _ _ (reg_write_reg_eq _ _ _ _ Hrd1)).
  rewrite write_reg_twice. reflexivity.
Qed.

Lemma wrap_then_unwrap_witness :
  let m := Sample.bounds_machine in
  let m1 := wrapped 1 (arena 0) [(1, 8, RANGE_TO)] m in
  eval_op_wrap 0 m = Done tt m1
  /\ eval_op_unwrap 2 m1 = Done tt (write_reg 5 (Pointer (arena 0)) m1).
Proof.
  intros m m1.
  refine (wrap_then_unwrap m 0 2
            (Sample.op VCODE_OP_WRAP 1 [0; 2; 3; 4])
            (Sample.op VCODE_OP_UNWRAP 5 [1])
            0 zero_value zero_value (arena 0) [(1, 8, RANGE_TO)]
            eq_refl eq_refl eq_refl _ eq_refl eq_refl _ _ eq_refl _ _ eq_refl
            eq_refl).
  - cbn. rewrite !elem_of_cons, elem_of_nil. lia.
  - cbn. lia.
  - cbn. rewrite EVAL_HEAP_value. unfold C.sizeof_uarray_t. lia.
  - cbn. unfold MAX_DIMS. lia.
  - cbn [triples_at]. repeat split; reflexivity.
Defined.

(** ** Alloca *)

Lemma int_small z : - 2 ^ 31 <= z < 2 ^ 31 -> C.int z = z.
Proof.
  intros H. unfold C.int, C.wrap.
  rewrite Z.mod_small by lia. lia.
Qed.

Lemma write_reg_allocated r v v' n m :
  write_reg r v (allocated n (write_reg r v' m))
  = write_reg r v (allocated n m).
Proof.
  rewrite <- (write_reg_twice (allocated n m) r v' v).
  destruct m as [s w]. destruct s. reflexivity.
Qed.

(** An alloca of [n] values returns the address of the high-water mark
    and moves the mark by 16 bytes for each value, whenever the new
    mark is within the arena.  The count is not tested for its sign: a
    negative count moves the mark back over memory handed out before. *)
Theorem alloca_moves_the_mark_either_way (m : machine) (op : Z) (o : op_t)
  (ra : Z) (v0 : value_t) (n : Z) :
  op_at (wd m) op = Some o ->
  index 0 (op_args o) = Some ra ->
  reg m (op_result o) = Some v0 ->
  reg m ra = Some (Integer n) ->
  - 2 ^ 31 <= n < 2 ^ 31 ->
  0 <= halloc (st m) + C.sizeof_value_t * n <= EVAL_HEAP ->
  eval_op_alloca op m
  = Done tt (write_reg (op_result o) (Pointer (arena (halloc (st m))))
               (allocated (C.sizeof_value_t * n) m)).
Proof.
  intros Hop Ha0 Hr Ha Hn Hfit. unfold eval_op_alloca, eval_get_reg.
  assert (Hargs : 0 < Z.of_nat (length (op_args o))).
  { destruct (op_args o); [discriminate|]. cbn [length]. lia. }
  cbv [bind ret c_assert].
  rewrite (vcode_get_result_at _ _ _ Hop). cbv beta iota.
  rewrite (vcode_count_args_at _ _ _ Hop). cbv beta iota.
  destruct (Z.ltb_spec 0 (Z.of_nat (length (op_args o)))); [|lia].
  rewrite (vcode_get_arg_at _ _ _ _ _ Hop Ha0). cbv beta iota.
  rewrite (get_kind_reg _ _ _ Ha). cbn [Integer kind kind_eqb].
  rewrite (get_integer_reg _ _ _ n Ha eq_refl). cbv beta iota.
  rewrite (int_small n Hn).
  rewrite (set_kind_reg _ _ _ VALUE_POINTER Hr). cbv beta iota.
  set (m1 := write_reg (op_result o) _ m).
  assert (Hh : halloc (st m1) = halloc (st m)) by reflexivity.
  rewrite alloc_cases. unfold requested. rewrite Hh.
  assert (Hs : C.size_t (halloc (st m) + C.size_t (C.sizeof_value_t * n))
               = halloc (st m) + C.sizeof_value_t * n).
  { unfold C.size_t. rewrite Z.add_mod_idemp_r by lia.
    apply Z.mod_small. rewrite EVAL_HEAP_value in Hfit. lia. }
  rewrite Hs.
  destruct (Z.ltb_spec EVAL_HEAP (halloc (st m) + C.sizeof_value_t * n)); [lia|].
  unfold set_pointer.
  assert (Hr2 : reg (advanced (C.size_t (C.sizeof_value_t * n)) m1) (op_result o)
                = Some (VALUE VALUE_POINTER (payload v0))).
  { change (reg (advanced ?k m1) ?r) with (reg m1 r).
    eapply reg_write_reg_eq. exact Hr. }
  rewrite (set_payload_reg _ _ _ _ Hr2). cbn [kind].
  f_equal. unfold advanced, requested. rewrite Hh, Hs.
  fold (allocated (C.sizeof_value_t * n) m1).
  unfold m1. apply write_reg_allocated.
Qed.

Lemma alloca_moves_the_mark_either_way_witness :
  eval_op_alloca 0 Sample.alloca_machine
  = Done tt (write_reg 1 (Pointer (arena 32))
               (allocated (C.sizeof_value_t * -1) Sample.alloca_machine))
  /\ halloc (st (allocated (C.sizeof_value_t * -1) Sample.alloca_machine)) = 16.
Proof.
  split; [|reflexivity].
  refine (alloca_moves_the_mark_either_way Sample.alloca_machine 0
            (Sample.op VCODE_OP_ALLOCA 1 [0]) 0 zero_value (-1)
            eq_refl eq_refl eq_refl eq_refl _ _).
  - lia.
  - cbn. rewrite EVAL_HEAP_value. unfold C.sizeof_value_t. lia.
Defined.

(** ** Case *)

Lemma case_target_default m op o t rt d : forall (cargs cs pre : list Z),
  op_at (wd m) op = Some o ->
  op_args o = (pre ++ cargs)%list ->
  reg m rt = Some (Integer t) ->
  integer_regs m cargs cs ->
  close_to t cs ->
  t ∉ cs ->
  case_target op (length cargs) (Z.of_nat (length pre)) (reg_slot rt) d m
  = Done d m.
Proof.
  induction cargs as [|a cargs IH]; intros cs pre Hop Hargs Ht Hcs Hclose Hnot;
    [reflexivity|].
  inversion Hcs as [|a' c cargs' cs' Ha Hrest]; subst.
  inversion Hclose as [|c' cs'' Hc Hclose']; subst.
  apply not_elem_of_cons in Hnot as [Hne Hnot].
  cbn [length case_target]. unfold eval_get_reg. cbv [bind ret].
  assert (Hi : index (Z.of_nat (length pre)) (op_args o) = Some a).
  { rewrite Hargs. unfold index.
    destruct (Z.ltb_spec (Z.of_nat (length pre)) 0); [lia|].
    rewrite Nat2Z.id. apply list_lookup_middle. reflexivity. }
  rewrite (vcode_get_arg_at _ _ _ _ _ Hop Hi).
  rewrite (eval_value_cmp_integers _ _ _ _ _ (holds_reg _ _ _ Ht) (holds_reg _ _ _ Ha)).
  rewrite (int_sub_close _ _ Hc).
  destruct (Z.eqb_spec (t - c) 0); [lia|].
  replace (Z.of_nat (length pre) + 1) with (Z.of_nat (length (pre ++ [a])))
    by (rewrite length_app; cbn [length]; lia).
  apply (IH cs' (pre ++ [a])%list); try assumption.
  rewrite <- app_assoc. exact Hargs.
Qed.

Lemma case_target_first m op o t rt d tgt : forall (before : list Z)
  (cargs after pre : list Z),
  op_at (wd m) op = Some o ->
  op_args o = (pre ++ cargs)%list ->
  reg m rt = Some (Integer t) ->
  integer_regs m cargs (before ++ t :: after) ->
  close_to t before ->
  t ∉ before ->
  index (Z.of_nat (length pre + length before)) (op_targets o) = Some tgt ->
  case_target op (length cargs) (Z.of_nat (length pre)) (reg_slot rt) d m
  = Done tgt m.
Proof.
  induction before as [|c before IH];
    intros cargs after pre Hop Hargs Ht Hcs Hclose Hnot Htgt.
  - inversion Hcs as [|a c cargs' cs' Ha Hrest]; subst.
    cbn [length case_target]. unfold eval_get_reg. cbv [bind ret].
    assert (Hi : index (Z.of_nat (length pre)) (op_args o) = Some a).
    { rewrite Hargs. unfold index.
      destruct (Z.ltb_spec (Z.of_nat (length pre)) 0); [lia|].
      rewrite Nat2Z.id. apply list_lookup_middle. reflexivity. }
    rewrite (vcode_get_arg_at _ _ _ _ _ Hop Hi).
    rewrite (eval_value_cmp_integers _ _ _ _ _ (holds_reg _ _ _ Ht) (holds_reg _ _ _ Ha)).
    rewrite (int_sub_close t t) by lia. rewrite Z.sub_diag. cbn [Z.eqb].
    cbn [length] in Htgt. rewrite Nat.add_0_r in Htgt.
    apply (vcode_get_target_at _ _ _ _ _ Hop Htgt).
  - inversion Hcs as [|a c' cargs' cs' Ha Hrest]; subst.
    inversion Hclose as [|c' cs'' Hc Hclose']; subst.
    apply not_elem_of_cons in Hnot as [Hne Hnot].
    cbn [length case_target]. unfold eval_get_reg. cbv [bind ret].
    assert (Hi : index (Z.of_nat (length pre)) (op_args o) = Some a).
    { rewrite Hargs. unfold index.
      destruct (Z.ltb_spec (Z.of_nat (length pre)) 0); [lia|].
      rewrite Nat2Z.id. apply list_lookup_middle. reflexivity. }
    rewrite (vcode_get_arg_at _ _ _ _ _ Hop Hi).
    rewrite (eval_value_cmp_integers _ _ _ _ _ (holds_reg _ _ _ Ht) (holds_reg _ _ _ Ha)).
    rewrite (int_sub_close _ _ Hc).
    destruct (Z.eqb_spec (t - c) 0); [lia|].
    replace (Z.of_nat (length pre) + 1) with (Z.of_nat (length (pre ++ [a])))
      by (rewrite length_app; cbn [length]; lia).
    apply (IH cargs' after (pre ++ [a])%list); try assumption.
    + rewrite <- app_assoc. exact Hargs.
    + rewrite length_app. cbn [length] in *.
      replace (length pre + 1 + length before)%nat
        with (length pre + S (length before))%nat by lia.
      exact Htgt.
Qed.

Lemma eval_op_case_selects rec m op o rt cargs d tgt :
  op_at (wd m) op = Some o ->
  op_args o = rt :: cargs ->
  index 0 (op_targets o) = Some d ->
  case_target op (length cargs) 1 (reg_slot rt) d m = Done tgt m ->
  eval_op_case rec op m = rec (MACHINE (st m) (select_block tgt (wd m))).
Proof.
  intros Hop Hargs Hd Hcase. unfold eval_op_case, eval_get_reg.
  assert (Ha0 : index 0 (op_args o) = Some rt) by (rewrite Hargs; reflexivity).
  step (vcode_get_arg_at _ _ _ _ _ Hop Ha0). cbv [bind ret].
  rewrite (vcode_get_target_at _ _ _ _ _ Hop Hd).
  rewrite (vcode_count_args_at _ _ _ Hop), Hargs.
  replace (Z.to_nat (Z.of_nat (length (rt :: cargs)) - 1)) with (length cargs)
    by (cbn [length]; lia).
  rewrite Hcase.
  unfold vcode_select_block. cbv [bind get_world put_world].
  destruct m; reflexivity.
Qed.

(** A case op whose test and choices are integers goes on in the block
    of the first choice that equals the test, however many choices
    after it are equal too, and in the default block, the target 0, when
    no choice equals the test. *)
Theorem case_takes_the_first_equal_choice (rec : M unit) (m : machine)
  (op : Z) (o : op_t) (rt : Z) (cargs cs : list Z) (t d : Z) :
  op_at (wd m) op = Some o ->
  op_args o = rt :: cargs ->
  reg m rt = Some (Integer t) ->
  integer_regs m cargs cs ->
  close_to t cs ->
  index 0 (op_targets o) = Some d ->
  (forall before after tgt,
      cs = (before ++ t :: after)%list -> t ∉ before ->
      index (Z.of_nat (S (length before))) (op_targets o) = Some tgt ->
      eval_op_case rec op m = rec (MACHINE (st m) (select_block tgt (wd m))))
  /\ (t ∉ cs ->
      eval_op_case rec op m = rec (MACHINE (st m) (select_block d (wd m)))).
Proof.
  intros Hop Hargs Ht Hcs Hclose Hd. split.
  - intros before after tgt -> Hnot Htgt.
    apply (eval_op_case_selects rec m op o rt cargs d tgt Hop Hargs Hd).
    apply (case_target_first m op o t rt d tgt before cargs after [rt]);
      try assumption.
    unfold close_to in *. apply Forall_app in Hclose. tauto.
  - intros Hnot.
    apply (eval_op_case_selects rec m op o rt cargs d d Hop Hargs Hd).
    apply (case_target_default m op o t rt d cargs cs [rt]); assumption.
Qed.

Lemma case_takes_the_first_equal_choice_witness :
  eval_op_case (eval_vcode (Sample.X None) 1) 0 Sample.case_machine
  = eval_vcode (Sample.X None) 1
      (MACHINE (st Sample.case_machine)
         (select_block 5 (wd Sample.case_machine))).
Proof.
  refine (proj1 (case_takes_the_first_equal_choice
                   (eval_vcode (Sample.X None) 1) Sample.case_machine 0
                   (Sample.with_targets [9; 4; 5; 6]
                      (Sample.op VCODE_OP_CASE 0 [0; 1; 2; 3]))
                   0 [1; 2; 3] [3; 7; 7] 7 9 eq_refl eq_refl eq_refl _ _ eq_refl)
            [3] [7] 5 eq_refl _ eq_refl).
  - repeat constructor.
  - repeat constructor; lia.
  - rewrite elem_of_cons, elem_of_nil. lia.
Defined.

(** ** Arrays in the arena *)

Lemma holds_arena_cells m q v :
  holds m (arena q) v ->
  cell m q = Some (F_kind (kind v))
  /\ cell m (off_payload q) = Some (F_scalar (payload v)).
Proof.
  unfold holds, cell, get_kind, get_payload, get_scalar, get_field.
  cbv [bind ret undefined]. intros [Hk Hp]. split.
  - destruct (mem (wd m) !! q) as [[k|sc]|]; try discriminate.
    injection Hk as ->. reflexivity.
  - destruct (mem (wd m) !! off_payload q) as [[k|sc]|]; try discriminate.
    injection Hp as ->. reflexivity.
Qed.

Lemma holds_write_value_other m p q v v' :
  q + C.sizeof_value_t <= p \/ p + C.sizeof_value_t <= q ->
  holds m (arena q) v -> holds (write_value p v' m) (arena q) v.
Proof.
  intros Hpq H. apply holds_arena_cells in H as [Hk Hp].
  unfold C.sizeof_value_t in Hpq.
  apply holds_cell; unfold cell, write_value, write_cell, off_payload in *;
    cbn [wd mem set_mem].
  - rewrite !lookup_insert_ne by lia. exact Hk.
  - rewrite !lookup_insert_ne by lia. exact Hp.
Qed.

Lemma holds_write_values_other q v : forall vs p m,
  q + C.sizeof_value_t <= p \/ p + C.sizeof_value_t * Z.of_nat (length vs) <= q ->
  holds m (arena q) v -> holds (write_values p vs m) (arena q) v.
Proof.
  induction vs as [|v' rest IH]; intros p m Hpq H; [exact H|].
  cbn [write_values]. cbn [length] in Hpq. unfold C.sizeof_value_t in *.
  apply IH; [lia|]. apply holds_write_value_other; [|exact H].
  unfold C.sizeof_value_t. lia.
Qed.

Lemma values_at_write_values vs : forall p m,
  values_at (write_values p vs m) p vs.
Proof.
  induction vs as [|v rest IH]; intros p m i w Hi; [discriminate|].
  cbn [write_values]. destruct i as [|i].
  - injection Hi as ->. rewrite Z.mul_0_r, Z.add_0_r.
    apply holds_write_values_other; [left; lia|]. apply holds_write_value.
  - cbn [lookup] in Hi.
    replace (p + C.sizeof_value_t * Z.of_nat (S i))
      with (p + C.sizeof_value_t + C.sizeof_value_t * Z.of_nat i)
      by (unfold C.sizeof_value_t; lia).
    apply (IH _ _ i w Hi).
Qed.

Lemma reg_write_values r : forall vs p m,
  reg (write_values p vs m) r = reg m r.
Proof.
  induction vs as [|v rest IH]; intros p m; [reflexivity|].
  cbn [write_values]. rewrite IH. reflexivity.
Qed.

Lemma regs_hold_other m r v v0 args vs :
  reg m r = Some v0 -> r ∉ args ->
  regs_hold m args vs -> regs_hold (write_reg r v m) args vs.
Proof.
  intros Hr Hnot H. induction H as [|a w args vs Ha Hrest IH]; [constructor|].
  apply not_elem_of_cons in Hnot as [Hne Hnot]. constructor; [|apply IH, Hnot].
  rewrite (reg_write_reg_ne _ _ _ _ _ Hr); [exact Ha | congruence].
Qed.

(** The loop of [eval_op_const_array], from the argument after [pre]. *)
Lemma const_array_fill_stores op o r h : forall (rest : list Z)
  (vs : list value_t) (pre : list Z) (m : machine),
  op_at (wd m) op = Some o ->
  op_args o = (pre ++ rest)%list ->
  regs_hold m rest vs ->
  reg m r = Some (Pointer (arena h)) ->
  heap (st m) = true ->
  0 <= h ->
  h + C.sizeof_value_t * Z.of_nat (length pre + length rest) <= EVAL_HEAP ->
  const_array_fill op (length rest) (Z.of_nat (length pre)) (reg_slot r) m
  = Done tt (write_values (h + C.sizeof_value_t * Z.of_nat (length pre)) vs m).
Proof.
  induction rest as [|a rest IH]; intros vs pre m Hop Hargs Hvs Hr Hheap Hh Hfit.
  - inversion Hvs; subst. reflexivity.
  - inversion Hvs as [|a' v rest' vs' Ha Hrest]; subst.
    cbn [length const_array_fill write_values]. unfold eval_get_reg.
    cbv [bind ret].
    rewrite (get_pointer_reg _ _ _ _ Hr eq_refl).
    cbn [ptr_add]. cbv beta iota delta [ret].
    assert (Hi : index (Z.of_nat (length pre)) (op_args o) = Some a).
    { rewrite Hargs. unfold index.
      destruct (Z.ltb_spec (Z.of_nat (length pre)) 0); [lia|].
      rewrite Nat2Z.id. apply list_lookup_middle. reflexivity. }
    rewrite (vcode_get_arg_at _ _ _ _ _ Hop Hi). cbv beta iota.
    rewrite (load_reg _ _ _ Ha). cbv beta iota.
    cbn [length] in Hfit. unfold C.sizeof_value_t in *.
    rewrite (store_arena m (h + 16 * Z.of_nat (length pre)) v Hheap)
      by (unfold C.sizeof_value_t; lia).
    replace (Z.of_nat (length pre) + 1) with (Z.of_nat (length (pre ++ [a])))
      by (rewrite length_app; cbn [length]; lia).
    rewrite (IH vs' (pre ++ [a])%list
               (write_value (h + 16 * Z.of_nat (length pre)) v m)).
    + f_equal. f_equal. rewrite length_app. cbn [length]. lia.
    + exact Hop.
    + rewrite <- app_assoc. exact Hargs.
    + exact Hrest.
    + exact Hr.
    + exact Hheap.
    + exact Hh.
    + rewrite length_app. cbn [length]. lia.
Qed.

(** A constant array takes 16 bytes of the arena for each argument,
    from the high-water mark on; its cells hold copies of the argument
    registers in their order, and the result register points at the
    first. *)
Theorem const_array_holds_its_arguments (m : machine) (op : Z) (o : op_t)
  (v0 : value_t) (vs : list value_t) :
  op_at (wd m) op = Some o ->
  reg m (op_result o) = Some v0 ->
  op_result o ∉ op_args o ->
  regs_hold m (op_args o) vs ->
  0 <= halloc (st m) ->
  halloc (st m) + C.sizeof_value_t * Z.of_nat (length (op_args o)) <= EVAL_HEAP ->
  let h := halloc (st m) in
  let m1 := write_values h vs
              (write_reg (op_result o) (Pointer (arena h))
                 (allocated (C.sizeof_value_t * Z.of_nat (length (op_args o))) m)) in
  eval_op_const_array op m = Done tt m1
  /\ reg m1 (op_result o) = Some (Pointer (arena h))
  /\ values_at m1 h vs.
Proof.
  intros Hop Hr Hfresh Hvs Hh Hfit h m1.
  split; [|split].
  - unfold eval_op_const_array, eval_get_reg.
    step (vcode_get_result_at _ _ _ Hop). cbv [bind ret].
    rewrite (vcode_count_args_at _ _ _ Hop).
    rewrite (set_kind_reg _ _ _ VALUE_POINTER Hr).
    set (n := Z.of_nat (length (op_args o))) in *.
    set (m0 := write_reg (op_result o) _ m).
    assert (Hn : 0 <= C.sizeof_value_t * n) by (unfold C.sizeof_value_t, n; lia).
    rewrite size_t_small
      by (rewrite EVAL_HEAP_value in Hfit; lia).
    rewrite (alloc_fits m0 (C.sizeof_value_t * n) Hn Hh Hfit).
    unfold set_pointer.
    assert (Hr2 : reg (allocated (C.sizeof_value_t * n) m0) (op_result o)
                  = Some (VALUE VALUE_POINTER (payload v0))).
    { change (reg (allocated ?k m0) ?r) with (reg m0 r).
      eapply reg_write_reg_eq. exact Hr. }
    rewrite (set_payload_reg _ _ _ _ Hr2). cbn [kind is_null].
    change (halloc (st m0)) with h.
    unfold m0. rewrite write_reg_allocated.
    unfold n. rewrite Nat2Z.id.
    rewrite (const_array_fill_stores op o (op_result o) h (op_args o) vs []).
    + cbn [length]. rewrite Z.mul_0_r, Z.add_0_r. reflexivity.
    + exact Hop.
    + reflexivity.
    + apply (regs_hold_other (allocated _ m) _ _ v0); [exact Hr | exact Hfresh|].
      exact Hvs.
    + eapply (reg_write_reg_eq (allocated _ m)). exact Hr.
    + reflexivity.
    + exact Hh.
    + cbn [length]. exact Hfit.
  - unfold m1. rewrite reg_write_values.
    eapply (reg_write_reg_eq (allocated _ m)). exact Hr.
  - apply values_at_write_values.
Qed.

Lemma const_array_holds_its_arguments_witness :
  let m := Sample.const_array_machine in
  let m1 := write_values 32 [Integer 7; Real_ Real.zero]
              (write_reg 2 (Pointer (arena 32)) (allocated 32 m)) in
  eval_op_const_array 0 m = Done tt m1
  /\ reg m1 2 = Some (Pointer (arena 32))
  /\ values_at m1 32 [Integer 7; Real_ Real.zero].
Proof.
  intros m m1.
  refine (const_array_holds_its_arguments m 0
            (Sample.op VCODE_OP_CONST_ARRAY 2 [0; 1]) zero_value
            [Integer 7; Real_ Real.zero] eq_refl eq_refl _ _ _ _).
  - cbn. rewrite !elem_of_cons, elem_of_nil. lia.
  - repeat constructor.
  - cbn. lia.
  - cbn. rewrite EVAL_HEAP_value. unfold C.sizeof_value_t. lia.
Defined.

(** ** Copy *)

(** A register keeps its payload when a tag is stored in a register,
    the same or another. *)
Lemma reg_after_tag m r r' k v v' :
  reg m r = Some v -> reg m r' = Some v' ->
  exists v'', reg (write_reg r (VALUE k (payload v)) m) r' = Some v''
              /\ payload v'' = payload v'.
Proof.
  intros Hr Hr'. destruct (Z.eq_dec r r') as [<-|Hne].
  - eexists. split; [eapply reg_write_reg_eq; exact Hr|].
    cbn [payload]. congruence.
  - exists v'. split; [|reflexivity].
    rewrite (reg_write_reg_ne _ _ _ _ _ Hr Hne). exact Hr'.
Qed.

(** The loop of [eval_op_copy] from the cell [i] on, when the two
    regions of [n] cells do not overlap. *)
Lemma copy_loop_copies rd rs pd ps n : forall (rest : list value_t) (i : Z)
  (m : machine) (vd vs : value_t),
  reg m rd = Some vd -> as_pointer (payload vd) = Some (arena pd) ->
  reg m rs = Some vs -> as_pointer (payload vs) = Some (arena ps) ->
  heap (st m) = true ->
  0 <= i -> n = i + Z.of_nat (length rest) ->
  0 <= pd -> pd + C.sizeof_value_t * n <= EVAL_HEAP ->
  pd + C.sizeof_value_t * n <= ps \/ ps + C.sizeof_value_t * n <= pd ->
  values_at m (ps + C.sizeof_value_t * i) rest ->
  copy_loop (length rest) i (reg_slot rd) (reg_slot rs) m
  = Done tt (write_values (pd + C.sizeof_value_t * i) rest m).
Proof.
  induction rest as [|v rest IH];
    intros i m vd vs Hd Hpd Hs Hps Hheap Hi Hn H0 Hfit Hsep Hvals;
    [reflexivity|].
  cbn [length copy_loop write_values]. cbv [bind ret].
  rewrite (get_pointer_reg _ _ _ _ Hd Hpd).
  cbn [ptr_add]. cbv beta iota delta [ret].
  rewrite (get_pointer_reg _ _ _ _ Hs Hps).
  cbn [ptr_add]. cbv beta iota delta [ret].
  pose proof (Hvals 0%nat v eq_refl) as Hv.
  rewrite Z.mul_0_r, Z.add_0_r in Hv.
  rewrite (holds_load _ _ _ Hv). cbv beta iota.
  cbn [length] in Hn. unfold C.sizeof_value_t in *.
  rewrite (store_arena m (pd + 16 * i) v Hheap)
    by (unfold C.sizeof_value_t; lia).
  rewrite (IH (i + 1) (write_value (pd + 16 * i) v m) vd vs);
    try assumption; try lia.
  - f_equal. f_equal. lia.
  - intros j w Hj.
    pose proof (lookup_lt_Some _ _ _ Hj) as Hlt.
    apply holds_write_value_other; [unfold C.sizeof_value_t; lia|].
    pose proof (Hvals (S j) w Hj) as Hw.
    unfold C.sizeof_value_t in *.
    replace (ps + 16 * (i + 1) + 16 * Z.of_nat j)
      with (ps + 16 * i + 16 * Z.of_nat (S j)) by lia.
    exact Hw.
Qed.

(** A copy of [n] values between two regions of the arena that do not
    overlap leaves in the destination the values of the source, cell by
    cell.  The three assertions on the kinds of its registers are
    assignments: the op takes registers of any kind and tags them
    pointer, pointer and integer. *)
Theorem copy_between_separate_regions (m : machine) (op : Z) (o : op_t)
  (rd rs rc pd ps : Z) (vd vs vc : value_t) (vals : list value_t) :
  op_at (wd m) op = Some o ->
  op_args o = [rd; rs; rc] ->
  reg m rd = Some vd -> as_pointer (payload vd) = Some (arena pd) ->
  reg m rs = Some vs -> as_pointer (payload vs) = Some (arena ps) ->
  reg m rc = Some vc ->
  as_integer (payload vc) = Some (Z.of_nat (length vals)) ->
  heap (st m) = true ->
  0 <= pd ->
  pd + C.sizeof_value_t * Z.of_nat (length vals) <= EVAL_HEAP ->
  pd + C.sizeof_value_t * Z.of_nat (length vals) <= ps
  \/ ps + C.sizeof_value_t * Z.of_nat (length vals) <= pd ->
  values_at m ps vals ->
  let m1 := write_values pd vals (copy_tags rd rs rc vd vs vc m) in
  eval_op_copy op m = Done tt m1 /\ values_at m1 pd vals.
Proof.
  intros Hop Hargs Hd Hpd Hs Hps Hc Hn Hheap H0 Hfit Hsep Hvals m1.
  split; [|apply values_at_write_values].
  unfold eval_op_copy, eval_get_reg.
  assert (Ha0 : index 0 (op_args o) = Some rd) by (rewrite Hargs; reflexivity).
  assert (Ha1 : index 1 (op_args o) = Some rs) by (rewrite Hargs; reflexivity).
  assert (Ha2 : index 2 (op_args o) = Some rc) by (rewrite Hargs; reflexivity).
  cbv [bind ret].
  rewrite (vcode_get_arg_at _ _ _ _ _ Hop Ha0). cbv beta iota.
  rewrite (vcode_get_arg_at _ _ _ _ _ Hop Ha1). cbv beta iota.
  rewrite (vcode_get_arg_at _ _ _ _ _ Hop Ha2). cbv beta iota.
  rewrite (set_kind_reg _ _ _ VALUE_POINTER Hd). cbv beta iota.
  set (ma := write_reg rd _ m).
  destruct (reg_after_tag m rd rs VALUE_POINTER vd vs Hd Hs) as (vs' & Hs1 & Es).
  destruct (reg_after_tag m rd rc VALUE_POINTER vd vc Hd Hc) as (vc' & Hc1 & Ec).
  fold ma in Hs1, Hc1.
  assert (Hd1 : reg ma rd = Some (VALUE VALUE_POINTER (payload vd)))
    by (eapply reg_write_reg_eq; exact Hd).
  rewrite (set_kind_reg _ _ _ VALUE_POINTER Hs1). cbv beta iota. rewrite Es.
  set (mb := write_reg rs _ ma).
  destruct (reg_after_tag ma rs rc VALUE_POINTER vs' vc' Hs1 Hc1) as (vc'' & Hc2 & Ec2).
  destruct (reg_after_tag ma rs rd VALUE_POINTER vs' _ Hs1 Hd1) as (vd2 & Hd2 & Ed2).
  rewrite Es in Hc2, Hd2. fold mb in Hc2, Hd2.
  assert (Hs2 : reg mb rs = Some (VALUE VALUE_POINTER (payload vs)))
    by (eapply reg_write_reg_eq; exact Hs1).
  rewrite (set_kind_reg _ _ _ VALUE_INTEGER Hc2). cbv beta iota.
  rewrite Ec2, Ec.
  fold (copy_tags rd rs rc vd vs vc m).
  set (mc := write_reg rc _ mb).
  assert (Hmc : mc = copy_tags rd rs rc vd vs vc m) by reflexivity.
  assert (Hc3 : reg mc rc = Some (VALUE VALUE_INTEGER (payload vc)))
    by (eapply reg_write_reg_eq; exact Hc2).
  destruct (reg_after_tag mb rc rd VALUE_INTEGER vc'' vd2 Hc2 Hd2) as (vd3 & Hd3 & Ed3).
  destruct (reg_after_tag mb rc rs VALUE_INTEGER vc'' _ Hc2 Hs2) as (vs3 & Hs3 & Es3).
  rewrite Ec2, Ec in Hd3, Hs3. fold mc in Hd3, Hs3.
  rewrite (get_integer_reg _ _ _ _ Hc3 Hn). cbv beta iota.
  rewrite Nat2Z.id.
  rewrite (copy_loop_copies rd rs pd ps (Z.of_nat (length vals)) vals 0 mc vd3 vs3).
  - unfold m1. rewrite <- Hmc, Z.mul_0_r, Z.add_0_r. reflexivity.
  - exact Hd3.
  - rewrite Ed3, Ed2. exact Hpd.
  - exact Hs3.
  - rewrite Es3. exact Hps.
  - exact Hheap.
  - lia.
  - lia.
  - exact H0.
  - exact Hfit.
  - exact Hsep.
  - rewrite Z.mul_0_r, Z.add_0_r. intros j w Hj.
    eapply holds_arena_frame; [|exact (Hvals j w Hj)]. reflexivity.
Qed.

Lemma copy_between_separate_regions_witness :
  let m := Sample.copy_machine in
  let vals := [Integer 7; Real_ Real.zero] in
  let m1 := write_values 64 vals
              (copy_tags 0 1 2 (VALUE VALUE_INTEGER (S_pointer (arena 64)))
                 (VALUE VALUE_INTEGER (S_pointer (arena 0)))
                 (VALUE VALUE_POINTER (S_integer 2)) m) in
  eval_op_copy 0 m = Done tt m1 /\ values_at m1 64 vals.
Proof.
  intros m vals m1.
  refine (copy_between_separate_regions m 0
            (Sample.op VCODE_OP_COPY (-1) [0; 1; 2]) 0 1 2 64 0
            _ _ _ vals eq_refl eq_refl eq_refl eq_refl eq_refl eq_refl
            eq_refl eq_refl eq_refl _ _ _ _).
  - lia.
  - cbn. rewrite EVAL_HEAP_value. unfold C.sizeof_value_t. lia.
  - right. cbn. unfold C.sizeof_value_t. lia.
  - apply values_at_write_values.
Defined.

(** ** Bounds held in registers *)

(** A dynamic bounds check of an Integer against the range [l .. h] of
    two registers passes when the range is null, and fails the fold
    when the value is outside a range that is not; the failure writes
    no diagnostic and counts no error, whatever the flags.  A Real is
    not checked at all. *)
Theorem dynamic_bounds_fail_silently (m : machine) (op : Z) (o : op_t)
  (rx rl rh : Z) (vl vh : value_t) (l h : Z) :
  op_at (wd m) op = Some o ->
  op_args o = [rx; rl; rh] ->
  reg m rl = Some vl -> as_integer (payload vl) = Some l ->
  reg m rh = Some vh -> as_integer (payload vh) = Some h ->
  (forall n,
      reg m rx = Some (Integer n) ->
      let out := (l <=? h) && ((n <? l) || (h <? n)) in
      eval_op_dynamic_bounds op m
      = Done tt (if out then mark_failed true m else m)
      /\ wd (if out then mark_failed true m else m) = wd m)
  /\ (forall x,
         reg m rx = Some (Real_ x) -> eval_op_dynamic_bounds op m = Done tt m).
Proof.
  intros Hop Hargs Hl Hzl Hh Hzh.
  assert (Ha0 : index 0 (op_args o) = Some rx) by (rewrite Hargs; reflexivity).
  assert (Ha1 : index 1 (op_args o) = Some rl) by (rewrite Hargs; reflexivity).
  assert (Ha2 : index 2 (op_args o) = Some rh) by (rewrite Hargs; reflexivity).
  assert (Hpre : forall vx, reg m rx = Some vx ->
            eval_op_dynamic_bounds op m
            = match kind vx with
              | VALUE_INTEGER =>
                  (do l0 <- get_integer (reg_slot rl);
                   do h0 <- get_integer (reg_slot rh);
                   if h0 <? l0 then ret tt
                   else
                     do n <- get_integer (reg_slot rx);
                     if (n <? l0) || (h0 <? n) then fail_fold else ret tt) m
              | VALUE_REAL => Done tt m
              | _ => invalid_value_type "eval_op_dynamic_bounds" m
              end).
  { intros vx Hx. unfold eval_op_dynamic_bounds, eval_get_reg.
    step (vcode_get_arg_at _ _ _ _ _ Hop Ha0). cbv [bind ret].
    rewrite (vcode_get_arg_at _ _ _ _ _ Hop Ha1).
    rewrite (vcode_get_arg_at _ _ _ _ _ Hop Ha2).
    rewrite (get_kind_reg _ _ _ Hx). destruct (kind vx); reflexivity. }
  split.
  - intros n Hx out. split; [|destruct out; reflexivity].
    rewrite (Hpre _ Hx). cbn [Integer kind].
    step (get_integer_reg _ _ _ _ Hl Hzl).
    step (get_integer_reg _ _ _ _ Hh Hzh).
    unfold out. rewrite (Z.leb_antisym h l).
    destruct (h <? l); [reflexivity|]. cbn [negb andb].
    step (get_integer_reg _ _ _ n Hx eq_refl).
    destruct ((n <? l) || (h <? n)); reflexivity.
  - intros x Hx. rewrite (Hpre _ Hx). reflexivity.
Qed.

Lemma dynamic_bounds_fail_silently_witness :
  eval_op_dynamic_bounds 0 (Sample.dynamic_bounds_machine (Integer 9))
  = Done tt (mark_failed true (Sample.dynamic_bounds_machine (Integer 9)))
  /\ eval_op_dynamic_bounds 0 (Sample.dynamic_bounds_machine (Real_ Real.zero))
     = Done tt (Sample.dynamic_bounds_machine (Real_ Real.zero)).
Proof.
  split.
  - exact (proj1 (proj1 (dynamic_bounds_fail_silently
                           (Sample.dynamic_bounds_machine (Integer 9)) 0
                           (Sample.op VCODE_OP_DYNAMIC_BOUNDS (-1) [0; 1; 2])
                           0 1 2 (Integer 1) (Integer 8) 1 8
                           eq_refl eq_refl eq_refl eq_refl eq_refl eq_refl)
                    9 eq_refl)).
  - exact (proj2 (dynamic_bounds_fail_silently
                    (Sample.dynamic_bounds_machine (Real_ Real.zero)) 0
                    (Sample.op VCODE_OP_DYNAMIC_BOUNDS (-1) [0; 1; 2])
                    0 1 2 (Integer 1) (Integer 8) 1 8
                    eq_refl eq_refl eq_refl eq_refl eq_refl eq_refl)
             Real.zero eq_refl).
Defined.
